(** * rfc_protect: protection management of highly used Wikidata items

    A shallow embedding of [main.py].  The pandas data frames become lists
    of records (a cell that pandas may hold as NaN/None is an [option]),
    the class-level counters become a record threaded through the run, the
    wiki and the replica database become explicit parts of the state and
    of the environment, and Python exceptions become constructors of a
    result type. *)

From stdpp Require Import gmap strings list sorting.
From Stdlib Require Import ZArith Lia Permutation.

Local Open Scope string_scope.
Local Open Scope Z_scope.

(** ** Data frame operations used by the script *)

Section frames.
Context {A : Type}.

(** [sort_values]: rows ordered by a comparison [le] on the sort column.
    Insertion of a row in front of the first row that is not smaller
    keeps rows with equal keys in their incoming order; pandas' default
    algorithm promises no order among equal keys, and no statement below
    depends on it. *)
Fixpoint insert_sorted (le : A → A → bool) (x : A) (l : list A) : list A :=
  match l with
  | [] => [x]
  | y :: t => if le x y then x :: y :: t else y :: insert_sorted le x t
  end.

Fixpoint sort_values (le : A → A → bool) (l : list A) : list A :=
  match l with
  | [] => []
  | x :: t => insert_sorted le x (sort_values le t)
  end.

(** [drop_duplicates(subset=key, keep='last')]: a row survives when no
    later row carries the same key; surviving rows keep their order. *)
Fixpoint drop_duplicates_last {K : Type} `{EqDecision K}
    (key : A → K) (l : list A) : list A :=
  match l with
  | [] => []
  | x :: t =>
      if existsb (λ y, bool_decide (key y = key x)) t
      then drop_duplicates_last key t
      else x :: drop_duplicates_last key t
  end.

(** [series.isin(values)] for one cell. *)
Definition isin {K : Type} `{EqDecision K} (k : K) (values : list K) : bool :=
  existsb (λ v, bool_decide (v = k)) values.
End frames.

(** Comparisons against a threshold for a cell that may be NaN: every
    comparison with NaN is false, as for Python floats. *)
Definition nan_ge (x : option Z) (limit : Z) : bool :=
  match x with Some v => limit <=? v | None => false end.

Definition nan_lt (x : option Z) (limit : Z) : bool :=
  match x with Some v => v <? limit | None => false end.

(** Descending order on a column that may hold NaN, NaN rows last
    ([ascending=False], default [na_position='last']). *)
Definition desc_nan_last (x y : option Z) : bool :=
  match x, y with
  | Some a, Some b => b <=? a
  | Some _, None => true
  | None, Some _ => false
  | None, None => true
  end.

(** ** Tables *)

(** Rows of the indefinitely-semiprotected query: qid, logTimestamp,
    username. *)
Module Protection.
Record row := mk {
  qid : option string;
  logTimestamp : Z;
  username : option string
}.
End Protection.

(** Rows of the early-protections file: qid, logId, admin. *)
Module Early.
Record row := mk {
  qid : option string;
  logId : Z;
  admin : option string
}.
End Early.

(** Rows of the WDCM toplist: qid, entityUsageCount.  The count column is
    read with dtype int, so it never holds NaN; the qid column may. *)
Module Usage.
Record row := mk {
  qid : option string;
  entityUsageCount : Z
}.
End Usage.

(** The unit of work, [Case = namedtuple('Case', ['qid',
    'entityUsageCount', 'username'])].  The tuples handed to
    [add_protection] have no username column; those handed to
    [remove_protection] have a NaN usage count when the item is absent from
    the toplist. *)
Record Case := mkCase {
  qid : string;
  entityUsageCount : option Z;
  username : option string
}.

(** ** Configuration *)

Record Config := mkConfig {
  WHITELISTED_ADMINS : list string;
  ENTITYUSAGELIMIT : Z;
  COOLDOWNUSAGELIMIT : Z;
  ADDLIMIT : option Z;
  LIFTLIMIT : option Z;
  MINSUBSCRIBEDPROJECTS : option Z;
  SIMULATE : bool;
  HARDLIMIT : option Z
}.

(** The values [class Config] ships with. *)
Definition shipped_config : Config :=
  {| WHITELISTED_ADMINS := ["MsynABot"];
     ENTITYUSAGELIMIT := 500;
     COOLDOWNUSAGELIMIT := 300;
     ADDLIMIT := Some 1000;
     LIFTLIMIT := Some 100;
     MINSUBSCRIBEDPROJECTS := None;
     SIMULATE := false;
     HARDLIMIT := None |}.

(** A protection dictionary as pywikibot reports it: restriction type to
    (level, expiry). *)
Abbreviation ProtectionDict := (gmap string (string * string)).

Definition UNPROTECTED : ProtectionDict := ∅.
Definition SEMIPROTECTED : ProtectionDict :=
  {[ "edit" := ("autoconfirmed", "infinity") ]}.

(** ** Outcome counters *)

Module Counter.
(** Keys of [Counter.added_protection]. *)
Module Added.
Inductive key :=
  | belowlimit
  | blacklisted
  | belowsubscribedprojects
  | itemnotexists
  | itemisredirect
  | itemhassomeprotection
  | couldntchangetosemiprotection
  | savefailed
  | successful.

#[global] Instance key_eq_dec : EqDecision key.
Proof. solve_decision. Defined.

Definition keys : list key :=
  [belowlimit; blacklisted; belowsubscribedprojects; itemnotexists;
   itemisredirect; itemhassomeprotection; couldntchangetosemiprotection;
   savefailed; successful].
End Added.

(** Keys of [Counter.removed_protection]. *)
Module Removed.
Inductive key :=
  | overlimit
  | notwhitelisted
  | itemnotexists
  | itemisredirect
  | itemisnotsemiprotected
  | couldntremoveprotection
  | savefailed
  | successful.

#[global] Instance key_eq_dec : EqDecision key.
Proof. solve_decision. Defined.

Definition keys : list key :=
  [overlimit; notwhitelisted; itemnotexists; itemisredirect;
   itemisnotsemiprotected; couldntremoveprotection; savefailed; successful].
End Removed.

(** The ['cnt'] entries of the two dictionaries, one field per key. *)
Record added_counts := mkAdded {
  cnt_belowlimit : nat;
  cnt_blacklisted : nat;
  cnt_belowsubscribedprojects : nat;
  cnt_itemnotexists : nat;
  cnt_itemisredirect : nat;
  cnt_itemhassomeprotection : nat;
  cnt_couldntchangetosemiprotection : nat;
  cnt_savefailed : nat;
  cnt_successful : nat
}.

Record removed_counts := mkRemoved {
  cnt_overlimit : nat;
  cnt_notwhitelisted : nat;
  cnt_r_itemnotexists : nat;
  cnt_r_itemisredirect : nat;
  cnt_itemisnotsemiprotected : nat;
  cnt_couldntremoveprotection : nat;
  cnt_r_savefailed : nat;
  cnt_r_successful : nat
}.

Record t := mk {
  added_protection : added_counts;
  removed_protection : removed_counts
}.

(** All counts start at zero. *)
Definition initial : t :=
  mk (mkAdded 0 0 0 0 0 0 0 0 0) (mkRemoved 0 0 0 0 0 0 0 0).

(** [Counter.added_protection[key]['cnt']]. *)
Definition added (k : Added.key) (c : t) : nat :=
  let a := added_protection c in
  match k with
  | Added.belowlimit => cnt_belowlimit a
  | Added.blacklisted => cnt_blacklisted a
  | Added.belowsubscribedprojects => cnt_belowsubscribedprojects a
  | Added.itemnotexists => cnt_itemnotexists a
  | Added.itemisredirect => cnt_itemisredirect a
  | Added.itemhassomeprotection => cnt_itemhassomeprotection a
  | Added.couldntchangetosemiprotection => cnt_couldntchangetosemiprotection a
  | Added.savefailed => cnt_savefailed a
  | Added.successful => cnt_successful a
  end.

(** [Counter.removed_protection[key]['cnt']]. *)
Definition removed (k : Removed.key) (c : t) : nat :=
  let r := removed_protection c in
  match k with
  | Removed.overlimit => cnt_overlimit r
  | Removed.notwhitelisted => cnt_notwhitelisted r
  | Removed.itemnotexists => cnt_r_itemnotexists r
  | Removed.itemisredirect => cnt_r_itemisredirect r
  | Removed.itemisnotsemiprotected => cnt_itemisnotsemiprotected r
  | Removed.couldntremoveprotection => cnt_couldntremoveprotection r
  | Removed.savefailed => cnt_r_savefailed r
  | Removed.successful => cnt_r_successful r
  end.

(** [Counter.add_protection(key)]: every key the script passes is a key
    of the dictionary, so the count goes up by one. *)
Definition add_protection (k : Added.key) (c : t) : t :=
  let '(mkAdded a1 a2 a3 a4 a5 a6 a7 a8 a9) := added_protection c in
  mk match k with
     | Added.belowlimit => mkAdded (S a1) a2 a3 a4 a5 a6 a7 a8 a9
     | Added.blacklisted => mkAdded a1 (S a2) a3 a4 a5 a6 a7 a8 a9
     | Added.belowsubscribedprojects => mkAdded a1 a2 (S a3) a4 a5 a6 a7 a8 a9
     | Added.itemnotexists => mkAdded a1 a2 a3 (S a4) a5 a6 a7 a8 a9
     | Added.itemisredirect => mkAdded a1 a2 a3 a4 (S a5) a6 a7 a8 a9
     | Added.itemhassomeprotection => mkAdded a1 a2 a3 a4 a5 (S a6) a7 a8 a9
     | Added.couldntchangetosemiprotection => mkAdded a1 a2 a3 a4 a5 a6 (S a7) a8 a9
     | Added.savefailed => mkAdded a1 a2 a3 a4 a5 a6 a7 (S a8) a9
     | Added.successful => mkAdded a1 a2 a3 a4 a5 a6 a7 a8 (S a9)
     end
     (removed_protection c).

(** [Counter.remove_protection(key)]. *)
Definition remove_protection (k : Removed.key) (c : t) : t :=
  let '(mkRemoved r1 r2 r3 r4 r5 r6 r7 r8) := removed_protection c in
  mk (added_protection c)
     match k with
     | Removed.overlimit => mkRemoved (S r1) r2 r3 r4 r5 r6 r7 r8
     | Removed.notwhitelisted => mkRemoved r1 (S r2) r3 r4 r5 r6 r7 r8
     | Removed.itemnotexists => mkRemoved r1 r2 (S r3) r4 r5 r6 r7 r8
     | Removed.itemisredirect => mkRemoved r1 r2 r3 (S r4) r5 r6 r7 r8
     | Removed.itemisnotsemiprotected => mkRemoved r1 r2 r3 r4 (S r5) r6 r7 r8
     | Removed.couldntremoveprotection => mkRemoved r1 r2 r3 r4 r5 (S r6) r7 r8
     | Removed.savefailed => mkRemoved r1 r2 r3 r4 r5 r6 (S r7) r8
     | Removed.successful => mkRemoved r1 r2 r3 r4 r5 r6 r7 (S r8)
     end.
End Counter.

(** ** The wiki, the replica database, messages and exceptions *)

(** An existing item page: whether it is a redirect and its protection. *)
Record Page := mkPage {
  isRedirectPage : bool;
  protection : ProtectionDict
}.

Inductive Reason := PROTECT_REASON | UNPROTECT_REASON.

(** One call of [q_item.protect]. *)
Record ProtectCall := mkProtectCall {
  call_title : string;
  call_reason : Reason;
  call_edit_level : string;
  call_expiry : option string
}.

(** Row of the log query in [is_whitelisted_early_protection]. *)
Record LogRow := mkLogRow {
  log_qid : string;
  log_id : Z;
  log_actorname : string
}.

(** A field of the count column of the cached CSV file, as the reader
    classifies it while enforcing [dtype int]: empty, text that is no
    integer literal (['many'], ['600.5']), or an integer literal with its
    value. *)
Inductive CountField :=
  | Missing
  | NonNumeric (text : string)
  | Numeric (n : Z).

Record CsvLine := mkCsvLine {
  field_qid : option string;
  field_count : CountField
}.

(** How the reader's second attempt at a count column ends.  A literal
    outside the range of [int64] makes the reader retry the column as
    [uint64]; whether that reads the column or raises, and what it raises,
    depends on the reader and is not decided by the script. *)
Inductive UInt64Retry :=
  | ReadAsUInt64
  | RaisesOverflowError
  | RaisesValueError.

(** What the script reads from outside and cannot change: the latest
    protect action per title in the replica database (the query has
    [LIMIT 1], so one row or none), the number of subscribed projects per
    item, the calls of the protection API that fail with [RuntimeError],
    the reader's verdict on a count column with a literal outside [int64],
    and the number of items the wiki reports.  The lookups are taken to
    answer; a protection call either succeeds or raises [RuntimeError], the
    one failure the script handles. *)
Record Env := mkEnv {
  latest_protect_action : string → option LogRow;
  get_number_of_subscribed_projects : string → Z;
  protect_raises : ProtectCall → bool;
  uint64_retry : list CsvLine → UInt64Retry;
  get_number_of_items : Z
}.

(** The figures [main] prints once the passes are through. *)
Inductive Statistic :=
  | EarlyItemProtections
  | ToplistElements
  | BlacklistedItems
  | IndefSemiprotected
  | IndefSemiprotectedHighlyUsed
  | IndefSemiprotectedOther
  | IndefSemiprotectedOtherButHighlyUsed
  | ProtectionsToAdd
  | ProtectionsToLift
  | ProtectionsInCooldown
  | ProtectionsAdded
  | ProtectionsLifted.

(** Lines the run prints: the messages of the warnings and of the success
    returns, the text of an API error, the two lines for a skipped pass,
    and the statistics at the end: a figure per line, and the line with
    the share of the toplist rows at or above the usage limit among all
    items. *)
Inductive Message :=
  | AddWarning (k : Counter.Added.key) (case : Case)
  | AddReturn (case : Case)
  | RemoveWarning (k : Counter.Removed.key) (case : Case)
  | RemoveReturn (case : Case)
  | ApiError (call : ProtectCall)
  | DoNotLift (entries : nat) (limit : Z)
  | DoNotAdd (entries : nat) (limit : Z)
  | StatisticLine (figure : Statistic) (n : nat)
  | HighlyUsedShare (limit : Z) (cnt : nat) (total : Z).

(** The Python exceptions that occur. *)
Inductive Exception :=
  | RuntimeWarning (msg : Message)
  | RuntimeError (msg : Message)
  | IndexError
  | KeyError
  | ValueError
  | OverflowError
  | ZeroDivisionError
  | TypeError.

(** A computation returns a value or raises. *)
Inductive Result (A : Type) :=
  | Return (a : A)
  | Raise (e : Exception).
Arguments Return {A} a.
Arguments Raise {A} e.

(** ** Dataset loaders *)

(** [get_indefinitely_semiprotected_items], from the rows the replica
    query returned, timestamps already read as integers.  A frame built
    from no rows at all has no [logTimestamp] column, and selecting that
    column raises [KeyError]. *)
Definition get_indefinitely_semiprotected_items
    (query_result : list Protection.row) : Result (list Protection.row) :=
  match query_result with
  | [] => Raise KeyError
  | _ =>
      Return (drop_duplicates_last Protection.qid
               (sort_values
                  (λ a b, Protection.logTimestamp a <=? Protection.logTimestamp b)
                  query_result))
  end.

(** [get_early_item_protections], from the rows of the tab-separated file
    as [read_csv] typed them. *)
Definition get_early_item_protections
    (file_rows : list Early.row) : list Early.row :=
  drop_duplicates_last Early.qid
    (sort_values (λ a b, Early.logId a <=? Early.logId b) file_rows).

Definition typed_row (line : CsvLine) : option Usage.row :=
  match field_count line with
  | Numeric n => Some (Usage.mk (field_qid line) n)
  | Missing | NonNumeric _ => None
  end.

(** The range of [int64]. *)
Definition int64_min : Z := - 2 ^ 63.
Definition int64_max : Z := 2 ^ 63 - 1.

(** A count that is an integer literal outside [int64]. *)
Definition beyond_int64 (line : CsvLine) : bool :=
  match field_count line with
  | Numeric n => (n <? int64_min) || (int64_max <? n)
  | Missing | NonNumeric _ => false
  end.

(** [get_list_of_highly_used_items_from_wdcm], from the lines of the
    cached file.  With [names] given, a file without lines reads as a
    frame without rows; [header=0] consumes the first line whatever it
    holds; [dtype int] makes the whole read fail with [ValueError] on a
    count that is missing or no integer literal.  When a literal lies
    outside [int64] the outcome is the reader's ([uint64_retry]): a column
    that was read holds every count as it is written. *)
Definition get_list_of_highly_used_items_from_wdcm
    (env : Env) (lines : list CsvLine) : Result (list Usage.row) :=
  match lines with
  | [] => Return []
  | _header :: data =>
      if existsb beyond_int64 data
      then
        match uint64_retry env data, mapM typed_row data with
        | ReadAsUInt64, Some rows => Return rows
        | RaisesOverflowError, _ => Raise OverflowError
        | _, _ => Raise ValueError
        end
      else
        match mapM typed_row data with
        | Some rows => Return rows
        | None => Raise ValueError
        end
  end.

(** What the specification describes for the same loader: rows whose count
    is missing or not numeric are left out, the others are kept. *)
Definition usage_rows_dropping_malformed (data : list CsvLine) : list Usage.row :=
  omap typed_row data.

(** ** Set classifier *)

Definition username_isin (u : option string) (admins : list string) : bool :=
  match u with
  | Some name => isin name admins
  | None => false
  end.

Definition protected_highly_used_items (cfg : Config)
    (protected : list Protection.row) (early : list Early.row)
    : list Protection.row :=
  List.filter
    (λ r, isin (Protection.qid r) (map Early.qid early)
          || username_isin (Protection.username r) (WHITELISTED_ADMINS cfg))
    protected.

Definition protected_not_highly_used_items (cfg : Config)
    (protected : list Protection.row) (early : list Early.row)
    : list Protection.row :=
  List.filter
    (λ r, negb (isin (Protection.qid r) (map Early.qid early))
          && negb (username_isin (Protection.username r) (WHITELISTED_ADMINS cfg)))
    protected.

(** [dropna] on a toplist frame: only the qid cell can be NaN. *)
Definition dropna_usage (rows : list Usage.row) : list Usage.row :=
  List.filter (λ r, bool_decide (is_Some (Usage.qid r))) rows.

(** [dropna] on a protection frame. *)
Definition dropna_protection (rows : list Protection.row) : list Protection.row :=
  List.filter
    (λ r, bool_decide (is_Some (Protection.qid r))
          && bool_decide (is_Some (Protection.username r)))
    rows.

Definition protection_missing (cfg : Config)
    (top : list Usage.row) (protected : list Protection.row) : list Usage.row :=
  sort_values
    (λ a b, Usage.entityUsageCount b <=? Usage.entityUsageCount a)
    (dropna_usage
       (List.filter
          (λ r, negb (isin (Usage.qid r) (map Protection.qid protected))
                && (ENTITYUSAGELIMIT cfg <=? Usage.entityUsageCount r))
          top)).

(** Rows of a protection frame left-merged with the toplist on qid. *)
Module Merged.
Record row := mk {
  qid : option string;
  logTimestamp : Z;
  username : option string;
  entityUsageCount : option Z
}.
End Merged.

(** [left.merge(top, on='qid', how='left')]: every left row once per
    toplist row of the same qid, in toplist order, or once with a NaN count
    when the toplist has none; left order is kept. *)
Definition merge_row (r : Protection.row) (top : list Usage.row) : list Merged.row :=
  match List.filter (λ u, bool_decide (Usage.qid u = Protection.qid r)) top with
  | [] => [Merged.mk (Protection.qid r) (Protection.logTimestamp r)
                     (Protection.username r) None]
  | matches =>
      map (λ u, Merged.mk (Protection.qid r) (Protection.logTimestamp r)
                          (Protection.username r)
                          (Some (Usage.entityUsageCount u)))
          matches
  end.

(** The rows of the merge with the counts as the toplist holds them. *)
Definition join_rows (left : list Protection.row) (top : list Usage.row)
    : list Merged.row :=
  flat_map (λ r, merge_row r top) left.

(** An integer count once its column is [float64]: the nearest number
    with a significand of 53 bits, ties to the even one. *)
Definition float64_of_int (n : Z) : Z :=
  let excess := Z.log2 (Z.abs n) - 52 in
  if excess <=? 0 then n
  else
    let unit := 2 ^ excess in
    let q := Z.abs n / unit in
    let r := Z.abs n mod unit in
    let half := unit / 2 in
    let q' := if (half <? r) || ((r =? half) && Z.odd q) then q + 1 else q in
    Z.sgn n * (q' * unit).

Definition as_float64 (m : Merged.row) : Merged.row :=
  Merged.mk (Merged.qid m) (Merged.logTimestamp m) (Merged.username m)
            (float64_of_int <$> Merged.entityUsageCount m).

(** The count column of the merged frame stays an integer column while
    every left row has a toplist row; one NaN turns the whole column into
    [float64]. *)
Definition merge_left (left : list Protection.row) (top : list Usage.row)
    : list Merged.row :=
  let rows := join_rows left top in
  if forallb (λ m, bool_decide (is_Some (Merged.entityUsageCount m))) rows
  then rows
  else map as_float64 rows.

Definition qids_with (p : Usage.row → bool) (top : list Usage.row)
    : list (option string) :=
  map Usage.qid (List.filter p top).

Definition sort_by_usage_desc (rows : list Merged.row) : list Merged.row :=
  sort_values
    (λ a b, desc_nan_last (Merged.entityUsageCount a) (Merged.entityUsageCount b))
    rows.

Definition protection_to_lift (cfg : Config)
    (top : list Usage.row) (protected : list Protection.row) : list Merged.row :=
  sort_by_usage_desc
    (merge_left
       (dropna_protection
          (List.filter
             (λ r, negb (isin (Protection.qid r)
                           (qids_with (λ u, COOLDOWNUSAGELIMIT cfg <=? Usage.entityUsageCount u) top)))
             protected))
       top).

Definition protection_in_cooldown (cfg : Config)
    (top : list Usage.row) (protected : list Protection.row) : list Merged.row :=
  sort_by_usage_desc
    (merge_left
       (dropna_protection
          (List.filter
             (λ r, isin (Protection.qid r)
                     (qids_with (λ u, Usage.entityUsageCount u <? ENTITYUSAGELIMIT cfg) top)
                   && isin (Protection.qid r)
                        (qids_with (λ u, COOLDOWNUSAGELIMIT cfg <=? Usage.entityUsageCount u) top))
             protected))
       top).

Definition protection_already_set (cfg : Config)
    (top : list Usage.row) (protected : list Protection.row) : list Protection.row :=
  List.filter
    (λ r, isin (Protection.qid r)
            (qids_with (λ u, ENTITYUSAGELIMIT cfg <=? Usage.entityUsageCount u) top))
    protected.

(** The to-add set as the specification describes it: deny-listed
    identifiers are also left out. *)
Definition toAdd_rows_of_spec (cfg : Config) (top : list Usage.row)
    (protected : list Protection.row) (blacklist : list string) : list Usage.row :=
  List.filter
    (λ r, (ENTITYUSAGELIMIT cfg <=? Usage.entityUsageCount r)
          && negb (isin (Usage.qid r) (map Protection.qid protected))
          && negb (isin (Usage.qid r) (map Some blacklist)))
    top.

(** [itertuples(index=False)] over the two candidate frames. *)
Definition itertuples_add (frame : list Usage.row) : list Case :=
  omap (λ r, q ← Usage.qid r;
             Some (mkCase q (Some (Usage.entityUsageCount r)) None))
       frame.

Definition itertuples_lift (frame : list Merged.row) : list Case :=
  omap (λ r, q ← Merged.qid r;
             Some (mkCase q (Merged.entityUsageCount r) (Merged.username r)))
       frame.

(** ** The run state *)

(** [InputVars], the figures [make_report] fills its template with.  The
    time stamp, the two URLs, the echoed configuration values and the
    percentage of the same two counts that [main] prints are left out. *)
Record InputVars := mkInputVars {
  wdcmcnt : nat;
  wdcmusagelimit : nat;
  itemcnt : Z;
  blacklistedcnt : nat;
  indefsemi : nat;
  indefsemihighlyused : nat;
  indefsemiother : nat;
  indefsemiotherbutalsohighlyused : nat;
  protectionstoadd : nat;
  protectionstolift : nat;
  cooldowncnt : nat;
  cooldownlist : list string;
  addedcnt : nat;
  liftedcnt : nat;
  additionstats : list (Counter.Added.key * nat);
  removalstats : list (Counter.Removed.key * nat)
}.

(** What [make_report] writes: the report file, and the report page of
    the wiki. *)
Inductive ReportOutput :=
  | ReportFile (input_vars : InputVars)
  | ReportPage (input_vars : InputVars).

(** Everything a run changes: the pages of the wiki (a title without a
    page does not exist), the counters, the protection calls issued, the
    titles looked up in the replica database, the number of sleeps, the
    printed lines and the reports written. *)
Record State := mkState {
  site : gmap string Page;
  counter : Counter.t;
  protect_calls : list ProtectCall;
  replica_queries : list string;
  sleeps : nat;
  stdout : list Message;
  reports : list ReportOutput
}.

(** Effect of a successful protection call on the wiki: level ['all']
    removes the edit restriction, any other level sets it. *)
Definition protect_page (call : ProtectCall) (pg : Page) : Page :=
  mkPage (isRedirectPage pg)
    (if bool_decide (call_edit_level call = "all")
     then delete "edit" (protection pg)
     else <["edit" := (call_edit_level call, default "infinity" (call_expiry call))]>
            (protection pg)).

(** ** A state and exception monad for the two operations *)

Definition M (A : Type) : Type := State → Result A * State.

Definition ret {A} (a : A) : M A := λ st, (Return a, st).
Definition raise {A} (e : Exception) : M A := λ st, (Raise e, st).
Definition bind {A B} (m : M A) (k : A → M B) : M B :=
  λ st, match m st with
        | (Return a, st') => k a st'
        | (Raise e, st') => (Raise e, st')
        end.

Notation "'let!' x ':=' m 'in' k" := (bind m (λ x, k))
  (at level 10, x name, m at level 100, k at level 200).
Notation "m '>>' k" := (bind m (λ _, k))
  (at level 100, k at level 200, right associativity).

Definition count_added (k : Counter.Added.key) : M unit :=
  λ st, (Return (),
         mkState (site st) (Counter.add_protection k (counter st))
                 (protect_calls st) (replica_queries st) (sleeps st) (stdout st) (reports st)).

Definition count_removed (k : Counter.Removed.key) : M unit :=
  λ st, (Return (),
         mkState (site st) (Counter.remove_protection k (counter st))
                 (protect_calls st) (replica_queries st) (sleeps st) (stdout st) (reports st)).

Definition sleep : M unit :=
  λ st, (Return (),
         mkState (site st) (counter st) (protect_calls st) (replica_queries st)
                 (S (sleeps st)) (stdout st) (reports st)).

(** [report_page.save] and the write of the report file. *)
Definition write_report (out : ReportOutput) (st : State) : State :=
  mkState (site st) (counter st) (protect_calls st) (replica_queries st)
          (sleeps st) (stdout st) (reports st ++ [out]).

Definition print (msg : Message) (st : State) : State :=
  mkState (site st) (counter st) (protect_calls st) (replica_queries st)
          (sleeps st) (stdout st ++ [msg]) (reports st).

(** [pwb.ItemPage(repo, qid)] with its [exists()], [isRedirectPage()] and
    [protection()], read from the wiki as it is now. *)
Definition item_page (title : string) : M (option Page) :=
  λ st, (Return (site st !! title), st).

(** [q_item.protect(...)]: the call is recorded; it either fails with
    [RuntimeError] and changes nothing, or changes the page. *)
Definition protect (env : Env) (call : ProtectCall) : M unit :=
  λ st,
    let st' := mkState (site st) (counter st) (protect_calls st ++ [call])
                       (replica_queries st) (sleeps st) (stdout st) (reports st) in
    if protect_raises env call
    then (Raise (RuntimeError (ApiError call)), st')
    else (Return (),
          mkState (alter (protect_page call) (call_title call) (site st))
                  (counter st) (protect_calls st ++ [call])
                  (replica_queries st) (sleeps st) (stdout st) (reports st)).

(** [access_replica_database(sql)] for the log query of one title. *)
Definition access_replica_database (env : Env) (title : string) : M (option LogRow) :=
  λ st, (Return (latest_protect_action env title),
         mkState (site st) (counter st) (protect_calls st)
                 (replica_queries st ++ [title]) (sleeps st) (stdout st) (reports st)).

(** [try: body / except RuntimeError as e: handler; raise e / else: ...]:
    only [RuntimeError] is handled, anything else propagates. *)
Definition try_except_RuntimeError {A B} (body : M A)
    (on_error : M unit) (on_else : M B) : M B :=
  λ st,
    match body st with
    | (Return _, st') => on_else st'
    | (Raise (RuntimeError msg), st') => (on_error >> raise (RuntimeError msg)) st'
    | (Raise e, st') => (Raise e, st')
    end.

(** ** Provenance validator *)

Definition is_whitelisted_early_protection (env : Env) (case : Case)
    (early_protection : list Early.row) : M bool :=
  if bool_decide (length early_protection ≠ 1%nat) then ret false
  else
    let! log_info := access_replica_database env (qid case) in
    match log_info, early_protection with
    | None, _ => raise IndexError
    | Some row, grant :: _ =>
        ret (bool_decide (Some (log_qid row) = Early.qid grant)
             && bool_decide (log_id row = Early.logId grant)
             && bool_decide (Some (log_actorname row) = Early.admin grant))
    | Some _, [] => raise IndexError
    end.

(** ** Protection state machine *)

Definition warn_added {A} (k : Counter.Added.key) (case : Case) : M A :=
  count_added k >> raise (RuntimeWarning (AddWarning k case)).

Definition warn_removed {A} (k : Counter.Removed.key) (case : Case) : M A :=
  count_removed k >> raise (RuntimeWarning (RemoveWarning k case)).

Definition below_subscribed_projects (cfg : Config) (env : Env) (case : Case) : bool :=
  match MINSUBSCRIBEDPROJECTS cfg with
  | Some minimum => get_number_of_subscribed_projects env (qid case) <? minimum
  | None => false
  end.

Definition add_call (case : Case) : ProtectCall :=
  mkProtectCall (qid case) PROTECT_REASON "autoconfirmed" (Some "infinity").

Definition remove_call (case : Case) : ProtectCall :=
  mkProtectCall (qid case) UNPROTECT_REASON "all" None.

Definition add_protection (cfg : Config) (env : Env) (case : Case)
    (blacklist : list string) : M Message :=
  if nan_lt (entityUsageCount case) (ENTITYUSAGELIMIT cfg)
  then warn_added Counter.Added.belowlimit case
  else if isin (qid case) blacklist
  then warn_added Counter.Added.blacklisted case
  else if below_subscribed_projects cfg env case
  then warn_added Counter.Added.belowsubscribedprojects case
  else
    let! q_item := item_page (qid case) in
    match q_item with
    | None => warn_added Counter.Added.itemnotexists case
    | Some page =>
        if isRedirectPage page
        then warn_added Counter.Added.itemisredirect case
        else
          let current_protection := protection page in
          if bool_decide (current_protection ≠ UNPROTECTED)
          then warn_added Counter.Added.itemhassomeprotection case
          else
            let current_protection :=
              <["edit" := ("autoconfirmed", "infinity")]> current_protection in
            if bool_decide (current_protection ≠ SEMIPROTECTED)
            then warn_added Counter.Added.couldntchangetosemiprotection case
            else
              try_except_RuntimeError
                ((if SIMULATE cfg then ret () else protect env (add_call case))
                 >> sleep)
                (count_added Counter.Added.savefailed)
                (count_added Counter.Added.successful >> ret (AddReturn case))
    end.

(** The second guard of [remove_protection]: [case.username not in
    Config.WHITELISTED_ADMINS and not is_whitelisted_early_protection(case,
    early_protection)], with Python's short-circuit [and]. *)
Definition not_whitelisted (cfg : Config) (env : Env) (case : Case)
    (early_protection : list Early.row) : M bool :=
  if negb (username_isin (username case) (WHITELISTED_ADMINS cfg))
  then let! whitelisted := is_whitelisted_early_protection env case early_protection in
       ret (negb whitelisted)
  else ret false.

Definition remove_protection (cfg : Config) (env : Env) (case : Case)
    (early_protection : list Early.row) : M Message :=
  if nan_ge (entityUsageCount case) (ENTITYUSAGELIMIT cfg)
  then warn_removed Counter.Removed.overlimit case
  else
    let! refused := not_whitelisted cfg env case early_protection in
    if (refused : bool)
    then warn_removed Counter.Removed.notwhitelisted case
    else
      let! q_item := item_page (qid case) in
      match q_item with
      | None => warn_removed Counter.Removed.itemnotexists case
      | Some page =>
          let current_protection := protection page in
          if bool_decide (current_protection ≠ SEMIPROTECTED)
          then warn_removed Counter.Removed.itemisnotsemiprotected case
          else
            match current_protection !! "edit" with
            | None => raise KeyError
            | Some _ =>
                let current_protection := delete "edit" current_protection in
                if bool_decide (current_protection ≠ UNPROTECTED)
                then warn_removed Counter.Removed.couldntremoveprotection case
                else
                  try_except_RuntimeError
                    ((if SIMULATE cfg then ret () else protect env (remove_call case))
                     >> sleep)
                    (count_removed Counter.Removed.savefailed)
                    (count_removed Counter.Removed.successful >> ret (RemoveReturn case))
            end
      end.

(** ** Run controller *)

(** The body of one loop iteration up to the hard-limit test:
    [RuntimeWarning] and [RuntimeError] are caught and printed, the
    returned message is printed, any other exception leaves the loop and
    [main]. *)
Definition try_print (body : M Message) : M unit :=
  λ st,
    match body st with
    | (Return msg, st') => (Return (), print msg st')
    | (Raise (RuntimeWarning msg), st') => (Return (), print msg st')
    | (Raise (RuntimeError msg), st') => (Return (), print msg st')
    | (Raise e, st') => (Raise e, st')
    end.

Definition hardlimit_reached (hardlimit : option Z) (processed : Z) : bool :=
  match hardlimit with
  | Some limit => limit <=? processed
  | None => false
  end.

(** [for processed, case in enumerate(cases, start=processed)]. *)
Fixpoint for_cases (step : Case → M Message) (hardlimit : option Z)
    (processed : Z) (cases : list Case) : M unit :=
  match cases with
  | [] => ret ()
  | case :: rest =>
      try_print (step case) >>
      if hardlimit_reached hardlimit processed then ret ()
      else for_cases step hardlimit (processed + 1) rest
  end.

(** The pass-level limit that stops a pass: [limit is None or entries <=
    limit] fails exactly when a limit is set and the frame has more rows. *)
Definition exceeded_limit (limit : option Z) (entries : nat) : option Z :=
  match limit with
  | Some l => if Z.of_nat entries <=? l then None else Some l
  | None => None
  end.

Definition early_protection_of (early_item_protections : list Early.row)
    (case : Case) : list Early.row :=
  List.filter (λ g, bool_decide (Early.qid g = Some (qid case)))
              early_item_protections.

Definition lift_pass (cfg : Config) (env : Env)
    (early_item_protections : list Early.row)
    (item_protection_to_lift : list Merged.row) : M unit :=
  match exceeded_limit (LIFTLIMIT cfg) (length item_protection_to_lift) with
  | None =>
      for_cases
        (λ case, remove_protection cfg env case
                   (early_protection_of early_item_protections case))
        (HARDLIMIT cfg) 1 (itertuples_lift item_protection_to_lift)
  | Some limit =>
      λ st, (Return (),
             print (DoNotLift (length item_protection_to_lift) limit) st)
  end.

Definition add_pass (cfg : Config) (env : Env) (blacklist : list string)
    (item_protection_to_add : list Usage.row) : M unit :=
  match exceeded_limit (ADDLIMIT cfg) (length item_protection_to_add) with
  | None =>
      for_cases (λ case, add_protection cfg env case blacklist)
        (HARDLIMIT cfg) 1 (itertuples_add item_protection_to_add)
  | Some limit =>
      λ st, (Return (),
             print (DoNotAdd (length item_protection_to_add) limit) st)
  end.

(** [main] from the loaded tables to the end of the add pass: the sets,
    the lift pass, the add pass. *)
Definition run_passes (cfg : Config) (env : Env)
    (indef_semiprotected_items : list Protection.row)
    (early_item_protections : list Early.row)
    (wdcm_toplist : list Usage.row)
    (blacklist : list string) : M unit :=
  let indef_protected_highly_used_items :=
    protected_highly_used_items cfg indef_semiprotected_items early_item_protections in
  let item_protection_to_add :=
    protection_missing cfg wdcm_toplist indef_semiprotected_items in
  let item_protection_to_lift :=
    protection_to_lift cfg wdcm_toplist indef_protected_highly_used_items in
  lift_pass cfg env early_item_protections item_protection_to_lift >>
  add_pass cfg env blacklist item_protection_to_add.

(** ** Reporting *)

(** [Counter.added_protection] and [Counter.removed_protection] as the
    dictionaries they are: the keys in the order of the class body, each
    with its ['cnt']. *)
Definition added_items (c : Counter.t) : list (Counter.Added.key * nat) :=
  map (λ k, (k, Counter.added k c)) Counter.Added.keys.

Definition removed_items (c : Counter.t) : list (Counter.Removed.key * nat) :=
  map (λ k, (k, Counter.removed k c)) Counter.Removed.keys.

(** [Counter.make_table(dct)]: the rows of the table body, one for every
    value of the dictionary with [cnt > 0], in the order of
    [dct.values()].  A row shows the ['msg'] of its key and the count; the
    fixed text around the rows is not modelled. *)
Definition make_table {K : Type} (dct : list (K * nat)) : list (K * nat) :=
  List.filter (λ value, (0 <? snd value)%nat) dct.

(** [make_report]: the test that decides whether the report is saved to
    the wiki page, [Config.SIMULATE is not True and (addedcnt > 0 or
    liftedcnt > 0)]. *)
Definition report_page_saved (cfg : Config) (addedcnt liftedcnt : nat) : bool :=
  negb (SIMULATE cfg) && ((0 <? addedcnt)%nat || (0 <? liftedcnt)%nat).

(** [make_report(input_vars)]: the filled template goes to the report
    file, and to the report page when the test above holds.  Reading the
    template, writing the file and saving the page are taken to succeed. *)
Definition make_report (cfg : Config) (input_vars : InputVars) : M unit :=
  λ st,
    let st' := write_report (ReportFile input_vars) st in
    (Return (),
     if report_page_saved cfg (addedcnt input_vars) (liftedcnt input_vars)
     then write_report (ReportPage input_vars) st'
     else st').

(** The toplist rows at or above the usage limit. *)
Definition highly_used_rows (cfg : Config) (top : list Usage.row) : list Usage.row :=
  List.filter (λ r, ENTITYUSAGELIMIT cfg <=? Usage.entityUsageCount r) top.

(** The lines [main] prints after the passes.  The third line divides by
    the number of items, so a wiki that reports none ends the run with
    [ZeroDivisionError] after two lines. *)
Definition print_statistics (cfg : Config) (env : Env)
    (indef : list Protection.row) (early : list Early.row)
    (top : list Usage.row) (blacklist : list string) : M unit :=
  λ st,
    let trusted := protected_highly_used_items cfg indef early in
    let untrusted := protected_not_highly_used_items cfg indef early in
    let st2 :=
      print (StatisticLine ToplistElements (length top))
        (print (StatisticLine EarlyItemProtections (length early)) st) in
    if get_number_of_items env =? 0 then (Raise ZeroDivisionError, st2)
    else
      (Return (),
       foldl (λ acc msg, print msg acc) st2
         [ HighlyUsedShare (ENTITYUSAGELIMIT cfg) (length (highly_used_rows cfg top))
                           (get_number_of_items env);
           StatisticLine BlacklistedItems (length blacklist);
           StatisticLine IndefSemiprotected (length indef);
           StatisticLine IndefSemiprotectedHighlyUsed (length trusted);
           StatisticLine IndefSemiprotectedOther (length untrusted);
           StatisticLine IndefSemiprotectedOtherButHighlyUsed
             (length (protection_already_set cfg top untrusted));
           StatisticLine ProtectionsToAdd (length (protection_missing cfg top indef));
           StatisticLine ProtectionsToLift
             (length (protection_to_lift cfg top trusted));
           StatisticLine ProtectionsInCooldown
             (length (protection_in_cooldown cfg top trusted));
           StatisticLine ProtectionsAdded
             (Counter.added Counter.Added.successful (counter st));
           StatisticLine ProtectionsLifted
             (Counter.removed Counter.Removed.successful (counter st)) ]).

(** The qids of the cooldown frame as ['{{Q|' + '}}, {{Q|'.join(...)]
    takes them: the join raises [TypeError] on a qid that is no string,
    read here as no list. *)
Definition cooldown_qids (cfg : Config) (indef : list Protection.row)
    (early : list Early.row) (top : list Usage.row) : option (list string) :=
  mapM Merged.qid
       (protection_in_cooldown cfg top (protected_highly_used_items cfg indef early)).

(** The argument of the call of [make_report] at the end of [main]. *)
Definition input_vars_of (cfg : Config) (env : Env)
    (indef : list Protection.row) (early : list Early.row)
    (top : list Usage.row) (blacklist : list string) (qids : list string)
    (c : Counter.t) : InputVars :=
  let trusted := protected_highly_used_items cfg indef early in
  let untrusted := protected_not_highly_used_items cfg indef early in
  let cooldown := protection_in_cooldown cfg top trusted in
  {| wdcmcnt := length top;
     wdcmusagelimit := length (highly_used_rows cfg top);
     itemcnt := get_number_of_items env;
     blacklistedcnt := length blacklist;
     indefsemi := length indef;
     indefsemihighlyused := length trusted;
     indefsemiother := length untrusted;
     indefsemiotherbutalsohighlyused :=
       length (protection_already_set cfg top untrusted);
     protectionstoadd := length (protection_missing cfg top indef);
     protectionstolift := length (protection_to_lift cfg top trusted);
     cooldowncnt := length cooldown;
     cooldownlist := qids;
     addedcnt := Counter.added Counter.Added.successful c;
     liftedcnt := Counter.removed Counter.Removed.successful c;
     additionstats := make_table (added_items c);
     removalstats := make_table (removed_items c) |}.

(** The end of [main]: reporting to the terminal and to the wiki page.
    The argument of [make_report] is built before the call, so a cooldown
    qid that is no string ends the run after the statistics and before
    anything is written. *)
Definition report (cfg : Config) (env : Env)
    (indef : list Protection.row) (early : list Early.row)
    (top : list Usage.row) (blacklist : list string) : M unit :=
  print_statistics cfg env indef early top blacklist >>
  λ st, match cooldown_qids cfg indef early top with
        | Some qids =>
            make_report cfg
              (input_vars_of cfg env indef early top blacklist qids (counter st)) st
        | None => (Raise TypeError, st)
        end.

Definition load {A} (r : Result A) : M A := λ st, (r, st).

(** [main]: the tables are loaded, the deny list and the number of items
    are read (both taken from outside), the two passes run, the
    statistics are printed and the report is made. *)
Definition main (cfg : Config) (env : Env)
    (query_result : list Protection.row) (file_rows : list Early.row)
    (lines : list CsvLine) (blacklist : list string) : M unit :=
  let! indef_semiprotected_items :=
    load (get_indefinitely_semiprotected_items query_result) in
  let early_item_protections := get_early_item_protections file_rows in
  let! wdcm_toplist := load (get_list_of_highly_used_items_from_wdcm env lines) in
  run_passes cfg env indef_semiprotected_items early_item_protections
             wdcm_toplist blacklist >>
  report cfg env indef_semiprotected_items early_item_protections
         wdcm_toplist blacklist.

(** The state a run starts from, given the wiki. *)
Definition initial_state (wiki : gmap string Page) : State :=
  mkState wiki Counter.initial [] [] 0 [] [].

(** ** Properties stated about tables *)

(** [table] holds, for every key of [raw], exactly one row, and that row
    is a row of [raw] whose [stamp] no row of [raw] with the same key
    exceeds. *)
Definition latest_per_key {A K : Type} (key : A → K) (stamp : A → Z)
    (raw table : list A) : Prop :=
  NoDup (map key table)
  ∧ (∀ r, In r table → In r raw)
  ∧ (∀ r, In r raw → ∃ r', In r' table ∧ key r' = key r ∧ stamp r ≤ stamp r').

(** A line of the cached file whose count is missing or not numeric. *)
Definition malformed (line : CsvLine) : Prop :=
  field_count line = Missing ∨ ∃ text, field_count line = NonNumeric text.

(** A typed row carries the qid and the count of its line unchanged. *)
Definition typed_from (line : CsvLine) (r : Usage.row) : Prop :=
  Usage.qid r = field_qid line ∧ field_count line = Numeric (Usage.entityUsageCount r).

(** A usage row that [protection_missing] is meant to keep: it has a qid,
    its count reaches the limit and its qid is in no protection row. *)
Definition eligible_for_add (cfg : Config) (protected : list Protection.row)
    (r : Usage.row) : bool :=
  bool_decide (is_Some (Usage.qid r))
  && (ENTITYUSAGELIMIT cfg <=? Usage.entityUsageCount r)
  && negb (isin (Usage.qid r) (map Protection.qid protected)).

(** ** Properties stated about the two operations *)

(** The state after a computation. *)
Definition exec {A} (m : M A) (st : State) : State := snd (m st).

(** The first guard of a list that does not hold; a guard is an outcome
    key with the truth value of its precondition. *)
Definition first_failing {K : Type} (guards : list (K * bool)) : option K :=
  fst <$> List.find (λ g, negb (snd g)) guards.

(** The preconditions of Add in the order the specification lists them,
    the first one given as [usage_ok]: usage at least the usage limit, not
    deny-listed, enough subscribed projects when a minimum is configured,
    the item exists, it is no redirect, its protection is exactly the
    unprotected shape. *)
Definition add_guards_from (usage_ok : bool) (cfg : Config) (env : Env)
    (case : Case) (blacklist : list string) (st : State)
    : list (Counter.Added.key * bool) :=
  let q_item := site st !! qid case in
  [ (Counter.Added.belowlimit, usage_ok);
    (Counter.Added.blacklisted,
       negb (isin (qid case) blacklist));
    (Counter.Added.belowsubscribedprojects,
       match MINSUBSCRIBEDPROJECTS cfg with
       | Some minimum => minimum <=? get_number_of_subscribed_projects env (qid case)
       | None => true
       end);
    (Counter.Added.itemnotexists,
       bool_decide (is_Some q_item));
    (Counter.Added.itemisredirect,
       bool_decide (isRedirectPage <$> q_item ≠ Some true));
    (Counter.Added.itemhassomeprotection,
       bool_decide (protection <$> q_item = Some UNPROTECTED)) ].

Definition add_guards (cfg : Config) (env : Env) (case : Case)
    (blacklist : list string) (st : State) : list (Counter.Added.key * bool) :=
  add_guards_from (nan_ge (entityUsageCount case) (ENTITYUSAGELIMIT cfg))
                  cfg env case blacklist st.

(** The state after a protection call that succeeded or failed. *)
Definition after_protect (env : Env) (call : ProtectCall) (st : State) : State :=
  exec (protect env call) st.

(** The same configuration with the simulate flag set to [b]. *)
Definition with_simulate (b : bool) (cfg : Config) : Config :=
  mkConfig (WHITELISTED_ADMINS cfg) (ENTITYUSAGELIMIT cfg) (COOLDOWNUSAGELIMIT cfg)
           (ADDLIMIT cfg) (LIFTLIMIT cfg) (MINSUBSCRIBEDPROJECTS cfg) b (HARDLIMIT cfg).

(** A grant row and a log row agree on identifier, sequence number and
    actor name. *)
Definition log_matches_grant (row : LogRow) (grant : Early.row) : Prop :=
  Some (log_qid row) = Early.qid grant
  ∧ log_id row = Early.logId grant
  ∧ Some (log_actorname row) = Early.admin grant.

(** The key [add_protection] counts for a case. *)
Definition add_outcome (cfg : Config) (env : Env) (case : Case)
    (blacklist : list string) (st : State) : Counter.Added.key :=
  match first_failing
          (add_guards_from (negb (nan_lt (entityUsageCount case) (ENTITYUSAGELIMIT cfg)))
                           cfg env case blacklist st) with
  | Some k => k
  | None =>
      if negb (SIMULATE cfg) && protect_raises env (add_call case)
      then Counter.Added.savefailed
      else Counter.Added.successful
  end.

(** Remove past its authorization guard: the item exists, its protection
    is exactly the semiprotected shape, then the call and its count. *)
Definition remove_authorized (cfg : Config) (env : Env) (case : Case)
    (st : State) : Result Message * State :=
  match protection <$> site st !! qid case with
  | None =>
      (Raise (RuntimeWarning (RemoveWarning Counter.Removed.itemnotexists case)),
       exec (count_removed Counter.Removed.itemnotexists) st)
  | Some current_protection =>
      if bool_decide (current_protection = SEMIPROTECTED)
      then
        if SIMULATE cfg
        then (Return (RemoveReturn case),
              exec (count_removed Counter.Removed.successful) (exec sleep st))
        else if protect_raises env (remove_call case)
        then (Raise (RuntimeError (ApiError (remove_call case))),
              exec (count_removed Counter.Removed.savefailed)
                   (after_protect env (remove_call case) st))
        else (Return (RemoveReturn case),
              exec (count_removed Counter.Removed.successful)
                   (exec sleep (after_protect env (remove_call case) st)))
      else
        (Raise (RuntimeWarning
                  (RemoveWarning Counter.Removed.itemisnotsemiprotected case)),
         exec (count_removed Counter.Removed.itemisnotsemiprotected) st)
  end.

(** The outcome of a lift case once printed: counted under a key other
    than the failed post-check and the redirect, and caught by the loop. *)
Definition counted_removal (st : State) (r : Result Message * State) : Prop :=
  ∃ k, k ≠ Counter.Removed.couldntremoveprotection
       ∧ k ≠ Counter.Removed.itemisredirect
       ∧ counter (snd r) = Counter.remove_protection k (counter st)
       ∧ fst (try_print (λ _, r) st) = Return ().

(** The three counters no path increments stay at zero through a run. *)
Definition unreachable_counts_zero (st : State) : Prop :=
  Counter.added Counter.Added.couldntchangetosemiprotection (counter st) = 0%nat
  ∧ Counter.removed Counter.Removed.couldntremoveprotection (counter st) = 0%nat
  ∧ Counter.removed Counter.Removed.itemisredirect (counter st) = 0%nat.

(** ** Properties stated about the passes *)

(** The candidates a pass handles under the hard limit: all of them when
    none is set, else those up to the first whose position, counted from
    one, reaches the limit. *)
Definition capped (hardlimit : option Z) (cases : list Case) : list Case :=
  match hardlimit with
  | Some limit => firstn (Z.to_nat (Z.max 1 limit)) cases
  | None => cases
  end.

(** The loop body for each case in turn, in list order. *)
Definition process_in_order (step : Case → M Message) (cases : list Case) : M unit :=
  foldr (λ case rest, try_print (step case) >> rest) (ret ()) cases.

Definition remove_step (cfg : Config) (env : Env)
    (early_item_protections : list Early.row) (case : Case) : M Message :=
  remove_protection cfg env case (early_protection_of early_item_protections case).

Definition add_step (cfg : Config) (env : Env) (blacklist : list string)
    (case : Case) : M Message :=
  add_protection cfg env case blacklist.

(** The limit is unset or the frame has at most that many rows. *)
Definition limit_allows (limit : option Z) (entries : nat) : Prop :=
  ∀ l, limit = Some l → Z.of_nat entries ≤ l.

(** ** Properties stated about simulate mode *)

(** Two states report the same: equal counters, equal printed lines and
    equal replica queries. *)
Definition same_report (s r : State) : Prop :=
  counter s = counter r
  ∧ stdout s = stdout r
  ∧ replica_queries s = replica_queries r.

(** A simulated step [step_s] and a real step [step_r] go together: from
    states that report the same and agree on the page of the case, they
    end with the same result and the same report, the simulated one
    leaves the wiki and the call list alone, the real one leaves every
    other page alone. *)
Definition simulates (step_s step_r : Case → M Message) : Prop :=
  ∀ case s r,
    same_report s r →
    site s !! qid case = site r !! qid case →
    fst (step_s case s) = fst (step_r case r)
    ∧ same_report (snd (step_s case s)) (snd (step_r case r))
    ∧ site (snd (step_s case s)) = site s
    ∧ (∀ q, q ≠ qid case → site (snd (step_r case r)) !! q = site r !! q).

(** ** Inputs used in the examples *)

(** A toplist file with a header line, one good row, one row whose count
    is text and one row whose count is missing. *)
Definition toplist_with_malformed_counts : list CsvLine :=
  [ mkCsvLine (Some "qid") (NonNumeric "entityUsageCount");
    mkCsvLine (Some "Q5") (Numeric 600);
    mkCsvLine (Some "Q42") (NonNumeric "many");
    mkCsvLine (Some "Q64") Missing ].

(** The sandbox item: highly used, unprotected and on the deny-list. *)
Definition sandbox_toplist : list Usage.row := [Usage.mk (Some "Q4115189") 900].
Definition sandbox_blacklist : list string := ["Q4115189"].

(** A wiki with one unprotected item, one item that is a redirect and one
    semiprotected item. *)
Definition small_wiki : gmap string Page :=
  {[ "Q5" := mkPage false UNPROTECTED;
     "Q7" := mkPage true UNPROTECTED;
     "Q9" := mkPage false SEMIPROTECTED ]}.

(** An environment in which no item has a protect action logged, no item
    has a subscribed project and every protection call succeeds. *)
Definition quiet_env : Env :=
  mkEnv (λ _, None) (λ _, 0) (λ _, false) (λ _, RaisesOverflowError) 100000000.

(** A lift case of an administrator who is not on the list, the grant
    recorded for its item and an environment whose log agrees with it. *)
Definition early_case : Case := mkCase "Q9" (Some 120) (Some "Admin").
Definition early_grant : Early.row := Early.mk (Some "Q9") 4711 (Some "Admin").
Definition logged_env : Env :=
  mkEnv (λ title, Some (mkLogRow title 4711 "Admin")) (λ _, 0) (λ _, false)
        (λ _, RaisesOverflowError) 100000000.

(** A lift case of the bot's own protection on an item that has become a
    redirect, and the wiki holding it. *)
Definition redirect_case : Case := mkCase "Q11" (Some 10) (Some "MsynABot").
Definition redirect_wiki : gmap string Page :=
  {[ "Q11" := mkPage true SEMIPROTECTED ]}.

(** The shipped configuration with an add limit of one row and a hard
    limit of two cases, and a toplist of three highly used items. *)
Definition tight_config : Config :=
  mkConfig ["MsynABot"] 500 300 (Some 1) (Some 100) None false (Some 2).
Definition three_candidates : list Usage.row :=
  [Usage.mk (Some "Q5") 600; Usage.mk (Some "Q7") 900; Usage.mk (Some "Q8") 700].

(** Room under both pass-level limits and a hard limit of two cases. *)
Definition roomy_config : Config :=
  mkConfig ["MsynABot"] 500 300 (Some 1000) (Some 100) None false (Some 2).

(** An environment in which every protection call fails. *)
Definition failing_env : Env :=
  mkEnv (λ _, None) (λ _, 0) (λ _, true) (λ _, RaisesOverflowError) 100000000.

(** The inputs of a small run: one item protected by the bot, a toplist
    file with a header and one highly used item. *)
Definition protected_by_bot : list Protection.row :=
  [Protection.mk (Some "Q9") 20230914120000 (Some "MsynABot")].
Definition toplist_file : list CsvLine :=
  [ mkCsvLine (Some "qid") (NonNumeric "entityUsageCount");
    mkCsvLine (Some "Q5") (Numeric 600) ].

(** ** A worked run *)

(** Raw protection rows with three log entries for Q1. *)
Definition raw_protection_rows : list Protection.row :=
  [ Protection.mk (Some "Q1") 10 (Some "A");
    Protection.mk (Some "Q1") 30 (Some "B");
    Protection.mk (Some "Q2") 5 (Some "C");
    Protection.mk (Some "Q1") 20 (Some "D") ].

(** A toplist and a protection table covering the bands of the policy: W
    and X are highly used and unprotected, Z sits in the cooldown band, Y
    has dropped below it, V is absent from the toplist, U was protected by
    somebody else. *)
Definition policy_toplist : list Usage.row :=
  [ Usage.mk (Some "Z") 350; Usage.mk (Some "Y") 100;
    Usage.mk (Some "X") 600; Usage.mk (Some "W") 900 ].
Definition policy_protections : list Protection.row :=
  [ Protection.mk (Some "Z") 1 (Some "MsynABot");
    Protection.mk (Some "Y") 2 (Some "MsynABot");
    Protection.mk (Some "V") 3 (Some "MsynABot");
    Protection.mk (Some "U") 4 (Some "Someone") ].
Definition policy_wiki : gmap string Page :=
  {[ "X" := mkPage false UNPROTECTED;
     "W" := mkPage false UNPROTECTED;
     "Y" := mkPage false SEMIPROTECTED;
     "Z" := mkPage false SEMIPROTECTED;
     "V" := mkPage false SEMIPROTECTED;
     "U" := mkPage false SEMIPROTECTED ]}.

(** The shipped configuration with a hard limit of zero cases. *)
Definition zero_hardlimit_config : Config :=
  mkConfig ["MsynABot"] 500 300 (Some 1000) (Some 100) None false (Some 0).

(** ** Properties stated about the other sets *)

(** Order of two cells of a frame sorted descending with NaN last. *)
Definition usage_desc (a b : option Z) : Prop :=
  match a, b with
  | Some x, Some y => y ≤ x
  | _, None => True
  | None, Some _ => False
  end.

(** A toplist in which Q1 occurs twice, below the cooldown limit and above
    the usage limit, and the protection of Q1 by the bot. *)
Definition twofold_toplist : list Usage.row :=
  [Usage.mk (Some "Q1") 100; Usage.mk (Some "Q1") 900].
Definition twofold_protections : list Protection.row :=
  [Protection.mk (Some "Q1") 1 (Some "MsynABot")].

(** ** Properties stated about whole runs *)

(** The sum of the counts of a counter dictionary. *)
Definition counts_total {K : Type} (dct : list (K * nat)) : nat :=
  sum_list (map snd dct).

(** A printed line that reports a handled case, as opposed to the line of
    a skipped pass. *)
Definition is_case_line (msg : Message) : bool :=
  match msg with
  | DoNotLift _ _ | DoNotAdd _ _ | StatisticLine _ _ | HighlyUsedShare _ _ _ => false
  | _ => true
  end.

(** The frames and cases of a run, as [main] computes them. *)
Definition to_lift_of (cfg : Config) (indef : list Protection.row)
    (early : list Early.row) (top : list Usage.row) : list Merged.row :=
  protection_to_lift cfg top (protected_highly_used_items cfg indef early).

Definition lift_cases_of (cfg : Config) (indef : list Protection.row)
    (early : list Early.row) (top : list Usage.row) : list Case :=
  itertuples_lift (to_lift_of cfg indef early top).

Definition add_cases_of (cfg : Config) (indef : list Protection.row)
    (top : list Usage.row) : list Case :=
  itertuples_add (protection_missing cfg top indef).

(** A protection call a run may issue, given its tables: a protecting
    call sets the level autoconfirmed without expiry on an item that is
    not deny-listed, has a toplist row with a count of at least the usage
    limit and has no row in the protection table; an unprotecting call
    names an item whose protection row is trusted and none of whose
    toplist rows has a count of at least the cooldown limit. *)
Definition call_within_policy (cfg : Config) (indef : list Protection.row)
    (early : list Early.row) (top : list Usage.row) (blacklist : list string)
    (call : ProtectCall) : Prop :=
  match call_reason call with
  | PROTECT_REASON =>
      call_edit_level call = "autoconfirmed"
      ∧ call_expiry call = Some "infinity"
      ∧ ¬ In (call_title call) blacklist
      ∧ (∃ u, In (Usage.mk (Some (call_title call)) u) top ∧ ENTITYUSAGELIMIT cfg ≤ u)
      ∧ ¬ In (Some (call_title call)) (map Protection.qid indef)
  | UNPROTECT_REASON =>
      call_edit_level call = "all"
      ∧ (∃ r, In r (protected_highly_used_items cfg indef early)
              ∧ Protection.qid r = Some (call_title call))
      ∧ (∀ u, In (Usage.mk (Some (call_title call)) u) top → u < COOLDOWNUSAGELIMIT cfg)
  end.

(** The protection calls of a list that did not raise. *)
Definition calls_done (env : Env) (calls : list ProtectCall) : list ProtectCall :=
  List.filter (λ call, negb (protect_raises env call)) calls.

Definition calls_failed (env : Env) (calls : list ProtectCall) : list ProtectCall :=
  List.filter (λ call, protect_raises env call) calls.

(** What the statistics and the report leave as it was: everything but
    the printed lines that are no case lines and the reports written. *)
Definition left_by_report (st st' : State) : Prop :=
  site st' = site st
  ∧ counter st' = counter st
  ∧ protect_calls st' = protect_calls st
  ∧ replica_queries st' = replica_queries st
  ∧ sleeps st' = sleeps st
  ∧ List.filter is_case_line (stdout st') = List.filter is_case_line (stdout st).

(** The books of a run balance: one case line per count, one sleep per
    success, no call in simulate mode and otherwise one call per success
    and per failed save. *)
Definition accounts_balance (cfg : Config) (env : Env) (st : State) : Prop :=
  length (List.filter is_case_line (stdout st))
  = (counts_total (added_items (counter st))
     + counts_total (removed_items (counter st)))%nat
  ∧ sleeps st
    = (Counter.added Counter.Added.successful (counter st)
       + Counter.removed Counter.Removed.successful (counter st))%nat
  ∧ (if SIMULATE cfg
     then protect_calls st = []
     else length (calls_done env (protect_calls st))
          = (Counter.added Counter.Added.successful (counter st)
             + Counter.removed Counter.Removed.successful (counter st))%nat
          ∧ length (calls_failed env (protect_calls st))
            = (Counter.added Counter.Added.savefailed (counter st)
               + Counter.removed Counter.Removed.savefailed (counter st))%nat).

(** A configuration whose cooldown limit lies above its usage limit. *)
Definition inverted_config : Config :=
  mkConfig ["MsynABot"] 500 600 (Some 1000) (Some 100) None false None.

(** A configuration whose two limits lie beyond 2^53, a toplist with an
    item one below them, and the bot's protections of that item and of an
    item the toplist does not list. *)
Definition beyond_float_config : Config :=
  mkConfig ["MsynABot"] 9007199254740996 9007199254740996 (Some 1000) (Some 100)
           None false None.
Definition beyond_float_toplist : list Usage.row :=
  [Usage.mk (Some "Q9") 9007199254740995].
Definition beyond_float_protections : list Protection.row :=
  [ Protection.mk (Some "Q9") 1 (Some "MsynABot");
    Protection.mk (Some "Q8") 2 (Some "MsynABot") ].

(** ** Cases that end a run *)

(** A lift case on which [is_whitelisted_early_protection] indexes an
    empty log result: the usage guard passes, the administrator is not
    whitelisted, the file has exactly one grant for the item and the log
    query returns no row. *)
Definition index_error_case (cfg : Config) (env : Env) (early : list Early.row)
    (case : Case) : bool :=
  negb (nan_ge (entityUsageCount case) (ENTITYUSAGELIMIT cfg))
  && negb (username_isin (username case) (WHITELISTED_ADMINS cfg))
  && bool_decide (length (early_protection_of early case) = 1%nat)
  && bool_decide (latest_protect_action env (qid case) = None).

(** The cases a loop reaches before the first one that ends it. *)
Fixpoint before_crash (crash : Case → bool) (cases : list Case) : list Case :=
  match cases with
  | [] => []
  | case :: rest => if crash case then [] else case :: before_crash crash rest
  end.

(** The cases the lift loop iterates over: none when the pass-level limit
    stops the pass, else the cases up to the hard limit. *)
Definition lift_handled (cfg : Config) (indef : list Protection.row)
    (early : list Early.row) (top : list Usage.row) : list Case :=
  match exceeded_limit (LIFTLIMIT cfg) (length (to_lift_of cfg indef early top)) with
  | Some _ => []
  | None => capped (HARDLIMIT cfg) (lift_cases_of cfg indef early top)
  end.

Definition add_handled (cfg : Config) (indef : list Protection.row)
    (top : list Usage.row) : list Case :=
  match exceeded_limit (ADDLIMIT cfg) (length (protection_missing cfg top indef)) with
  | Some _ => []
  | None => capped (HARDLIMIT cfg) (add_cases_of cfg indef top)
  end.

(** The line a pass prints instead of handling cases, if any. *)
Definition lift_note (cfg : Config) (indef : list Protection.row)
    (early : list Early.row) (top : list Usage.row) (st : State) : State :=
  match exceeded_limit (LIFTLIMIT cfg) (length (to_lift_of cfg indef early top)) with
  | Some limit => print (DoNotLift (length (to_lift_of cfg indef early top)) limit) st
  | None => st
  end.

Definition add_note (cfg : Config) (indef : list Protection.row)
    (top : list Usage.row) (st : State) : State :=
  match exceeded_limit (ADDLIMIT cfg) (length (protection_missing cfg top indef)) with
  | Some limit => print (DoNotAdd (length (protection_missing cfg top indef)) limit) st
  | None => st
  end.

(** How a run ends: normally, or with the exception that leaves [main]. *)
Definition main_exit (cfg : Config) (env : Env)
    (query_result : list Protection.row) (file_rows : list Early.row)
    (lines : list CsvLine) (blacklist : list string) (wiki : gmap string Page)
    : Result unit :=
  fst (main cfg env query_result file_rows lines blacklist (initial_state wiki)).

(** ** Repeated runs *)

(** The item exists, is no redirect and has exactly the unprotected
    shape: the state in which [add_protection] reaches its call. *)
Definition unprotected_item (wiki : gmap string Page) (q : string) : bool :=
  match wiki !! q with
  | Some page => negb (isRedirectPage page) && bool_decide (protection page = UNPROTECTED)
  | None => false
  end.

(** The item exists and has exactly the semiprotected shape: the state in
    which [remove_protection] reaches its call. *)
Definition semiprotected_item (wiki : gmap string Page) (q : string) : bool :=
  bool_decide (protection <$> wiki !! q = Some SEMIPROTECTED).

(** The second guard of [remove_protection] lets the case pass. *)
Definition lift_authorized (cfg : Config) (env : Env) (early : list Early.row)
    (case : Case) : bool :=
  username_isin (username case) (WHITELISTED_ADMINS cfg)
  || match early_protection_of early case with
     | [grant] =>
         match latest_protect_action env (qid case) with
         | Some row => bool_decide (log_matches_grant row grant)
         | None => false
         end
     | _ => false
     end.

(** A case on which [add_protection], not simulated, changes the wiki:
    every guard passes on [wiki] and the call does not raise. *)
Definition can_add (cfg : Config) (env : Env) (blacklist : list string)
    (case : Case) (wiki : gmap string Page) : bool :=
  negb (nan_lt (entityUsageCount case) (ENTITYUSAGELIMIT cfg))
  && negb (isin (qid case) blacklist)
  && negb (below_subscribed_projects cfg env case)
  && unprotected_item wiki (qid case)
  && negb (protect_raises env (add_call case)).

(** A case on which [remove_protection], not simulated, changes the wiki. *)
Definition can_lift (cfg : Config) (env : Env) (early : list Early.row)
    (case : Case) (wiki : gmap string Page) : bool :=
  negb (nan_ge (entityUsageCount case) (ENTITYUSAGELIMIT cfg))
  && lift_authorized cfg env early case
  && semiprotected_item wiki (qid case)
  && negb (protect_raises env (remove_call case)).

(** What a step that changes nothing on the wiki leaves as it was: the
    pages, the two success counts and the number of sleeps. *)
Definition same_outcome (st st' : State) : Prop :=
  site st' = site st
  ∧ Counter.added Counter.Added.successful (counter st')
    = Counter.added Counter.Added.successful (counter st)
  ∧ Counter.removed Counter.Removed.successful (counter st')
    = Counter.removed Counter.Removed.successful (counter st)
  ∧ sleeps st' = sleeps st.

(** A protection table whose one row names an administrator who is not
    whitelisted. *)
Definition protected_by_admin : list Protection.row :=
  [Protection.mk (Some "Q9") 20230914120000 (Some "Admin")].

(** A run whose lift pass lifts the bot's protection of Q9 and then meets
    Q11, protected by an administrator who is not on the list, with one
    grant row and no protect action in the log. *)
Definition crash_after_lift_protections : list Protection.row :=
  [ Protection.mk (Some "Q9") 20230914120000 (Some "MsynABot");
    Protection.mk (Some "Q11") 20230914120001 (Some "Admin") ].
Definition crash_after_lift_grants : list Early.row :=
  [Early.mk (Some "Q11") 4711 (Some "Admin")].
Definition crash_after_lift_file : list CsvLine :=
  [ mkCsvLine (Some "qid") (NonNumeric "entityUsageCount");
    mkCsvLine (Some "Q9") (Numeric 120) ].

(** An environment like [quiet_env] in which the wiki reports no item. *)
Definition no_items_env : Env :=
  mkEnv (λ _, None) (λ _, 0) (λ _, false) (λ _, RaisesOverflowError) 0.

(** ** Properties stated about handled cases *)



(** The lines that report the outcome of an add case and of a lift case:
    the warning of a guard, the message of success, or the error of the
    protection call. *)
Definition add_line (case : Case) (msg : Message) : Prop :=
  (∃ k, msg = AddWarning k case)
  ∨ msg = AddReturn case
  ∨ msg = ApiError (add_call case).

Definition lift_line (case : Case) (msg : Message) : Prop :=
  (∃ k, msg = RemoveWarning k case)
  ∨ msg = RemoveReturn case
  ∨ msg = ApiError (remove_call case).

(** Descending order of usage count between cases, cases without a count
    last. *)
Definition usage_order (a b : Case) : Prop :=
  usage_desc (entityUsageCount a) (entityUsageCount b).

(** [reported] are the first of [candidates], in descending order of
    usage, and no candidate left out has a higher count than one of them. *)
Definition most_used_first (reported candidates : list Case) : Prop :=
  StronglySorted usage_order reported
  ∧ ∃ rest, candidates = (reported ++ rest)%list
            ∧ ∀ a b, In a reported → In b rest → usage_order a b.

(** * Facts about the frame operations *)

Section frame_facts.
Context {A : Type} (le : A → A → bool).

Lemma insert_sorted_Permutation x l :
  Permutation (insert_sorted le x l) (x :: l).
Proof.
  induction l as [|y t IH]; simpl; [done|].
  destruct (le x y); [done|].
  rewrite IH. apply perm_swap.
Qed.

Lemma sort_values_Permutation l : Permutation (sort_values le l) l.
Proof.
  induction l as [|x t IH]; simpl; [done|].
  rewrite insert_sorted_Permutation. by constructor.
Qed.

Lemma sort_values_In x l : In x (sort_values le l) ↔ In x l.
Proof.
  split; apply Permutation_in;
    [apply sort_values_Permutation | symmetry; apply sort_values_Permutation].
Qed.

Lemma sort_values_length l : length (sort_values le l) = length l.
Proof. apply Permutation_length, sort_values_Permutation. Qed.

Hypothesis le_total : ∀ x y, le x y = false → le y x = true.

Lemma insert_sorted_Sorted x l :
  Sorted (λ a b, le a b = true) l →
  Sorted (λ a b, le a b = true) (insert_sorted le x l).
Proof.
  induction 1 as [|y t Hs IH Hhd]; simpl.
  - repeat constructor.
  - destruct (le x y) eqn:Hxy.
    + constructor; [by constructor | by constructor].
    + constructor; [exact IH|].
      destruct Hhd as [|z t' Hyz]; simpl.
      * constructor. by apply le_total.
      * destruct (le x z); constructor; [by apply le_total | done].
Qed.

Lemma sort_values_Sorted l : Sorted (λ a b, le a b = true) (sort_values le l).
Proof.
  induction l as [|x t IH]; simpl; [constructor|].
  by apply insert_sorted_Sorted.
Qed.

Hypothesis le_trans : ∀ x y z, le x y = true → le y z = true → le x z = true.

Lemma sort_values_StronglySorted l :
  StronglySorted (λ a b, le a b = true) (sort_values le l).
Proof.
  apply Sorted_StronglySorted; [|apply sort_values_Sorted].
  intros x y z. apply le_trans.
Qed.
End frame_facts.

Section drop_duplicates_facts.
Context {A K : Type} `{EqDecision K} (key : A → K).

Lemma drop_duplicates_last_In x l :
  In x (drop_duplicates_last key l) → In x l.
Proof.
  induction l as [|y t IH]; simpl; [done|].
  destruct (existsb _ t); simpl; intuition.
Qed.

Lemma drop_duplicates_last_NoDup l :
  NoDup (map key (drop_duplicates_last key l)).
Proof.
  induction l as [|y t IH]; simpl; [constructor|].
  destruct (existsb _ t) eqn:Hex; [done|].
  simpl. constructor; [|done].
  intros Hin. apply list_elem_of_In, in_map_iff in Hin as (z & Hk & Hz).
  apply drop_duplicates_last_In in Hz.
  assert (existsb (λ y0, bool_decide (key y0 = key y)) t = true) as Ht.
  { apply existsb_exists. exists z. split; [done|]. by apply bool_decide_eq_true. }
  congruence.
Qed.

(** In a frame sorted by [R], the surviving row of a key is at least as
    late as every row of that key. *)
Lemma drop_duplicates_last_latest (R : A → A → Prop) l :
  (∀ x, R x x) →
  StronglySorted R l →
  ∀ x, In x l →
    ∃ y, In y (drop_duplicates_last key l) ∧ key y = key x ∧ R x y.
Proof.
  intros Hrefl Hs. induction Hs as [|a t Hs IH Hall]; intros x Hx; [done|].
  simpl. destruct (existsb _ t) eqn:Hex.
  - destruct Hx as [<-|Hx]; [|by apply IH].
    apply existsb_exists in Hex as (z & Hz & Hk).
    apply bool_decide_eq_true in Hk.
    destruct (IH z Hz) as (y & Hy & Hky & _).
    exists y. split; [done|]. split; [congruence|].
    rewrite Forall_forall in Hall. apply Hall.
    apply list_elem_of_In. by apply drop_duplicates_last_In.
  - destruct Hx as [<-|Hx].
    + exists a. simpl. auto.
    + destruct (IH x Hx) as (y & Hy & Hky & Hr).
      exists y. simpl. auto.
Qed.
End drop_duplicates_facts.

(** Sorting ascending by an integer column, then keeping the last row of
    every key, leaves the latest row of every key. *)
Lemma sort_then_drop_duplicates_latest {A K : Type} `{EqDecision K}
    (key : A → K) (stamp : A → Z) (raw : list A) :
  latest_per_key key stamp raw
    (drop_duplicates_last key (sort_values (λ a b, stamp a <=? stamp b) raw)).
Proof.
  split; [apply drop_duplicates_last_NoDup|]. split.
  - intros r Hr. apply drop_duplicates_last_In in Hr.
    by apply sort_values_In in Hr.
  - intros r Hr.
    destruct (drop_duplicates_last_latest key
                (λ a b, (stamp a <=? stamp b) = true)
                (sort_values (λ a b, stamp a <=? stamp b) raw)) with (x := r)
      as (y & Hy & Hk & Hle).
    + intros x. apply Z.leb_refl.
    + apply sort_values_StronglySorted.
      * intros x y Hxy. apply Z.leb_le. apply Z.leb_gt in Hxy. lia.
      * intros x y z Hxy Hyz. apply Z.leb_le. apply Z.leb_le in Hxy, Hyz. lia.
    + by apply sort_values_In.
    + exists y. split; [done|]. split; [done|]. by apply Z.leb_le.
Qed.

(** * Dataset loader *)

(** C7: after loading, the current-protections table holds exactly one row
    per identifier, a raw row with the largest timestamp of that
    identifier, and the legacy-grants table holds exactly one row per
    identifier, a row with the largest sequence number of that identifier.
    The protections loader returns such a table for every query result
    with at least one row; it raises only on a result without rows. *)
Theorem loaders_keep_latest_row_per_identifier
    (query_result : list Protection.row) (file_rows : list Early.row) :
  match get_indefinitely_semiprotected_items query_result with
  | Return table =>
      latest_per_key Protection.qid Protection.logTimestamp query_result table
  | Raise e => query_result = [] ∧ e = KeyError
  end
  ∧ latest_per_key Early.qid Early.logId file_rows
      (get_early_item_protections file_rows).
Proof.
  split.
  - destruct query_result as [|r rest]; [done|].
    apply sort_then_drop_duplicates_latest.
  - apply sort_then_drop_duplicates_latest.
Qed.

Lemma typed_row_Some line r : typed_row line = Some r ↔ typed_from line r.
Proof.
  unfold typed_row, typed_from. destruct line as [q c], r as [q' n]; simpl.
  destruct c as [|text|m]; split; intros H.
  - discriminate.
  - by destruct H.
  - discriminate.
  - by destruct H.
  - by injection H as <- <-.
  - destruct H as [-> H]. by injection H as ->.
Qed.

Lemma malformed_typed_row line : malformed line ↔ typed_row line = None.
Proof.
  unfold malformed, typed_row. destruct (field_count line) as [|text|n].
  - split; [done|]. by left.
  - split; [done|]. right. by exists text.
  - split; [|done]. by intros [?|[? ?]].
Qed.

(** A column that was read holds every data row with its qid and count. *)
Lemma loaded_rows_typed (env : Env) (lines : list CsvLine) (rows : list Usage.row) :
  get_list_of_highly_used_items_from_wdcm env lines = Return rows →
  mapM typed_row (tail lines) = Some rows.
Proof.
  unfold get_list_of_highly_used_items_from_wdcm.
  destruct lines as [|header data]; [by intros [= <-]|]. simpl.
  destruct (existsb beyond_int64 data).
  - destruct (uint64_retry env data), (mapM typed_row data); try done.
    by intros [= ->].
  - destruct (mapM typed_row data); [|done]. by intros [= ->].
Qed.

(** C8, as stated, fails: a row whose count is not numeric is not dropped;
    the load raises and yields no table, although the specification's loader
    would keep the one well-formed row.  No count of the file lies outside
    [int64], so the environment has no say. *)
Lemma malformed_count_fails_the_load :
  usage_rows_dropping_malformed (tail toplist_with_malformed_counts)
    = [Usage.mk (Some "Q5") 600]
  ∧ get_list_of_highly_used_items_from_wdcm quiet_env toplist_with_malformed_counts
    = Raise ValueError
  ∧ get_list_of_highly_used_items_from_wdcm quiet_env toplist_with_malformed_counts
    ≠ Return (usage_rows_dropping_malformed (tail toplist_with_malformed_counts)).
Proof. split; [reflexivity|]. split; [reflexivity|]. discriminate. Qed.

(** C8, amended: no count is defaulted and no row is dropped.  Whenever
    the load yields a table, the table has every data row with its own qid
    and count; a data row whose count is missing or non-numeric therefore
    leaves the run without a table, and the load fails with [ValueError]
    when no count of the file lies outside [int64].  A file whose counts
    are all integers within [int64], also one without any line, loads. *)
Theorem toplist_load_is_all_or_nothing (env : Env) (lines : list CsvLine) :
  (∀ rows, get_list_of_highly_used_items_from_wdcm env lines = Return rows →
           Forall2 typed_from (tail lines) rows)
  ∧ (Exists malformed (tail lines) →
     (∀ rows, get_list_of_highly_used_items_from_wdcm env lines ≠ Return rows)
     ∧ (existsb beyond_int64 (tail lines) = false →
        get_list_of_highly_used_items_from_wdcm env lines = Raise ValueError))
  ∧ (Forall (λ line, ¬ malformed line) (tail lines) →
     existsb beyond_int64 (tail lines) = false →
     ∃ rows, get_list_of_highly_used_items_from_wdcm env lines = Return rows).
Proof.
  split; [|split].
  - intros rows Hrows. apply loaded_rows_typed, mapM_Some in Hrows.
    eapply Forall2_impl; [exact Hrows|]. intros l r. apply typed_row_Some.
  - intros Hex. apply Exists_exists in Hex as (l & Hl & Hbad).
    apply malformed_typed_row in Hbad.
    assert (mapM typed_row (tail lines) = None) as Hnone.
    { apply mapM_None, Exists_exists. by exists l. }
    split.
    + intros rows Hrows. apply loaded_rows_typed in Hrows. congruence.
    + intros Hfit. destruct lines as [|header data]; [by inversion Hl|].
      simpl in *. by rewrite Hfit, Hnone.
  - intros Hall Hfit. destruct lines as [|header data]; [by eexists|].
    simpl in *. rewrite Hfit.
    destruct (mapM typed_row data) as [rows|] eqn:Hm; [by exists rows|].
    apply mapM_None, Exists_exists in Hm as (l & Hl & Hnone).
    apply malformed_typed_row in Hnone.
    rewrite Forall_forall in Hall. by destruct (Hall l Hl).
Qed.

(** A file whose two data rows have integer counts loads with both rows,
    the one without a qid included. *)
Lemma toplist_load_is_all_or_nothing_witness :
  ∃ rows,
    get_list_of_highly_used_items_from_wdcm quiet_env
      [ mkCsvLine (Some "qid") (NonNumeric "entityUsageCount");
        mkCsvLine (Some "Q5") (Numeric 600);
        mkCsvLine None (Numeric 7) ] = Return rows.
Proof.
  apply (proj2 (proj2 (toplist_load_is_all_or_nothing quiet_env
                         [ mkCsvLine (Some "qid") (NonNumeric "entityUsageCount");
                           mkCsvLine (Some "Q5") (Numeric 600);
                           mkCsvLine None (Numeric 7) ]))).
  - repeat constructor; intros [H|[text H]]; discriminate.
  - reflexivity.
Defined.

(** * Set classifier *)

Lemma isin_In {K : Type} `{EqDecision K} (k : K) (values : list K) :
  isin k values = true ↔ In k values.
Proof.
  unfold isin. rewrite existsb_exists. split.
  - intros (v & Hv & Heq). apply bool_decide_eq_true in Heq. by subst.
  - intros Hk. exists k. split; [done|]. by apply bool_decide_eq_true.
Qed.

Lemma isin_false_In {K : Type} `{EqDecision K} (k : K) (values : list K) :
  isin k values = false ↔ ¬ In k values.
Proof. rewrite <- isin_In. by destruct (isin k values). Qed.

Lemma filter_filter_andb {A : Type} (f g : A → bool) (l : list A) :
  List.filter g (List.filter f l) = List.filter (λ x, f x && g x) l.
Proof.
  induction l as [|x t IH]; simpl; [done|].
  destruct (f x); simpl; [|done]. destruct (g x); by rewrite IH.
Qed.

Lemma Sorted_weaken {A : Type} (R R' : A → A → Prop) (l : list A) :
  (∀ a b, R a b → R' a b) → Sorted R l → Sorted R' l.
Proof.
  intros Himp. induction 1 as [|x t Hs IH Hhd]; constructor; [done|].
  destruct Hhd; constructor. by apply Himp.
Qed.

(** C1, as stated, fails: a highly used, unprotected item on the deny-list
    is in the to-add frame, while the set the specification describes
    leaves it out. *)
Lemma denied_item_is_enqueued :
  protection_missing shipped_config sandbox_toplist [] = sandbox_toplist
  ∧ toAdd_rows_of_spec shipped_config sandbox_toplist [] sandbox_blacklist = []
  ∧ ¬ Permutation (protection_missing shipped_config sandbox_toplist [])
        (toAdd_rows_of_spec shipped_config sandbox_toplist [] sandbox_blacklist).
Proof.
  split; [reflexivity|]. split; [reflexivity|].
  intros Hp. apply Permutation_length in Hp. discriminate.
Qed.

(** C1, amended: for every usage table and current-protections table, the
    to-add frame contains exactly the usage rows that have an identifier,
    whose usage count is at least the usage limit and whose identifier is
    absent from the current-protections table, sorted descending by usage
    count.  The deny-list is not consulted when the frame is built. *)
Lemma protection_missing_Permutation (cfg : Config)
    (top : list Usage.row) (protected : list Protection.row) :
  Permutation (protection_missing cfg top protected)
              (List.filter (eligible_for_add cfg protected) top).
Proof.
  unfold protection_missing, dropna_usage.
  rewrite sort_values_Permutation, filter_filter_andb.
  erewrite filter_ext; [reflexivity|].
  intros r. unfold eligible_for_add.
  destruct (bool_decide _), (_ <=? _), (isin _ _); reflexivity.
Qed.

Lemma protection_missing_In (cfg : Config)
    (top : list Usage.row) (protected : list Protection.row) r :
  In r (protection_missing cfg top protected)
  ↔ In r top
    ∧ is_Some (Usage.qid r)
    ∧ ENTITYUSAGELIMIT cfg ≤ Usage.entityUsageCount r
    ∧ ¬ In (Usage.qid r) (map Protection.qid protected).
Proof.
  pose proof (protection_missing_Permutation cfg top protected) as Hperm.
  split.
  - intros Hr. apply (Permutation_in _ Hperm) in Hr.
    apply filter_In in Hr as [Hin He]. unfold eligible_for_add in He.
    apply andb_true_iff in He as [He Hp]. apply andb_true_iff in He as [Hq Hc].
    apply bool_decide_eq_true in Hq. apply Z.leb_le in Hc.
    apply negb_true_iff, isin_false_In in Hp. done.
  - intros (Hin & Hq & Hc & Hp).
    apply (Permutation_in _ (Permutation_sym Hperm)).
    apply filter_In. split; [done|]. unfold eligible_for_add.
    apply andb_true_iff. split; [apply andb_true_iff; split|].
    + by apply bool_decide_eq_true.
    + by apply Z.leb_le.
    + by apply negb_true_iff, isin_false_In.
Qed.

(** C1, amended: for every usage table and current-protections table, the
    to-add frame contains exactly the usage rows that have an identifier,
    whose usage count is at least the usage limit and whose identifier is
    absent from the current-protections table, sorted descending by usage
    count.  The deny-list is not consulted when the frame is built. *)
Theorem toAdd_rows_without_deny_list (cfg : Config)
    (top : list Usage.row) (protected : list Protection.row) :
  Permutation (protection_missing cfg top protected)
              (List.filter (eligible_for_add cfg protected) top)
  ∧ (∀ r, In r (protection_missing cfg top protected)
          ↔ In r top
            ∧ is_Some (Usage.qid r)
            ∧ ENTITYUSAGELIMIT cfg ≤ Usage.entityUsageCount r
            ∧ ¬ In (Usage.qid r) (map Protection.qid protected))
  ∧ Sorted (λ a b, Usage.entityUsageCount b ≤ Usage.entityUsageCount a)
           (protection_missing cfg top protected).
Proof.
  split; [apply protection_missing_Permutation|].
  split; [apply protection_missing_In|].
  unfold protection_missing.
  eapply Sorted_weaken; [|apply sort_values_Sorted].
  - intros a b Hab. by apply Z.leb_le in Hab.
  - intros x y Hxy. apply Z.leb_le. apply Z.leb_gt in Hxy. lia.
Qed.

Lemma join_rows_qid (left : list Protection.row) (top : list Usage.row) m :
  In m (join_rows left top) →
  ∃ r, In r left ∧ Merged.qid m = Protection.qid r.
Proof.
  unfold join_rows. intros Hm. apply in_flat_map in Hm as (r & Hr & Hm).
  exists r. split; [done|]. unfold merge_row in Hm.
  destruct (List.filter _ top) as [|u us]; simpl in Hm.
  - by destruct Hm as [<-|[]].
  - destruct Hm as [<-|Hm]; [done|].
    by apply in_map_iff in Hm as (u' & <- & _).
Qed.

(** A merged row is a joined row, its count as it was or as a float. *)
Lemma merge_left_rows (left : list Protection.row) (top : list Usage.row) m :
  In m (merge_left left top) →
  ∃ m0, In m0 (join_rows left top)
        ∧ Merged.qid m = Merged.qid m0
        ∧ Merged.username m = Merged.username m0
        ∧ (Merged.entityUsageCount m = Merged.entityUsageCount m0
           ∨ Merged.entityUsageCount m
             = float64_of_int <$> Merged.entityUsageCount m0).
Proof.
  unfold merge_left. destruct (forallb _ _).
  - intros Hm. exists m. by auto.
  - intros Hm. apply in_map_iff in Hm as (m0 & <- & Hm0). exists m0. by auto.
Qed.

Lemma merge_left_map_qid (left : list Protection.row) (top : list Usage.row) :
  map Merged.qid (merge_left left top) = map Merged.qid (join_rows left top).
Proof.
  unfold merge_left. destruct (forallb _ _); [done|].
  rewrite map_map. by apply map_ext.
Qed.

(** When every joined row has a count, the counts stay integers. *)
Lemma merge_left_all_matched (left : list Protection.row) (top : list Usage.row) :
  (∀ m, In m (join_rows left top) → is_Some (Merged.entityUsageCount m)) →
  merge_left left top = join_rows left top.
Proof.
  intros Hall. unfold merge_left.
  destruct (forallb _ _) eqn:Hf; [done|].
  assert (forallb (λ m, bool_decide (is_Some (Merged.entityUsageCount m)))
            (join_rows left top) = true) as Ht; [|congruence].
  apply forallb_forall. intros m Hm. apply bool_decide_eq_true. by apply Hall.
Qed.

Lemma merge_left_qid (left : list Protection.row) (top : list Usage.row) m :
  In m (merge_left left top) →
  ∃ r, In r left ∧ Merged.qid m = Protection.qid r.
Proof.
  intros Hm. apply merge_left_rows in Hm as (m0 & Hm0 & -> & _).
  by apply (join_rows_qid left top).
Qed.

Lemma protection_to_lift_source (cfg : Config)
    (top : list Usage.row) (protected : list Protection.row) q :
  In q (map Merged.qid (protection_to_lift cfg top protected)) →
  In q (map Protection.qid protected).
Proof.
  unfold protection_to_lift, sort_by_usage_desc, dropna_protection.
  intros Hq. apply in_map_iff in Hq as (m & <- & Hm).
  apply sort_values_In, merge_left_qid in Hm as (r & Hr & ->).
  apply filter_In in Hr as [Hr _]. apply filter_In in Hr as [Hr _].
  by apply in_map.
Qed.

Lemma protected_highly_used_items_subset (cfg : Config)
    (protected : list Protection.row) (early : list Early.row) r :
  In r (protected_highly_used_items cfg protected early) → In r protected.
Proof. unfold protected_highly_used_items. intros Hr. by apply filter_In in Hr as [? _]. Qed.

Lemma protection_missing_unprotected (cfg : Config)
    (top : list Usage.row) (protected : list Protection.row) q :
  In q (map Usage.qid (protection_missing cfg top protected)) →
  ¬ In q (map Protection.qid protected).
Proof.
  intros Hq. apply in_map_iff in Hq as (r & <- & Hr).
  apply protection_missing_In in Hr. tauto.
Qed.

Lemma protection_to_lift_protected (cfg : Config)
    (indef : list Protection.row) (early : list Early.row)
    (top : list Usage.row) q :
  In q (map Merged.qid
          (protection_to_lift cfg top (protected_highly_used_items cfg indef early))) →
  In q (map Protection.qid (protected_highly_used_items cfg indef early))
  ∧ In q (map Protection.qid indef).
Proof.
  intros Hq. apply protection_to_lift_source in Hq. split; [done|].
  apply in_map_iff in Hq as (r & <- & Hr).
  apply in_map. by apply protected_highly_used_items_subset in Hr.
Qed.

(** C4: for all input tables and thresholds the to-add frame and the
    to-lift frame share no identifier: every to-add identifier is absent
    from the current protections, every to-lift identifier is the
    identifier of a currently protected row of the trusted population, and
    so no case of the add pass has the qid of a case of the lift pass. *)
Theorem toAdd_toLift_disjoint (cfg : Config)
    (indef_semiprotected_items : list Protection.row)
    (early_item_protections : list Early.row)
    (wdcm_toplist : list Usage.row) :
  let trusted :=
    protected_highly_used_items cfg indef_semiprotected_items early_item_protections in
  let toAdd := protection_missing cfg wdcm_toplist indef_semiprotected_items in
  let toLift := protection_to_lift cfg wdcm_toplist trusted in
  Forall (λ q, ¬ In q (map Protection.qid indef_semiprotected_items))
         (map Usage.qid toAdd)
  ∧ Forall (λ q, In q (map Protection.qid trusted)
                 ∧ In q (map Protection.qid indef_semiprotected_items))
           (map Merged.qid toLift)
  ∧ Forall (λ q, ¬ In q (map Merged.qid toLift)) (map Usage.qid toAdd)
  ∧ Forall (λ a, Forall (λ l, qid a ≠ qid l) (itertuples_lift toLift))
           (itertuples_add toAdd).
Proof.
  intros trusted toAdd toLift.
  pose proof (protection_missing_unprotected cfg wdcm_toplist indef_semiprotected_items)
    as Hadd.
  pose proof (protection_to_lift_protected cfg indef_semiprotected_items
                early_item_protections wdcm_toplist) as Hlift.
  fold trusted toAdd toLift in Hadd, Hlift.
  split; [|split; [|split]].
  - apply Forall_forall. intros q Hq. apply Hadd. by apply list_elem_of_In.
  - apply Forall_forall. intros q Hq. apply Hlift. by apply list_elem_of_In.
  - apply Forall_forall. intros q Hq Hl. apply list_elem_of_In in Hq.
    apply (Hadd q Hq). by apply Hlift.
  - apply Forall_forall. intros a Ha. apply Forall_forall. intros l Hl Heq.
    apply list_elem_of_omap in Ha as (r & Hr & Ha).
    apply list_elem_of_omap in Hl as (m & Hm & Hl).
    destruct (Usage.qid r) as [qa|] eqn:Hqa; [|done].
    destruct (Merged.qid m) as [ql|] eqn:Hql; [|done].
    simpl in Ha, Hl. injection Ha as <-. injection Hl as <-. simpl in Heq. subst ql.
    apply (Hadd (Some qa)).
    + apply in_map_iff. exists r. split; [done|]. by apply list_elem_of_In.
    + apply Hlift. apply in_map_iff. exists m. split; [done|]. by apply list_elem_of_In.
Qed.

(** * Protection state machine *)

Lemma set_edit_on_unprotected :
  <["edit" := ("autoconfirmed", "infinity")]> UNPROTECTED = SEMIPROTECTED.
Proof. unfold UNPROTECTED, SEMIPROTECTED. apply insert_empty. Qed.

Lemma pop_edit_on_semiprotected :
  SEMIPROTECTED !! "edit" = Some ("autoconfirmed", "infinity")
  ∧ delete "edit" SEMIPROTECTED = UNPROTECTED.
Proof.
  unfold UNPROTECTED, SEMIPROTECTED. split.
  - apply lookup_singleton_eq.
  - apply delete_singleton_eq.
Qed.

(** [add_protection] runs the guards in their order and stops at the first
    that fails; past the guards it counts the result of the protection
    call.  The first guard is the test the code makes, [not (usage <
    limit)]. *)
Lemma add_protection_guarded (cfg : Config) (env : Env) (case : Case)
    (blacklist : list string) (st : State) :
  add_protection cfg env case blacklist st =
  match first_failing
          (add_guards_from (negb (nan_lt (entityUsageCount case) (ENTITYUSAGELIMIT cfg)))
                           cfg env case blacklist st) with
  | Some k =>
      (Raise (RuntimeWarning (AddWarning k case)), exec (count_added k) st)
  | None =>
      if SIMULATE cfg
      then (Return (AddReturn case),
            exec (count_added Counter.Added.successful) (exec sleep st))
      else if protect_raises env (add_call case)
      then (Raise (RuntimeError (ApiError (add_call case))),
            exec (count_added Counter.Added.savefailed)
                 (after_protect env (add_call case) st))
      else (Return (AddReturn case),
            exec (count_added Counter.Added.successful)
                 (exec sleep (after_protect env (add_call case) st)))
  end.
Proof.
  unfold add_protection, first_failing, add_guards_from. simpl.
  destruct (nan_lt _ _); simpl; [reflexivity|].
  destruct (isin _ blacklist); simpl; [reflexivity|].
  unfold below_subscribed_projects. simpl.
  assert (match MINSUBSCRIBEDPROJECTS cfg with
          | Some minimum => minimum <=? get_number_of_subscribed_projects env (qid case)
          | None => true
          end
          = negb match MINSUBSCRIBEDPROJECTS cfg with
                 | Some minimum => get_number_of_subscribed_projects env (qid case) <? minimum
                 | None => false
                 end) as ->.
  { destruct (MINSUBSCRIBEDPROJECTS cfg); [apply Z.leb_antisym | reflexivity]. }
  destruct (match MINSUBSCRIBEDPROJECTS cfg with
            | Some minimum => get_number_of_subscribed_projects env (qid case) <? minimum
            | None => false
            end); simpl; [reflexivity|].
  unfold bind at 1. unfold item_page at 1.
  destruct (site st !! qid case) as [[redirect prot]|] eqn:Hpage; simpl; [|reflexivity].
  destruct redirect; simpl; [reflexivity|].
  destruct (decide (prot = UNPROTECTED)) as [->|Hne].
  - rewrite (bool_decide_eq_false_2 (UNPROTECTED ≠ UNPROTECTED)) by (intros H; by apply H).
    rewrite (bool_decide_eq_true_2 (Some UNPROTECTED = Some UNPROTECTED)) by done.
    rewrite set_edit_on_unprotected.
    rewrite (bool_decide_eq_false_2 (SEMIPROTECTED ≠ SEMIPROTECTED)) by (intros H; by apply H).
    simpl. unfold try_except_RuntimeError, after_protect, exec.
    destruct (SIMULATE cfg); simpl; [reflexivity|].
    unfold bind, protect. destruct (protect_raises env (add_call case)); reflexivity.
  - rewrite (bool_decide_eq_true_2 (prot ≠ UNPROTECTED)) by done.
    rewrite (bool_decide_eq_false_2 (Some prot = Some UNPROTECTED)) by congruence.
    reflexivity.
Qed.

(** For a case that has a usage count, the code's first test is the first
    precondition of the specification. *)
Lemma add_guards_of_counted_case (cfg : Config) (env : Env) (case : Case)
    (blacklist : list string) (st : State) (u : Z) :
  entityUsageCount case = Some u →
  add_guards_from (negb (nan_lt (entityUsageCount case) (ENTITYUSAGELIMIT cfg)))
                  cfg env case blacklist st
  = add_guards cfg env case blacklist st.
Proof.
  intros Hu. unfold add_guards. rewrite Hu. simpl.
  by rewrite (Z.leb_antisym u (ENTITYUSAGELIMIT cfg)).
Qed.

Lemma first_failing_In {K : Type} (guards : list (K * bool)) (k : K) :
  first_failing guards = Some k → In (k, false) guards.
Proof.
  unfold first_failing. intros Hk.
  destruct (List.find _ guards) as [[k' b]|] eqn:Hfind; [|done].
  injection Hk as ->. apply find_some in Hfind as [Hin Hb].
  simpl in Hb. by destruct b.
Qed.

Lemma not_whitelisted_cases (cfg : Config) (env : Env) (case : Case)
    (early_protection : list Early.row) (st : State) :
  not_whitelisted cfg env case early_protection st =
  if username_isin (username case) (WHITELISTED_ADMINS cfg)
  then (Return false, st)
  else
    match early_protection with
    | [grant] =>
        match latest_protect_action env (qid case) with
        | None =>
            (Raise IndexError, exec (access_replica_database env (qid case)) st)
        | Some row =>
            (Return (negb (bool_decide (log_matches_grant row grant))),
             exec (access_replica_database env (qid case)) st)
        end
    | _ => (Return true, st)
    end.
Proof.
  unfold not_whitelisted, is_whitelisted_early_protection.
  destruct (username_isin _ _); simpl; [reflexivity|].
  destruct early_protection as [|grant [|grant' rest]]; simpl; try reflexivity.
  unfold bind, access_replica_database, exec. simpl.
  destruct (latest_protect_action env (qid case)) as [row|]; simpl; [|reflexivity].
  unfold ret, log_matches_grant.
  by rewrite !bool_decide_and, andb_assoc.
Qed.

(** [remove_protection] as a sequence of guards: usage below the limit,
    authorization, existence, the semiprotected shape; past the guards it
    counts the result of the protection call.  No guard reads the redirect
    flag of the page. *)
Lemma remove_protection_guarded (cfg : Config) (env : Env) (case : Case)
    (early_protection : list Early.row) (st : State) :
  remove_protection cfg env case early_protection st =
  if nan_ge (entityUsageCount case) (ENTITYUSAGELIMIT cfg)
  then (Raise (RuntimeWarning (RemoveWarning Counter.Removed.overlimit case)),
        exec (count_removed Counter.Removed.overlimit) st)
  else
    match not_whitelisted cfg env case early_protection st with
    | (Raise e, st1) => (Raise e, st1)
    | (Return true, st1) =>
        (Raise (RuntimeWarning (RemoveWarning Counter.Removed.notwhitelisted case)),
         exec (count_removed Counter.Removed.notwhitelisted) st1)
    | (Return false, st1) => remove_authorized cfg env case st1
    end.
Proof.
  unfold remove_protection, remove_authorized.
  destruct (nan_ge _ _); [reflexivity|].
  unfold bind at 1.
  destruct (not_whitelisted cfg env case early_protection st) as [[[|]|e] st1];
    [reflexivity| |reflexivity].
  unfold bind at 1. unfold item_page at 1.
  destruct (site st1 !! qid case) as [[redirect prot]|] eqn:Hpage; simpl; [|reflexivity].
  destruct (decide (prot = SEMIPROTECTED)) as [->|Hne].
  - rewrite (bool_decide_eq_false_2 (SEMIPROTECTED ≠ SEMIPROTECTED)) by (intros H; by apply H).
    rewrite (bool_decide_eq_true_2 (SEMIPROTECTED = SEMIPROTECTED)) by done.
    destruct pop_edit_on_semiprotected as [-> ->].
    rewrite (bool_decide_eq_false_2 (UNPROTECTED ≠ UNPROTECTED)) by (intros H; by apply H).
    unfold try_except_RuntimeError, after_protect, exec.
    destruct (SIMULATE cfg); simpl; [reflexivity|].
    unfold bind, protect. destruct (protect_raises env (remove_call case)); reflexivity.
  - rewrite (bool_decide_eq_true_2 (prot ≠ SEMIPROTECTED)) by done.
    rewrite (bool_decide_eq_false_2 (prot = SEMIPROTECTED)) by done.
    reflexivity.
Qed.

Lemma added_after_add_protection (k k' : Counter.Added.key) (c : Counter.t) :
  Counter.added k' (Counter.add_protection k c)
  = (Counter.added k' c + if bool_decide (k = k') then 1 else 0)%nat.
Proof.
  destruct c as [[a1 a2 a3 a4 a5 a6 a7 a8 a9] r].
  destruct k, k'; simpl; lia.
Qed.

Lemma removed_after_add_protection (k : Counter.Added.key) (k' : Counter.Removed.key)
    (c : Counter.t) :
  Counter.removed k' (Counter.add_protection k c) = Counter.removed k' c.
Proof. destruct c as [[a1 a2 a3 a4 a5 a6 a7 a8 a9] r]. by destruct k. Qed.

Lemma removed_after_remove_protection (k k' : Counter.Removed.key) (c : Counter.t) :
  Counter.removed k' (Counter.remove_protection k c)
  = (Counter.removed k' c + if bool_decide (k = k') then 1 else 0)%nat.
Proof.
  destruct c as [a [r1 r2 r3 r4 r5 r6 r7 r8]].
  destruct k, k'; simpl; lia.
Qed.

Lemma added_after_remove_protection (k : Counter.Removed.key) (k' : Counter.Added.key)
    (c : Counter.t) :
  Counter.added k' (Counter.remove_protection k c) = Counter.added k' c.
Proof. destruct c as [a [r1 r2 r3 r4 r5 r6 r7 r8]]. by destruct k. Qed.

(** What one call of [add_protection] leaves behind: one count, no query,
    no printed line, and a wiki that differs only when a real call
    succeeded. *)
Lemma add_protection_effect (cfg : Config) (env : Env) (case : Case)
    (blacklist : list string) (st : State) :
  let st' := exec (add_protection cfg env case blacklist) st in
  counter st' = Counter.add_protection (add_outcome cfg env case blacklist st) (counter st)
  ∧ replica_queries st' = replica_queries st
  ∧ stdout st' = stdout st
  ∧ (site st' = site st
     ∨ (SIMULATE cfg = false
        ∧ site st' = alter (protect_page (add_call case)) (qid case) (site st)))
  ∧ (protect_calls st' = protect_calls st
     ∨ (SIMULATE cfg = false
        ∧ first_failing
            (add_guards_from
               (negb (nan_lt (entityUsageCount case) (ENTITYUSAGELIMIT cfg)))
               cfg env case blacklist st) = None
        ∧ protect_calls st' = (protect_calls st ++ [add_call case])%list)).
Proof.
  unfold exec, add_outcome. rewrite add_protection_guarded.
  destruct (first_failing _) as [k|]; simpl; [by auto 10|].
  destruct (SIMULATE cfg); simpl; [by auto 10|].
  unfold after_protect, exec, protect.
  destruct (protect_raises env (add_call case)); simpl; auto 10.
Qed.

(** C2: for every add case, [add_protection] evaluates its guards in the
    order usage at least the usage limit, deny-list, minimum subscriber
    count when configured, existence, redirect, unprotected shape; the
    first failing guard raises a [RuntimeWarning], adds one to the counter
    of that guard and changes nothing else (no call, no change of the
    wiki); the loop body catches the warning, so the run goes on; and
    every case adds exactly one to exactly one counter. *)
Theorem add_guards_in_order (cfg : Config) (env : Env) (q : string) (u : Z)
    (name : option string) (blacklist : list string) (st : State) :
  let case := mkCase q (Some u) name in
  let outcome := add_protection cfg env case blacklist st in
  (∀ k, first_failing (add_guards cfg env case blacklist st) = Some k →
        outcome = (Raise (RuntimeWarning (AddWarning k case)),
                   exec (count_added k) st)
        ∧ site (snd outcome) = site st
        ∧ protect_calls (snd outcome) = protect_calls st
        ∧ counter (snd outcome) = Counter.add_protection k (counter st))
  ∧ (∃ k, ∀ k', Counter.added k' (counter (snd outcome))
                = (Counter.added k' (counter st)
                   + if bool_decide (k = k') then 1 else 0)%nat)
  ∧ (∀ k', Counter.removed k' (counter (snd outcome))
           = Counter.removed k' (counter st))
  ∧ fst (try_print (add_protection cfg env case blacklist) st) = Return ().
Proof.
  intros case outcome.
  pose proof (add_protection_guarded cfg env case blacklist st) as Hrun.
  rewrite (add_guards_of_counted_case cfg env case blacklist st u eq_refl) in Hrun.
  pose proof (add_protection_effect cfg env case blacklist st) as (Hc & _).
  fold outcome in Hrun. unfold exec in Hc. fold outcome in Hc.
  split; [|split; [|split]].
  - intros k Hk. rewrite Hk in Hrun. rewrite Hrun. done.
  - exists (add_outcome cfg env case blacklist st). intros k'.
    rewrite Hc. apply added_after_add_protection.
  - intros k'. rewrite Hc. apply removed_after_add_protection.
  - unfold try_print. fold outcome. rewrite Hrun.
    destruct (first_failing _); [done|].
    destruct (SIMULATE cfg); [done|].
    by destruct (protect_raises env (add_call case)).
Qed.

(** A deny-listed item whose usage is also below the limit is counted as
    below the limit, the earlier guard. *)
Lemma add_guards_in_order_witness :
  let case := mkCase "Q5" (Some 100) None in
  add_protection shipped_config quiet_env case ["Q5"] (initial_state small_wiki)
  = (Raise (RuntimeWarning (AddWarning Counter.Added.belowlimit case)),
     exec (count_added Counter.Added.belowlimit) (initial_state small_wiki)).
Proof.
  intros case.
  apply (proj1 (add_guards_in_order shipped_config quiet_env "Q5" 100 None ["Q5"]
                  (initial_state small_wiki))).
  reflexivity.
Defined.

(** * Provenance validator *)

(** C3: the authorization guard of [remove_protection].  A case of a
    whitelisted administrator passes at once, without a query.  Otherwise,
    when the number of grant rows for the item is not exactly one,
    [is_whitelisted_early_protection] answers no without a query and the
    guard refuses.  With exactly one grant row the replica database is
    queried once for the title of the case.  When the query returns a row,
    the answer is yes exactly when that row agrees with the grant on
    identifier, log id and actor name, and the guard refuses exactly when
    it does not.  When the query returns no row the check gives no
    answer: indexing the empty result raises [IndexError], the guard
    neither refuses nor lets the case through, [remove_protection] counts
    nothing, and the loop body, which catches [RuntimeWarning] and
    [RuntimeError] only, lets the exception end the pass. *)
Theorem lift_authorization (cfg : Config) (env : Env) (case : Case)
    (early_protection : list Early.row) (st : State) :
  (username_isin (username case) (WHITELISTED_ADMINS cfg) = true →
     not_whitelisted cfg env case early_protection st = (Return false, st))
  ∧ (length early_protection ≠ 1%nat →
       is_whitelisted_early_protection env case early_protection st
       = (Return false, st))
  ∧ (username_isin (username case) (WHITELISTED_ADMINS cfg) = false →
     length early_protection ≠ 1%nat →
       not_whitelisted cfg env case early_protection st = (Return true, st))
  ∧ (∀ grant, early_protection = [grant] →
       let queried := exec (access_replica_database env (qid case)) st in
       replica_queries queried = (replica_queries st ++ [qid case])%list
       ∧ counter queried = counter st
       ∧ stdout queried = stdout st
       ∧ (∀ row, latest_protect_action env (qid case) = Some row →
            ∃ answer : bool,
              (answer = true ↔ log_matches_grant row grant)
              ∧ is_whitelisted_early_protection env case early_protection st
                = (Return answer, queried)
              ∧ (username_isin (username case) (WHITELISTED_ADMINS cfg) = false →
                   not_whitelisted cfg env case early_protection st
                   = (Return (negb answer), queried)))
       ∧ (latest_protect_action env (qid case) = None →
            is_whitelisted_early_protection env case early_protection st
            = (Raise IndexError, queried)
            ∧ (username_isin (username case) (WHITELISTED_ADMINS cfg) = false →
                 not_whitelisted cfg env case early_protection st
                 = (Raise IndexError, queried)
                 ∧ (nan_ge (entityUsageCount case) (ENTITYUSAGELIMIT cfg) = false →
                      remove_protection cfg env case early_protection st
                      = (Raise IndexError, queried)
                      ∧ try_print (remove_protection cfg env case early_protection) st
                        = (Raise IndexError, queried))))).
Proof.
  split; [|split; [|split]].
  - intros Hadmin. by rewrite not_whitelisted_cases, Hadmin.
  - intros Hlen. unfold is_whitelisted_early_protection.
    by rewrite bool_decide_eq_true_2.
  - intros Hadmin Hlen. rewrite not_whitelisted_cases, Hadmin.
    by destruct early_protection as [|g [|g' rest]].
  - intros grant -> queried. do 3 (split; [done|]). split.
    + intros row Hrow.
      exists (bool_decide (Some (log_qid row) = Early.qid grant)
              && bool_decide (log_id row = Early.logId grant)
              && bool_decide (Some (log_actorname row) = Early.admin grant)).
      split; [|split].
      * unfold log_matches_grant.
        rewrite !andb_true_iff, !bool_decide_eq_true. tauto.
      * unfold is_whitelisted_early_protection, bind, access_replica_database.
        simpl. by rewrite Hrow.
      * intros Hadmin. unfold not_whitelisted, bind.
        rewrite Hadmin. simpl.
        unfold is_whitelisted_early_protection, bind, access_replica_database.
        simpl. by rewrite Hrow.
    + intros Hlog.
      assert (is_whitelisted_early_protection env case [grant] st
              = (Raise IndexError, queried)) as Hcheck.
      { unfold is_whitelisted_early_protection, bind, access_replica_database.
        simpl. by rewrite Hlog. }
      split; [done|]. intros Hadmin.
      assert (not_whitelisted cfg env case [grant] st = (Raise IndexError, queried))
        as Hguard.
      { unfold not_whitelisted, bind. rewrite Hadmin. simpl. by rewrite Hcheck. }
      split; [done|]. intros Hover.
      assert (remove_protection cfg env case [grant] st = (Raise IndexError, queried))
        as Hremove.
      { unfold remove_protection. rewrite Hover. unfold bind at 1. by rewrite Hguard. }
      split; [done|]. unfold try_print. by rewrite Hremove.
Qed.

(** One grant row for Q9 and no protect action in the log: the lift case
    of the administrator who is not on the list gets no answer; the loop
    body is left by [IndexError] with the query made and nothing counted
    or printed. *)
Lemma lift_authorization_witness :
  try_print (remove_protection shipped_config quiet_env early_case [early_grant])
            (initial_state small_wiki)
  = (Raise IndexError,
     exec (access_replica_database quiet_env "Q9") (initial_state small_wiki)).
Proof.
  apply (proj2 (proj2 (proj2 (proj2 (proj2 (proj2 (proj2 (proj2 (proj2 (proj2
           (lift_authorization shipped_config quiet_env early_case [early_grant]
              (initial_state small_wiki)))) early_grant eq_refl))))
           eq_refl) eq_refl) eq_refl)).
Defined.

(** The same grant with a log that agrees with it: whitelisted. *)
Example matching_log_is_whitelisted :
  fst (is_whitelisted_early_protection logged_env early_case [early_grant]
         (initial_state small_wiki)) = Return true.
Proof. reflexivity. Qed.

Lemma remove_authorized_effect (cfg : Config) (env : Env) (case : Case)
    (st st1 : State) :
  counter st1 = counter st → stdout st1 = stdout st →
  site st1 = site st → protect_calls st1 = protect_calls st →
  let r := remove_authorized cfg env case st1 in
  counted_removal st r
  ∧ stdout (snd r) = stdout st
  ∧ (site (snd r) = site st
     ∨ (SIMULATE cfg = false
        ∧ site (snd r) = alter (protect_page (remove_call case)) (qid case) (site st)))
  ∧ (protect_calls (snd r) = protect_calls st
     ∨ (SIMULATE cfg = false
        ∧ protect_calls (snd r) = (protect_calls st ++ [remove_call case])%list)).
Proof.
  intros Hc Ho Hs Hp. unfold remove_authorized, counted_removal, try_print.
  destruct (protection <$> site st1 !! qid case) as [cur|]; simpl.
  - destruct (bool_decide (cur = SEMIPROTECTED)); simpl.
    + destruct (SIMULATE cfg); simpl.
      * rewrite Hc, Ho, Hs, Hp. split; [eexists; by repeat split|]. by auto.
      * unfold after_protect, exec, protect.
        destruct (protect_raises env (remove_call case)); simpl;
          rewrite Hc, Ho, Hs, Hp;
          (split; [eexists; by repeat split|]); by auto.
    + rewrite Hc, Ho, Hs, Hp. split; [eexists; by repeat split|]. by auto.
  - rewrite Hc, Ho, Hs, Hp. split; [eexists; by repeat split|]. by auto.
Qed.

(** What one call of [remove_protection] leaves behind: at most one count,
    never for a failed post-check or a redirect, no printed line, and a
    wiki that differs only when a real call succeeded. *)
Lemma remove_protection_effect (cfg : Config) (env : Env) (case : Case)
    (early_protection : list Early.row) (st : State) :
  let r := remove_protection cfg env case early_protection st in
  ((counter (snd r) = counter st ∧ fst r = Raise IndexError)
   ∨ counted_removal st r)
  ∧ stdout (snd r) = stdout st
  ∧ (site (snd r) = site st
     ∨ (SIMULATE cfg = false
        ∧ site (snd r) = alter (protect_page (remove_call case)) (qid case) (site st)))
  ∧ (protect_calls (snd r) = protect_calls st
     ∨ (SIMULATE cfg = false
        ∧ protect_calls (snd r) = (protect_calls st ++ [remove_call case])%list)).
Proof.
  simpl. rewrite remove_protection_guarded.
  destruct (nan_ge _ _); simpl.
  { split; [right; eexists; by repeat split|]. by auto. }
  rewrite not_whitelisted_cases.
  pose proof (remove_authorized_effect cfg env case st) as Hrest. simpl in Hrest.
  destruct (username_isin _ _).
  { destruct (Hrest st) as (? & ? & ? & ?); by auto. }
  destruct early_protection as [|grant [|grant' rest]].
  - simpl. split; [right; eexists; by repeat split|]. by auto.
  - destruct (latest_protect_action env (qid case)) as [row|].
    + destruct (negb _).
      * simpl. split; [right; eexists; by repeat split|]. by auto.
      * destruct (Hrest (exec (access_replica_database env (qid case)) st))
          as (? & ? & ? & ?); by auto.
    + simpl. by auto 10.
  - simpl. split; [right; eexists; by repeat split|]. by auto.
Qed.

(** * Run controller *)

Section invariants.
(** A property of the state that printing keeps. *)
Context (I : State → Prop).
Hypothesis print_keeps : ∀ msg st, I st → I (print msg st).
Hypothesis report_keeps : ∀ out st, I st → I (write_report out st).

Lemma prints_preserve (msgs : list Message) (st : State) :
  I st → I (foldl (λ acc msg, print msg acc) st msgs).
Proof.
  revert st. induction msgs as [|msg rest IH]; intros st Hst; [done|].
  simpl. by apply IH, print_keeps.
Qed.

Lemma print_statistics_preserves cfg env indef early top blacklist st :
  I st → I (exec (print_statistics cfg env indef early top blacklist) st).
Proof.
  intros Hst. unfold exec, print_statistics.
  destruct (get_number_of_items env =? 0); cbn [snd].
  - by do 2 apply print_keeps.
  - apply prints_preserve. by do 2 apply print_keeps.
Qed.

Lemma make_report_preserves cfg input_vars st :
  I st → I (exec (make_report cfg input_vars) st).
Proof.
  intros Hst. unfold exec, make_report. simpl.
  destruct (report_page_saved _ _ _); by repeat apply report_keeps.
Qed.

Lemma report_preserves cfg env indef early top blacklist st :
  I st → I (exec (report cfg env indef early top blacklist) st).
Proof.
  intros Hst. unfold report, exec, bind.
  pose proof (print_statistics_preserves cfg env indef early top blacklist st Hst)
    as Hprint.
  unfold exec in Hprint.
  destruct (print_statistics cfg env indef early top blacklist st) as [[[]|e] st1];
    cbn [fst snd] in *; [|done].
  destruct (cooldown_qids cfg indef early top); [|done].
  by apply make_report_preserves.
Qed.

Lemma try_print_preserves (body : M Message) (st : State) :
  I (exec body st) → I (exec (try_print body) st).
Proof.
  unfold exec, try_print.
  destruct (body st) as [[msg|[msg|msg| | | | | |]] st']; simpl; auto.
Qed.

Lemma for_cases_preserves (step : Case → M Message) (hardlimit : option Z) :
  (∀ case st, I st → I (exec (step case) st)) →
  ∀ cases processed st,
    I st → I (exec (for_cases step hardlimit processed cases) st).
Proof.
  intros Hstep. induction cases as [|case rest IH]; intros processed st Hst;
    [done|].
  simpl. unfold exec, bind.
  pose proof (try_print_preserves (step case) st (Hstep case st Hst)) as Hp.
  unfold exec in Hp.
  destruct (try_print (step case) st) as [[[]|e] st1]; simpl in *; [|done].
  destruct (hardlimit_reached hardlimit processed); [done|].
  by apply IH.
Qed.

Context (cfg : Config) (env : Env).
Hypothesis add_keeps :
  ∀ case blacklist st, I st → I (exec (add_protection cfg env case blacklist) st).
Hypothesis remove_keeps :
  ∀ case early_protection st,
    I st → I (exec (remove_protection cfg env case early_protection) st).

Lemma lift_pass_preserves early frame st :
  I st → I (exec (lift_pass cfg env early frame) st).
Proof.
  intros Hst. unfold lift_pass.
  destruct (exceeded_limit _ _); [by apply print_keeps|].
  apply for_cases_preserves; [|done]. intros case st'. apply remove_keeps.
Qed.

Lemma add_pass_preserves blacklist frame st :
  I st → I (exec (add_pass cfg env blacklist frame) st).
Proof.
  intros Hst. unfold add_pass.
  destruct (exceeded_limit _ _); [by apply print_keeps|].
  apply for_cases_preserves; [|done]. intros case st'. apply add_keeps.
Qed.

Lemma run_passes_preserves indef early top blacklist st :
  I st → I (exec (run_passes cfg env indef early top blacklist) st).
Proof.
  intros Hst. unfold run_passes, exec, bind.
  pose proof (lift_pass_preserves early
                (protection_to_lift cfg top (protected_highly_used_items cfg indef early))
                st Hst) as Hl.
  unfold exec in Hl.
  destruct (lift_pass _ _ _ _ st) as [[[]|e] st1]; simpl in *; [|done].
  by apply add_pass_preserves.
Qed.

Lemma main_preserves query_result file_rows lines blacklist st :
  I st → I (exec (main cfg env query_result file_rows lines blacklist) st).
Proof.
  intros Hst. unfold main, exec, bind, load.
  destruct (get_indefinitely_semiprotected_items query_result) as [indef|]; [|done].
  destruct (get_list_of_highly_used_items_from_wdcm env lines) as [top|]; [|done].
  pose proof (run_passes_preserves indef (get_early_item_protections file_rows)
                top blacklist st Hst) as Hrun.
  unfold exec in Hrun.
  destruct (run_passes cfg env indef _ top blacklist st) as [[[]|e] st1];
    cbn [fst snd] in *; [|done].
  by apply report_preserves.
Qed.
End invariants.

Lemma add_outcome_is_guard_or_call (cfg : Config) (env : Env) (case : Case)
    (blacklist : list string) (st : State) :
  add_outcome cfg env case blacklist st ≠ Counter.Added.couldntchangetosemiprotection.
Proof.
  unfold add_outcome.
  destruct (first_failing _) as [k|] eqn:Hk.
  - apply first_failing_In in Hk. simpl in Hk. intros ->.
    repeat (destruct Hk as [[=]|Hk]). done.
  - by destruct (negb (SIMULATE cfg) && protect_raises env (add_call case)).
Qed.

Lemma add_protection_keeps_count (cfg : Config) (env : Env) (case : Case)
    (blacklist : list string) (st : State) :
  Counter.added Counter.Added.couldntchangetosemiprotection
    (counter (exec (add_protection cfg env case blacklist) st))
  = Counter.added Counter.Added.couldntchangetosemiprotection (counter st)
  ∧ ∀ k, Counter.removed k (counter (exec (add_protection cfg env case blacklist) st))
         = Counter.removed k (counter st).
Proof.
  destruct (add_protection_effect cfg env case blacklist st) as (-> & _).
  split.
  - rewrite added_after_add_protection, bool_decide_eq_false_2; [lia|].
    apply add_outcome_is_guard_or_call.
  - intros k. apply removed_after_add_protection.
Qed.

Lemma remove_protection_keeps_count (cfg : Config) (env : Env) (case : Case)
    (early_protection : list Early.row) (st : State) :
  let st' := exec (remove_protection cfg env case early_protection) st in
  Counter.removed Counter.Removed.couldntremoveprotection (counter st')
  = Counter.removed Counter.Removed.couldntremoveprotection (counter st)
  ∧ Counter.removed Counter.Removed.itemisredirect (counter st')
    = Counter.removed Counter.Removed.itemisredirect (counter st)
  ∧ ∀ k, Counter.added k (counter st') = Counter.added k (counter st).
Proof.
  unfold exec.
  destruct (remove_protection_effect cfg env case early_protection st)
    as ([[-> _]|(k & Hk1 & Hk2 & -> & _)] & _); [done|].
  rewrite !removed_after_remove_protection, !bool_decide_eq_false_2 by done.
  split; [lia|]. split; [lia|]. intros k'. apply added_after_remove_protection.
Qed.

Lemma main_unreachable_counts_zero (cfg : Config) (env : Env)
    (query_result : list Protection.row) (file_rows : list Early.row)
    (lines : list CsvLine) (blacklist : list string) (wiki : gmap string Page) :
  unreachable_counts_zero
    (exec (main cfg env query_result file_rows lines blacklist) (initial_state wiki)).
Proof.
  apply main_preserves; [done|done| | |done].
  - intros case bl st (H1 & H2 & H3).
    destruct (add_protection_keeps_count cfg env case bl st) as [Ha Hr].
    unfold unreachable_counts_zero. by rewrite Ha, !Hr.
  - intros case ep st (H1 & H2 & H3).
    destruct (remove_protection_keeps_count cfg env case ep st) as (Ha & Hb & Hc).
    unfold unreachable_counts_zero. by rewrite Ha, Hb, Hc.
Qed.

(** C9: the post-derivation checks cannot fail.  Setting the edit
    restriction on the unprotected shape gives the semiprotected shape and
    removing the edit key from the semiprotected shape gives the unprotected
    shape, so no call of [add_protection] counts
    couldntchangetosemiprotection, no call of [remove_protection] counts
    couldntremoveprotection, and both counters are zero after every run. *)
Theorem post_derivation_checks_never_fail (cfg : Config) (env : Env) (case : Case)
    (blacklist : list string) (early_protection : list Early.row) (st : State)
    (query_result : list Protection.row) (file_rows : list Early.row)
    (lines : list CsvLine) (wiki : gmap string Page) :
  <["edit" := ("autoconfirmed", "infinity")]> UNPROTECTED = SEMIPROTECTED
  ∧ is_Some (SEMIPROTECTED !! "edit")
  ∧ delete "edit" SEMIPROTECTED = UNPROTECTED
  ∧ Counter.added Counter.Added.couldntchangetosemiprotection
      (counter (exec (add_protection cfg env case blacklist) st))
    = Counter.added Counter.Added.couldntchangetosemiprotection (counter st)
  ∧ fst (add_protection cfg env case blacklist st)
    ≠ Raise (RuntimeWarning
               (AddWarning Counter.Added.couldntchangetosemiprotection case))
  ∧ Counter.removed Counter.Removed.couldntremoveprotection
      (counter (exec (remove_protection cfg env case early_protection) st))
    = Counter.removed Counter.Removed.couldntremoveprotection (counter st)
  ∧ fst (remove_protection cfg env case early_protection st)
    ≠ Raise (RuntimeWarning
               (RemoveWarning Counter.Removed.couldntremoveprotection case))
  ∧ fst (remove_protection cfg env case early_protection st) ≠ Raise KeyError
  ∧ (let final :=
       exec (main cfg env query_result file_rows lines blacklist) (initial_state wiki) in
     Counter.added Counter.Added.couldntchangetosemiprotection (counter final) = 0%nat
     ∧ Counter.removed Counter.Removed.couldntremoveprotection (counter final) = 0%nat).
Proof.
  split; [apply set_edit_on_unprotected|].
  destruct pop_edit_on_semiprotected as [Hlook Hpop].
  split; [by rewrite Hlook|]. split; [done|].
  split; [apply add_protection_keeps_count|].
  split.
  { rewrite add_protection_guarded.
    destruct (first_failing _) as [k|] eqn:Hk.
    - apply first_failing_In in Hk. simpl in Hk. simpl. intros [= ->].
      repeat (destruct Hk as [[=]|Hk]). done.
    - destruct (SIMULATE cfg); [done|].
      by destruct (protect_raises env (add_call case)). }
  split; [apply remove_protection_keeps_count|].
  assert (∀ st1, fst (remove_authorized cfg env case st1)
                 ≠ Raise (RuntimeWarning
                            (RemoveWarning Counter.Removed.couldntremoveprotection case))
                 ∧ fst (remove_authorized cfg env case st1) ≠ Raise KeyError) as Hauth.
  { intros st1. unfold remove_authorized.
    destruct (protection <$> site st1 !! qid case) as [cur|]; [|done].
    destruct (bool_decide (cur = SEMIPROTECTED)); [|done].
    destruct (SIMULATE cfg); [done|].
    by destruct (protect_raises env (remove_call case)). }
  assert (fst (remove_protection cfg env case early_protection st)
          ≠ Raise (RuntimeWarning
                     (RemoveWarning Counter.Removed.couldntremoveprotection case))
          ∧ fst (remove_protection cfg env case early_protection st) ≠ Raise KeyError)
    as [H1 H2].
  { rewrite remove_protection_guarded.
    destruct (nan_ge _ _); [done|].
    rewrite not_whitelisted_cases.
    destruct (username_isin _ _); [apply Hauth|].
    destruct early_protection as [|grant [|grant' rest]]; [done| |done].
    destruct (latest_protect_action env (qid case)) as [row|]; [|done].
    destruct (negb _); [done|]. apply Hauth. }
  split; [done|]. split; [done|].
  destruct (main_unreachable_counts_zero cfg env query_result file_rows lines
              blacklist wiki) as (Ha & Hb & _).
  done.
Qed.

Lemma not_whitelisted_state (cfg : Config) (env : Env) (case : Case)
    (early_protection : list Early.row) (st : State) :
  let st1 := exec (not_whitelisted cfg env case early_protection) st in
  site st1 = site st ∧ counter st1 = counter st
  ∧ protect_calls st1 = protect_calls st ∧ stdout st1 = stdout st.
Proof.
  unfold exec. rewrite not_whitelisted_cases.
  destruct (username_isin _ _); [done|].
  destruct early_protection as [|grant [|grant' rest]]; [done| |done].
  by destruct (latest_protect_action env (qid case)).
Qed.

(** C10: [remove_protection] has no redirect guard.  A lift case whose
    item is a redirect and which passes the usage guard, the authorization
    guard and the shape guard reaches the protection call when the run is
    not simulated, and the call unprotects the redirect when it succeeds;
    no call of [remove_protection] counts itemisredirect, and that counter
    of the removal pass is zero after every run. *)
Theorem remove_never_checks_redirect (cfg : Config) (env : Env) (case : Case)
    (early_protection : list Early.row) (st : State)
    (query_result : list Protection.row) (file_rows : list Early.row)
    (lines : list CsvLine) (blacklist : list string) (wiki : gmap string Page) :
  (nan_ge (entityUsageCount case) (ENTITYUSAGELIMIT cfg) = false →
   fst (not_whitelisted cfg env case early_protection st) = Return false →
   site st !! qid case = Some (mkPage true SEMIPROTECTED) →
   SIMULATE cfg = false →
     let outcome := remove_protection cfg env case early_protection st in
     protect_calls (snd outcome) = (protect_calls st ++ [remove_call case])%list
     ∧ (protect_raises env (remove_call case) = false →
          fst outcome = Return (RemoveReturn case)
          ∧ site (snd outcome) !! qid case = Some (mkPage true UNPROTECTED)
          ∧ Counter.removed Counter.Removed.successful (counter (snd outcome))
            = S (Counter.removed Counter.Removed.successful (counter st))))
  ∧ Counter.removed Counter.Removed.itemisredirect
      (counter (exec (remove_protection cfg env case early_protection) st))
    = Counter.removed Counter.Removed.itemisredirect (counter st)
  ∧ Counter.removed Counter.Removed.itemisredirect
      (counter (exec (main cfg env query_result file_rows lines blacklist)
                     (initial_state wiki))) = 0%nat.
Proof.
  split; [|split].
  - intros Husage Hauth Hpage Hsim outcome. subst outcome.
    rewrite remove_protection_guarded, Husage.
    destruct (not_whitelisted_state cfg env case early_protection st)
      as (Hs & Hc & Hp & _).
    unfold exec in Hs, Hc, Hp.
    destruct (not_whitelisted cfg env case early_protection st) as [r st1].
    simpl in Hauth, Hs, Hc, Hp. subst r.
    unfold remove_authorized. rewrite Hs, Hpage. simpl.
    rewrite bool_decide_eq_true_2 by done. rewrite Hsim.
    unfold after_protect, exec, protect.
    destruct (protect_raises env (remove_call case)); simpl.
    + by rewrite Hp.
    + rewrite Hp, Hs, Hc. split; [done|]. intros _. split; [done|]. split.
      * rewrite lookup_alter_eq, Hpage. simpl. unfold protect_page. simpl.
        by destruct pop_edit_on_semiprotected as [_ ->].
      * by destruct (counter st) as [a [r1 r2 r3 r4 r5 r6 r7 r8]].
  - apply remove_protection_keeps_count.
  - apply main_unreachable_counts_zero.
Qed.

(** The bot's own protection on a redirect is lifted like any other. *)
Lemma remove_never_checks_redirect_witness :
  let outcome :=
    remove_protection shipped_config quiet_env redirect_case []
      (initial_state redirect_wiki) in
  protect_calls (snd outcome) = [remove_call redirect_case]
  ∧ (protect_raises quiet_env (remove_call redirect_case) = false →
       fst outcome = Return (RemoveReturn redirect_case)
       ∧ site (snd outcome) !! qid redirect_case = Some (mkPage true UNPROTECTED)
       ∧ Counter.removed Counter.Removed.successful (counter (snd outcome)) = 1%nat).
Proof.
  apply (proj1 (remove_never_checks_redirect shipped_config quiet_env redirect_case []
                  (initial_state redirect_wiki) [] [] [] [] redirect_wiki));
    reflexivity.
Defined.

Lemma for_cases_unlimited (step : Case → M Message) (cases : list Case)
    (processed : Z) :
  for_cases step None processed cases = process_in_order step cases.
Proof.
  revert processed. induction cases as [|case rest IH]; intros processed; [done|].
  simpl. by rewrite IH.
Qed.

Lemma for_cases_hardlimit (step : Case → M Message) (limit : Z)
    (cases : list Case) (processed : Z) :
  for_cases step (Some limit) processed cases
  = process_in_order step
      (firstn (Z.to_nat (Z.max 1 (limit - processed + 1))) cases).
Proof.
  revert processed. induction cases as [|case rest IH]; intros processed.
  { by rewrite firstn_nil. }
  destruct (Z.to_nat (Z.max 1 (limit - processed + 1))) as [|k] eqn:Hk; [lia|].
  simpl. destruct (limit <=? processed) eqn:Hle.
  - apply Z.leb_le in Hle. assert (k = 0%nat) as -> by lia. done.
  - apply Z.leb_gt in Hle. rewrite IH.
    by replace (Z.to_nat (Z.max 1 (limit - (processed + 1) + 1))) with k by lia.
Qed.

Lemma for_cases_capped (step : Case → M Message) (hardlimit : option Z)
    (cases : list Case) :
  for_cases step hardlimit 1 cases = process_in_order step (capped hardlimit cases).
Proof.
  destruct hardlimit as [limit|]; simpl.
  - rewrite for_cases_hardlimit.
    by replace (limit - 1 + 1) with limit by lia.
  - apply for_cases_unlimited.
Qed.

Lemma exceeded_limit_None (limit : option Z) (entries : nat) :
  exceeded_limit limit entries = None ↔ limit_allows limit entries.
Proof.
  unfold exceeded_limit, limit_allows. destruct limit as [l|]; [|done].
  destruct (Z.of_nat entries <=? l) eqn:Hle.
  - apply Z.leb_le in Hle. split; [|done]. by intros _ l' [= <-].
  - apply Z.leb_gt in Hle. split; [done|]. intros H. specialize (H l eq_refl). lia.
Qed.


Lemma try_print_add_returns (cfg : Config) (env : Env) (case : Case)
    (blacklist : list string) (st : State) :
  ∃ msg, try_print (add_protection cfg env case blacklist) st
         = (Return (), print msg (exec (add_protection cfg env case blacklist) st)).
Proof.
  unfold try_print, exec. rewrite add_protection_guarded.
  destruct (first_failing _); [by eexists|].
  destruct (SIMULATE cfg); [by eexists|].
  destruct (protect_raises env (add_call case)); by eexists.
Qed.

Lemma process_add_in_order_prints (cfg : Config) (env : Env)
    (blacklist : list string) (cases : list Case) (st : State) :
  fst (process_in_order (add_step cfg env blacklist) cases st) = Return ()
  ∧ length (stdout (exec (process_in_order (add_step cfg env blacklist) cases) st))
    = (length (stdout st) + length cases)%nat.
Proof.
  revert st. induction cases as [|case rest IH]; intros st.
  { unfold exec. simpl. split; [done|lia]. }
  destruct (try_print_add_returns cfg env case blacklist st) as [msg Hmsg].
  destruct (add_protection_effect cfg env case blacklist st) as (_ & _ & Ho & _).
  destruct (IH (print msg (exec (add_protection cfg env case blacklist) st)))
    as [Hr Hl].
  unfold exec at 1.
  assert (process_in_order (add_step cfg env blacklist) (case :: rest) st
          = process_in_order (add_step cfg env blacklist) rest
              (print msg (exec (add_protection cfg env case blacklist) st))) as ->.
  { simpl. unfold bind, add_step at 1. by rewrite Hmsg. }
  split; [done|]. unfold exec in *. rewrite Hl. simpl.
  rewrite length_app, Ho. simpl. lia.
Qed.

(** * Simulate mode *)

Section keyed_lists.
Context {A K : Type} (key : A → K).

Lemma NoDup_map_filter (f : A → bool) (l : list A) :
  NoDup (map key l) → NoDup (map key (List.filter f l)).
Proof.
  induction l as [|x t IH]; simpl; [intros _; constructor|].
  rewrite NoDup_cons. intros [Hx Ht].
  destruct (f x); simpl; [|by apply IH].
  apply NoDup_cons. split; [|by apply IH].
  intros Hin. apply Hx. apply list_elem_of_In in Hin. apply list_elem_of_In.
  apply in_map_iff in Hin as (y & Hk & Hy). apply filter_In in Hy as [Hy _].
  apply in_map_iff. by exists y.
Qed.

Lemma NoDup_map_firstn (n : nat) (l : list A) :
  NoDup (map key l) → NoDup (map key (firstn n l)).
Proof.
  intros Hl. rewrite <- firstn_map.
  eapply sublist_NoDup; [exact Hl | apply sublist_take].
Qed.

Lemma NoDup_map_Permutation (l l' : list A) :
  Permutation l l' → NoDup (map key l) → NoDup (map key l').
Proof. intros Hp. by rewrite (Permutation_map key Hp). Qed.

Context `{EqDecision K}.

(** A key that occurs once selects at most one row. *)
Lemma filter_key_NoDup (k : K) (l : list A) :
  NoDup (map key l) →
  List.filter (λ u, bool_decide (key u = k)) l = []
  ∨ ∃ u, List.filter (λ u, bool_decide (key u = k)) l = [u].
Proof.
  induction l as [|x t IH]; simpl; [by left|].
  rewrite NoDup_cons. intros [Hx Ht].
  destruct (decide (key x = k)) as [Hk|Hk].
  - rewrite bool_decide_eq_true_2 by done. right. exists x. f_equal.
    destruct (List.filter _ t) as [|y ys] eqn:Hf; [done|].
    exfalso. apply Hx.
    assert (In y (List.filter (λ u, bool_decide (key u = k)) t)) as Hy
      by (rewrite Hf; by left).
    apply filter_In in Hy as [Hy Hky]. apply bool_decide_eq_true in Hky.
    apply list_elem_of_In, in_map_iff. exists y. split; [congruence|done].
  - rewrite bool_decide_eq_false_2 by done. by apply IH.
Qed.
End keyed_lists.

(** Rows with a qid become cases with that qid: membership and absence of
    duplicates carry over from the frame to the cases. *)
Lemma itertuples_qids {A : Type} (row_qid : A → option string)
    (to_case : A → option Case) (frame : list A) :
  (∀ r case, to_case r = Some case → row_qid r = Some (qid case)) →
  (∀ q, In q (map qid (omap to_case frame)) → In (Some q) (map row_qid frame))
  ∧ (NoDup (map row_qid frame) → NoDup (map qid (omap to_case frame))).
Proof.
  intros Hcase.
  assert (∀ l q, In q (map qid (omap to_case l)) → In (Some q) (map row_qid l)) as Hin.
  { induction l as [|r t IH]; intros q; simpl; [done|].
    destruct (to_case r) as [case|] eqn:Hr; simpl.
    - intros [<-|Hq]; [left; by apply Hcase | right; by apply IH].
    - intros Hq. right. by apply IH. }
  split; [apply Hin|].
  induction frame as [|r t IH]; simpl; [intros _; constructor|].
  rewrite NoDup_cons. intros [Hr Ht].
  destruct (to_case r) as [case|] eqn:Hc; simpl; [|by apply IH].
  apply NoDup_cons. split; [|by apply IH].
  intros Hq. apply Hr. rewrite (Hcase r case Hc).
  apply list_elem_of_In, Hin. by apply list_elem_of_In.
Qed.

Lemma itertuples_add_qids (frame : list Usage.row) :
  (∀ q, In q (map qid (itertuples_add frame)) → In (Some q) (map Usage.qid frame))
  ∧ (NoDup (map Usage.qid frame) → NoDup (map qid (itertuples_add frame))).
Proof.
  apply itertuples_qids. intros r case. simpl.
  destruct (Usage.qid r); [|done]. by intros [= <-].
Qed.

Lemma itertuples_lift_qids (frame : list Merged.row) :
  (∀ q, In q (map qid (itertuples_lift frame)) → In (Some q) (map Merged.qid frame))
  ∧ (NoDup (map Merged.qid frame) → NoDup (map qid (itertuples_lift frame))).
Proof.
  apply itertuples_qids. intros r case. simpl.
  destruct (Merged.qid r); [|done]. by intros [= <-].
Qed.

Lemma filter_comm {A : Type} (f g : A → bool) (l : list A) :
  List.filter g (List.filter f l) = List.filter f (List.filter g l).
Proof.
  rewrite !filter_filter_andb. apply filter_ext. intros x. apply andb_comm.
Qed.

Lemma filter_absorb {A : Type} (f g : A → bool) (l : list A) :
  (∀ x, f x = true → g x = true) →
  List.filter f l = List.filter f (List.filter g l).
Proof.
  intros Himp. rewrite filter_filter_andb. apply filter_ext. intros x.
  destruct (f x) eqn:Hf; [by rewrite (Himp x Hf)|]. by rewrite andb_false_r.
Qed.

(** When no qid occurs twice among the rows that have one, the rows that
    [dropna] keeps have distinct qid cells. *)
Lemma dropna_usage_NoDup (top : list Usage.row) :
  NoDup (omap Usage.qid top) → NoDup (map Usage.qid (dropna_usage top)).
Proof.
  unfold dropna_usage. induction top as [|r t IH]; simpl; [intros _; constructor|].
  destruct (Usage.qid r) as [q|] eqn:Hq; simpl.
  - rewrite !NoDup_cons. intros [Hfresh Ht]. split; [|by apply IH].
    intros Hin. apply Hfresh. apply list_elem_of_In, in_map_iff in Hin as (y & Hy & Hin).
    apply filter_In in Hin as [Hin _].
    apply list_elem_of_omap. exists y. split; [by apply list_elem_of_In|congruence].
  - apply IH.
Qed.

Lemma merge_left_qids (left : list Protection.row) (top : list Usage.row) :
  NoDup (omap Usage.qid top) →
  Forall (λ r, is_Some (Protection.qid r)) left →
  map Merged.qid (merge_left left top) = map Protection.qid left.
Proof.
  intros Htop Hleft. rewrite merge_left_map_qid. unfold join_rows.
  induction Hleft as [|r t Hr _ IH]; [done|].
  cbn [flat_map map]. rewrite map_app, IH. unfold merge_row.
  rewrite (filter_absorb _ (λ u, bool_decide (is_Some (Usage.qid u))) top).
  - fold (dropna_usage top).
    by destruct (filter_key_NoDup Usage.qid (Protection.qid r) (dropna_usage top)
                   (dropna_usage_NoDup top Htop)) as [->|[u ->]].
  - intros u Hu. apply bool_decide_eq_true in Hu. apply bool_decide_eq_true.
    by rewrite Hu.
Qed.

Lemma protection_missing_NoDup (cfg : Config)
    (top : list Usage.row) (protected : list Protection.row) :
  NoDup (omap Usage.qid top) →
  NoDup (map Usage.qid (protection_missing cfg top protected)).
Proof.
  intros Htop. unfold protection_missing.
  eapply NoDup_map_Permutation; [symmetry; apply sort_values_Permutation|].
  unfold dropna_usage at 1. rewrite filter_comm.
  by apply NoDup_map_filter, dropna_usage_NoDup.
Qed.

Lemma protection_to_lift_NoDup (cfg : Config)
    (top : list Usage.row) (protected : list Protection.row) :
  NoDup (omap Usage.qid top) → NoDup (map Protection.qid protected) →
  NoDup (map Merged.qid (protection_to_lift cfg top protected)).
Proof.
  intros Htop Hprot. unfold protection_to_lift, sort_by_usage_desc.
  eapply NoDup_map_Permutation; [symmetry; apply sort_values_Permutation|].
  rewrite merge_left_qids; [|done|].
  - unfold dropna_protection. by do 2 apply NoDup_map_filter.
  - apply Forall_forall. intros r Hr. unfold dropna_protection in Hr.
    apply list_elem_of_In, filter_In in Hr as [_ Hr].
    apply andb_true_iff in Hr as [Hr _]. by apply bool_decide_eq_true in Hr.
Qed.

Lemma add_step_simulates (cfg : Config) (env : Env) (blacklist : list string) :
  (∀ call, protect_raises env call = false) →
  simulates (add_step (with_simulate true cfg) env blacklist)
            (add_step (with_simulate false cfg) env blacklist).
Proof.
  intros Hok case s r (Hc & Ho & Hq) Hpage. unfold add_step.
  rewrite !add_protection_guarded.
  assert (add_guards_from
            (negb (nan_lt (entityUsageCount case)
                     (ENTITYUSAGELIMIT (with_simulate true cfg))))
            (with_simulate true cfg) env case blacklist s
          = add_guards_from
              (negb (nan_lt (entityUsageCount case)
                       (ENTITYUSAGELIMIT (with_simulate false cfg))))
              (with_simulate false cfg) env case blacklist r) as ->.
  { unfold add_guards_from. simpl. by rewrite Hpage. }
  destruct (first_failing _) as [k|]; simpl.
  - unfold same_report. simpl. rewrite Hc, Ho, Hq. by repeat split.
  - rewrite Hok. unfold same_report, after_protect, exec, protect. rewrite Hok. simpl.
    rewrite Hc, Ho, Hq. repeat split; try done.
    intros q Hne. by rewrite lookup_alter_ne.
Qed.

Lemma remove_step_simulates (cfg : Config) (env : Env) (early : list Early.row) :
  (∀ call, protect_raises env call = false) →
  simulates (remove_step (with_simulate true cfg) env early)
            (remove_step (with_simulate false cfg) env early).
Proof.
  intros Hok case s r (Hc & Ho & Hq) Hpage. unfold remove_step.
  rewrite !remove_protection_guarded. simpl.
  destruct (nan_ge _ _).
  { unfold same_report. simpl. rewrite Hc, Ho, Hq. by repeat split. }
  assert (∀ s1 r1 : State,
            counter s1 = counter r1 → stdout s1 = stdout r1 →
            replica_queries s1 = replica_queries r1 →
            site s1 = site s → site r1 = site r →
            let a := remove_authorized (with_simulate true cfg) env case s1 in
            let b := remove_authorized (with_simulate false cfg) env case r1 in
            fst a = fst b ∧ same_report (snd a) (snd b) ∧ site (snd a) = site s
            ∧ (∀ q, q ≠ qid case → site (snd b) !! q = site r !! q)) as Hauth.
  { intros s1 r1 Hc1 Ho1 Hq1 Hs1 Hr1. unfold remove_authorized. simpl.
    rewrite Hs1, Hr1, Hpage.
    destruct (protection <$> site r !! qid case) as [cur|]; simpl.
    - destruct (bool_decide (cur = SEMIPROTECTED)); simpl.
      + rewrite Hok. unfold same_report, after_protect, exec, protect.
        rewrite Hok. simpl. rewrite Hc1, Ho1, Hq1, Hs1, Hr1.
        repeat split; try done. intros q Hne. by rewrite lookup_alter_ne.
      + unfold same_report. simpl. rewrite Hc1, Ho1, Hq1, Hs1, ?Hr1. by repeat split.
    - unfold same_report. simpl. rewrite Hc1, Ho1, Hq1, Hs1, ?Hr1. by repeat split. }
  rewrite !not_whitelisted_cases. simpl.
  destruct (username_isin _ _); [by apply Hauth|].
  destruct (early_protection_of early case) as [|grant [|grant' rest]].
  - unfold same_report. simpl. rewrite Hc, Ho, Hq. by repeat split.
  - destruct (latest_protect_action env (qid case)) as [row|].
    + destruct (negb _).
      * unfold same_report. simpl. rewrite Hc, Ho, Hq. by repeat split.
      * apply Hauth; simpl; congruence.
    + unfold same_report. simpl. rewrite Hc, Ho, Hq. by repeat split.
  - unfold same_report. simpl. rewrite Hc, Ho, Hq. by repeat split.
Qed.

Lemma same_report_print (msg : Message) (s r : State) :
  same_report s r → same_report (print msg s) (print msg r).
Proof. intros (Hc & Ho & Hq). unfold same_report. simpl. by rewrite Hc, Ho, Hq. Qed.

(** Running simulated and real steps over cases with distinct qids keeps
    the two runs together. *)
Lemma process_in_order_simulates (step_s step_r : Case → M Message) :
  simulates step_s step_r →
  ∀ cases s r,
    NoDup (map qid cases) →
    same_report s r →
    (∀ q, In q (map qid cases) → site s !! q = site r !! q) →
    fst (process_in_order step_s cases s) = fst (process_in_order step_r cases r)
    ∧ same_report (snd (process_in_order step_s cases s))
                  (snd (process_in_order step_r cases r))
    ∧ site (snd (process_in_order step_s cases s)) = site s
    ∧ (∀ q, ¬ In q (map qid cases) →
            site (snd (process_in_order step_r cases r)) !! q = site r !! q).
Proof.
  intros Hsim. induction cases as [|case rest IH]; intros s r Hnd Hrep Hagree.
  { simpl. by auto. }
  simpl in Hnd. apply NoDup_cons in Hnd as [Hfresh Hnd].
  destruct (Hsim case s r Hrep (Hagree _ (or_introl eq_refl)))
    as (Hres & Hrep1 & Hsite_s & Hsite_r).
  cbn [process_in_order foldr]. unfold bind, try_print.
  destruct (step_s case s) as [res_s s1], (step_r case r) as [res_r r1].
  simpl in Hres, Hrep1, Hsite_s, Hsite_r. subst res_r.
  assert (∀ msg,
    fst (process_in_order step_s rest (print msg s1))
    = fst (process_in_order step_r rest (print msg r1))
    ∧ same_report (snd (process_in_order step_s rest (print msg s1)))
                  (snd (process_in_order step_r rest (print msg r1)))
    ∧ site (snd (process_in_order step_s rest (print msg s1))) = site s
    ∧ (∀ q, ¬ In q (map qid (case :: rest)) →
            site (snd (process_in_order step_r rest (print msg r1))) !! q
            = site r !! q)) as Hnext.
  { intros msg.
    destruct (IH (print msg s1) (print msg r1) Hnd (same_report_print msg _ _ Hrep1))
      as (H1 & H2 & H3 & H4).
    - intros q Hq. simpl. rewrite Hsite_s, Hsite_r.
      + apply Hagree. by right.
      + intros ->. apply Hfresh. by apply list_elem_of_In.
    - split; [done|]. split; [done|]. split; [by rewrite H3|].
      intros q Hq. rewrite H4 by (intros ?; apply Hq; by right).
      simpl. apply Hsite_r. intros ->. apply Hq. by left. }
  assert (∀ q, ¬ In q (map qid (case :: rest)) → site r1 !! q = site r !! q) as Hstop.
  { intros q Hq. apply Hsite_r. intros ->. apply Hq. by left. }
  destruct res_s as [msg|[msg|msg| | | | | |]]; simpl; try apply Hnext; by auto.
Qed.

Lemma capped_In (hardlimit : option Z) (cases : list Case) q :
  In q (map qid (capped hardlimit cases)) → In q (map qid cases).
Proof.
  destruct hardlimit as [limit|]; simpl; [|done].
  intros Hq. rewrite <- (firstn_skipn (Z.to_nat (Z.max 1 limit)) cases), map_app.
  apply in_or_app. by left.
Qed.

Lemma capped_NoDup (hardlimit : option Z) (cases : list Case) :
  NoDup (map qid cases) → NoDup (map qid (capped hardlimit cases)).
Proof.
  destruct hardlimit as [limit|]; simpl; [|done]. apply NoDup_map_firstn.
Qed.

(** A pass over candidates with distinct qids: the simulated pass and the
    real pass end with the same result and report. *)
Lemma pass_simulates (step_s step_r : Case → M Message) (limit hardlimit : option Z)
    (entries : nat) (skipped : Z → Message) (cases : list Case) (s r : State) :
  simulates step_s step_r →
  NoDup (map qid cases) →
  same_report s r →
  (∀ q, In q (map qid cases) → site s !! q = site r !! q) →
  let pass (step : Case → M Message) : M unit :=
    match exceeded_limit limit entries with
    | None => for_cases step hardlimit 1 cases
    | Some l => λ st, (Return (), print (skipped l) st)
    end in
  fst (pass step_s s) = fst (pass step_r r)
  ∧ same_report (snd (pass step_s s)) (snd (pass step_r r))
  ∧ site (snd (pass step_s s)) = site s
  ∧ (∀ q, ¬ In q (map qid cases) → site (snd (pass step_r r)) !! q = site r !! q).
Proof.
  intros Hsim Hnd Hrep Hagree pass. subst pass. simpl.
  destruct (exceeded_limit limit entries) as [l|].
  { simpl. split; [done|]. split; [by apply same_report_print|]. done. }
  rewrite !for_cases_capped.
  destruct (process_in_order_simulates step_s step_r Hsim (capped hardlimit cases) s r)
    as (H1 & H2 & H3 & H4).
  - by apply capped_NoDup.
  - done.
  - intros q Hq. apply Hagree. by apply capped_In in Hq.
  - split; [done|]. split; [done|]. split; [done|].
    intros q Hq. apply H4. intros Hin. apply Hq. by apply capped_In in Hin.
Qed.

Lemma lift_pass_simulates (cfg : Config) (env : Env) (early : list Early.row)
    (to_lift : list Merged.row) (s r : State) :
  (∀ call, protect_raises env call = false) →
  NoDup (map qid (itertuples_lift to_lift)) →
  same_report s r →
  (∀ q, In q (map qid (itertuples_lift to_lift)) → site s !! q = site r !! q) →
  let sim := lift_pass (with_simulate true cfg) env early to_lift s in
  let real := lift_pass (with_simulate false cfg) env early to_lift r in
  fst sim = fst real
  ∧ same_report (snd sim) (snd real)
  ∧ site (snd sim) = site s
  ∧ (∀ q, ¬ In q (map qid (itertuples_lift to_lift)) → site (snd real) !! q = site r !! q).
Proof.
  intros Hok Hnd Hrep Hagree.
  exact (pass_simulates
           (remove_step (with_simulate true cfg) env early)
           (remove_step (with_simulate false cfg) env early)
           (LIFTLIMIT cfg) (HARDLIMIT cfg) (length to_lift)
           (DoNotLift (length to_lift)) (itertuples_lift to_lift) s r
           (remove_step_simulates cfg env early Hok) Hnd Hrep Hagree).
Qed.

Lemma add_pass_simulates (cfg : Config) (env : Env) (blacklist : list string)
    (to_add : list Usage.row) (s r : State) :
  (∀ call, protect_raises env call = false) →
  NoDup (map qid (itertuples_add to_add)) →
  same_report s r →
  (∀ q, In q (map qid (itertuples_add to_add)) → site s !! q = site r !! q) →
  let sim := add_pass (with_simulate true cfg) env blacklist to_add s in
  let real := add_pass (with_simulate false cfg) env blacklist to_add r in
  fst sim = fst real
  ∧ same_report (snd sim) (snd real)
  ∧ site (snd sim) = site s
  ∧ (∀ q, ¬ In q (map qid (itertuples_add to_add)) → site (snd real) !! q = site r !! q).
Proof.
  intros Hok Hnd Hrep Hagree.
  exact (pass_simulates
           (add_step (with_simulate true cfg) env blacklist)
           (add_step (with_simulate false cfg) env blacklist)
           (ADDLIMIT cfg) (HARDLIMIT cfg) (length to_add)
           (DoNotAdd (length to_add)) (itertuples_add to_add) s r
           (add_step_simulates cfg env blacklist Hok) Hnd Hrep Hagree).
Qed.

Lemma run_passes_simulates (cfg : Config) (env : Env)
    (indef : list Protection.row) (early : list Early.row)
    (top : list Usage.row) (blacklist : list string) (st : State) :
  (∀ call, protect_raises env call = false) →
  NoDup (omap Usage.qid top) →
  NoDup (map Protection.qid indef) →
  let sim := run_passes (with_simulate true cfg) env indef early top blacklist st in
  let real := run_passes (with_simulate false cfg) env indef early top blacklist st in
  fst sim = fst real ∧ same_report (snd sim) (snd real).
Proof.
  intros Hok Htop Hindef. simpl. unfold run_passes, bind.
  change (protection_to_lift (with_simulate true cfg) top
            (protected_highly_used_items (with_simulate true cfg) indef early))
    with (protection_to_lift cfg top (protected_highly_used_items cfg indef early)).
  change (protection_to_lift (with_simulate false cfg) top
            (protected_highly_used_items (with_simulate false cfg) indef early))
    with (protection_to_lift cfg top (protected_highly_used_items cfg indef early)).
  change (protection_missing (with_simulate true cfg) top indef)
    with (protection_missing cfg top indef).
  change (protection_missing (with_simulate false cfg) top indef)
    with (protection_missing cfg top indef).
  set (to_lift := protection_to_lift cfg top (protected_highly_used_items cfg indef early)).
  set (to_add := protection_missing cfg top indef).
  assert (NoDup (map qid (itertuples_lift to_lift))) as Hnd_lift.
  { apply itertuples_lift_qids, protection_to_lift_NoDup; [done|].
    unfold protected_highly_used_items. by apply NoDup_map_filter. }
  assert (NoDup (map qid (itertuples_add to_add))) as Hnd_add.
  { by apply itertuples_add_qids, protection_missing_NoDup. }
  assert (∀ q, In q (map qid (itertuples_add to_add)) →
               ¬ In q (map qid (itertuples_lift to_lift))) as Hdisjoint.
  { intros q Ha Hl.
    apply itertuples_add_qids, protection_missing_unprotected in Ha.
    apply itertuples_lift_qids, protection_to_lift_protected in Hl as [_ Hl].
    by apply Ha. }
  destruct (lift_pass_simulates cfg env early to_lift st st Hok Hnd_lift)
    as (H1 & H2 & H3 & H4); [done|done|].
  destruct (lift_pass (with_simulate true cfg) env early to_lift st) as [res_s s1].
  destruct (lift_pass (with_simulate false cfg) env early to_lift st) as [res_r r1].
  simpl in H1, H2, H3, H4. subst res_r.
  destruct res_s as [[]|e]; [|done].
  destruct (add_pass_simulates cfg env blacklist to_add s1 r1 Hok Hnd_add H2)
    as (G1 & G2 & _); [|done].
  intros q Hq. rewrite H3, H4; [done|]. by apply Hdisjoint.
Qed.

Lemma loaded_toplist_qids (env : Env) (lines : list CsvLine) (rows : list Usage.row) :
  get_list_of_highly_used_items_from_wdcm env lines = Return rows →
  omap Usage.qid rows = omap field_qid (tail lines).
Proof.
  intros Hm. apply loaded_rows_typed, mapM_Some in Hm.
  induction Hm as [|line r ls rs Hr _ IH]; [done|].
  apply typed_row_Some in Hr as [Hr _].
  cbn [omap list_omap]. rewrite Hr. fold (omap Usage.qid rs) (omap field_qid ls).
  by rewrite IH.
Qed.

Lemma simulated_step_keeps_wiki (cfg : Config) (env : Env) (st0 : State) :
  let I st := site st = site st0 ∧ protect_calls st = protect_calls st0 in
  (∀ case blacklist st,
     I st → I (exec (add_protection (with_simulate true cfg) env case blacklist) st))
  ∧ (∀ case early_protection st,
       I st →
       I (exec (remove_protection (with_simulate true cfg) env case early_protection) st)).
Proof.
  simpl. split.
  - intros case blacklist st [Hs Hp].
    destruct (add_protection_effect (with_simulate true cfg) env case blacklist st)
      as (_ & _ & _ & [->|[[=] _]] & [->|[[=] _]]).
    done.
  - intros case early_protection st [Hs Hp]. unfold exec.
    destruct (remove_protection_effect (with_simulate true cfg) env case
                early_protection st)
      as (_ & _ & [->|[[=] _]] & [->|[[=] _]]).
    done.
Qed.

(** The statistics and the report of a simulated and of a real run that
    counted and printed the same: the same lines, the same end. *)
Lemma report_simulates (cfg : Config) (env : Env)
    (indef : list Protection.row) (early : list Early.row)
    (top : list Usage.row) (blacklist : list string) (s r : State) :
  counter s = counter r → stdout s = stdout r →
  let sim := report (with_simulate true cfg) env indef early top blacklist s in
  let real := report (with_simulate false cfg) env indef early top blacklist r in
  fst sim = fst real
  ∧ counter (snd sim) = counter (snd real)
  ∧ stdout (snd sim) = stdout (snd real).
Proof.
  intros Hc Hs. unfold report, bind, print_statistics, make_report.
  change (cooldown_qids (with_simulate true cfg) indef early top)
    with (cooldown_qids cfg indef early top).
  change (cooldown_qids (with_simulate false cfg) indef early top)
    with (cooldown_qids cfg indef early top).
  destruct (get_number_of_items env =? 0); cbn [fst snd].
  - simpl. by rewrite Hc, Hs.
  - destruct (cooldown_qids cfg indef early top); cbn [fst snd].
    + do 2 destruct (report_page_saved _ _ _); simpl; by rewrite Hc, Hs.
    + simpl. by rewrite Hc, Hs.
Qed.

(** C5, as stated, fails: over the same inputs, when the protection calls
    of the real run fail, the real run counts savefailed where the
    simulated run, which makes no call, counts successful. *)
Lemma simulate_counts_differ_when_call_fails :
  let sim :=
    main (with_simulate true shipped_config) failing_env protected_by_bot []
         toplist_file [] (initial_state small_wiki) in
  let real :=
    main (with_simulate false shipped_config) failing_env protected_by_bot []
         toplist_file [] (initial_state small_wiki) in
  Counter.added Counter.Added.successful (counter (snd sim)) = 1%nat
  ∧ Counter.added Counter.Added.successful (counter (snd real)) = 0%nat
  ∧ Counter.added Counter.Added.savefailed (counter (snd real)) = 1%nat
  ∧ Counter.removed Counter.Removed.successful (counter (snd sim)) = 1%nat
  ∧ Counter.removed Counter.Removed.savefailed (counter (snd real)) = 1%nat
  ∧ counter (snd sim) ≠ counter (snd real).
Proof. vm_compute. repeat split; discriminate. Qed.

(** C5, amended: a simulated run issues no protection call and leaves the
    wiki as it was; and when no protection call of the real run fails and
    no qid occurs twice in the toplist, the simulated run and the real run
    over the same inputs end the same way, with the same outcome counters
    and the same printed lines. *)
Theorem simulate_is_dry_run (cfg : Config) (env : Env)
    (query_result : list Protection.row) (file_rows : list Early.row)
    (lines : list CsvLine) (blacklist : list string) (st : State) :
  let sim :=
    main (with_simulate true cfg) env query_result file_rows lines blacklist st in
  let real :=
    main (with_simulate false cfg) env query_result file_rows lines blacklist st in
  site (snd sim) = site st
  ∧ protect_calls (snd sim) = protect_calls st
  ∧ ((∀ call, protect_raises env call = false) →
     NoDup (omap field_qid (tail lines)) →
       fst sim = fst real
       ∧ counter (snd sim) = counter (snd real)
       ∧ stdout (snd sim) = stdout (snd real)).
Proof.
  intros sim real. split; [|split].
  - destruct (simulated_step_keeps_wiki cfg env st) as [Ha Hr].
    apply (main_preserves
             (λ st', site st' = site st ∧ protect_calls st' = protect_calls st));
      done.
  - destruct (simulated_step_keeps_wiki cfg env st) as [Ha Hr].
    apply (main_preserves
             (λ st', site st' = site st ∧ protect_calls st' = protect_calls st));
      done.
  - intros Hok Hlines. subst sim real. unfold main, bind, load.
    destruct (get_indefinitely_semiprotected_items query_result) as [indef|e] eqn:Hi;
      [|done].
    destruct (get_list_of_highly_used_items_from_wdcm env lines) as [top|e] eqn:Ht;
      [|done].
    destruct (run_passes_simulates cfg env indef (get_early_item_protections file_rows)
                top blacklist st Hok) as (H1 & H2 & H3 & _).
    + by rewrite (loaded_toplist_qids env lines top Ht).
    + unfold get_indefinitely_semiprotected_items in Hi.
      destruct query_result as [|row rows]; [done|]. injection Hi as <-.
      apply drop_duplicates_last_NoDup.
    + destruct (run_passes (with_simulate true cfg) env indef _ top blacklist st)
        as [res_s s].
      destruct (run_passes (with_simulate false cfg) env indef _ top blacklist st)
        as [res_r r].
      simpl in H1, H2, H3. subst res_r. destruct res_s as [[]|e]; [|done].
      by apply report_simulates.
Qed.

(** With calls that succeed, the simulated and the real run of the small
    example count alike. *)
Lemma simulate_is_dry_run_witness :
  let sim :=
    main (with_simulate true shipped_config) quiet_env protected_by_bot []
         toplist_file [] (initial_state small_wiki) in
  let real :=
    main (with_simulate false shipped_config) quiet_env protected_by_bot []
         toplist_file [] (initial_state small_wiki) in
  fst sim = fst real
  ∧ counter (snd sim) = counter (snd real)
  ∧ stdout (snd sim) = stdout (snd real).
Proof.
  apply (proj2 (proj2 (simulate_is_dry_run shipped_config quiet_env protected_by_bot
                         [] toplist_file [] (initial_state small_wiki)))).
  - reflexivity.
  - simpl. apply NoDup_singleton.
Defined.

(** * A worked run *)

Example latest_row_is_kept :
  get_indefinitely_semiprotected_items raw_protection_rows
  = Return [ Protection.mk (Some "Q2") 5 (Some "C");
             Protection.mk (Some "Q1") 30 (Some "B") ].
Proof. reflexivity. Qed.

Example policy_to_add :
  protection_missing shipped_config policy_toplist policy_protections
  = [Usage.mk (Some "W") 900; Usage.mk (Some "X") 600].
Proof. reflexivity. Qed.

Example policy_to_lift :
  protection_to_lift shipped_config policy_toplist
    (protected_highly_used_items shipped_config policy_protections [])
  = [ Merged.mk (Some "Y") 2 (Some "MsynABot") (Some 100);
      Merged.mk (Some "V") 3 (Some "MsynABot") None ].
Proof. reflexivity. Qed.

Example policy_in_cooldown :
  protection_in_cooldown shipped_config policy_toplist
    (protected_highly_used_items shipped_config policy_protections [])
  = [Merged.mk (Some "Z") 1 (Some "MsynABot") (Some 350)].
Proof. reflexivity. Qed.

(** The run lifts Y and V, refuses the deny-listed W, protects X, and
    leaves Z and U alone. *)
Example policy_run :
  let final :=
    exec (run_passes shipped_config quiet_env policy_protections []
            policy_toplist ["W"])
         (initial_state policy_wiki) in
  stdout final
  = [ RemoveReturn (mkCase "Y" (Some 100) (Some "MsynABot"));
      RemoveReturn (mkCase "V" None (Some "MsynABot"));
      AddWarning Counter.Added.blacklisted (mkCase "W" (Some 900) None);
      AddReturn (mkCase "X" (Some 600) None) ]
  ∧ protect_calls final
    = [ remove_call (mkCase "Y" (Some 100) (Some "MsynABot"));
        remove_call (mkCase "V" None (Some "MsynABot"));
        add_call (mkCase "X" (Some 600) None) ]
  ∧ site final !! "X" = Some (mkPage false SEMIPROTECTED)
  ∧ site final !! "Y" = Some (mkPage false UNPROTECTED)
  ∧ site final !! "Z" = Some (mkPage false SEMIPROTECTED)
  ∧ site final !! "W" = Some (mkPage false UNPROTECTED).
Proof. vm_compute. repeat split. Qed.

(** The hard limit is tested after a case has been handled: with a limit
    of zero each pass still handles its first candidate. *)
Example zero_hardlimit_handles_one_case :
  stdout (exec (run_passes zero_hardlimit_config quiet_env policy_protections []
                  policy_toplist ["W"])
               (initial_state policy_wiki))
  = [ RemoveReturn (mkCase "Y" (Some 100) (Some "MsynABot"));
      AddWarning Counter.Added.blacklisted (mkCase "W" (Some 900) None) ].
Proof. reflexivity. Qed.

(** * The other sets of the classifier *)

Lemma filter_split_Permutation {A : Type} (f : A → bool) (l : list A) :
  Permutation l (List.filter f l ++ List.filter (λ x, negb (f x)) l).
Proof.
  induction l as [|x t IH]; simpl; [done|].
  destruct (f x); simpl.
  - by constructor.
  - by apply Permutation_cons_app.
Qed.

(** X1: the trusted and the untrusted protections split the protection
    table: every row is in exactly one of [protected_highly_used_items]
    and [protected_not_highly_used_items], and a row is trusted exactly
    when its qid has an early-protection row or its protecting user is a
    whitelisted administrator. *)
Theorem protections_split_by_trust (cfg : Config)
    (protected : list Protection.row) (early : list Early.row) :
  let trusted := protected_highly_used_items cfg protected early in
  let untrusted := protected_not_highly_used_items cfg protected early in
  Permutation protected (trusted ++ untrusted)
  ∧ Forall (λ r, ¬ In r untrusted) trusted
  ∧ (∀ r, In r trusted
          ↔ In r protected
            ∧ (In (Protection.qid r) (map Early.qid early)
               ∨ ∃ name, Protection.username r = Some name
                         ∧ In name (WHITELISTED_ADMINS cfg))).
Proof.
  intros trusted untrusted. subst trusted untrusted.
  unfold protected_highly_used_items, protected_not_highly_used_items.
  split; [|split].
  - erewrite (filter_ext (λ r, negb (isin (Protection.qid r) (map Early.qid early))
                               && negb (username_isin (Protection.username r)
                                          (WHITELISTED_ADMINS cfg)))).
    + apply filter_split_Permutation.
    + intros r. simpl. by rewrite negb_orb.
  - apply Forall_forall. intros r Hr Hu.
    apply list_elem_of_In, filter_In in Hr as [_ Hr].
    apply filter_In in Hu as [_ Hu].
    rewrite <- negb_orb, Hr in Hu. done.
  - intros r. rewrite filter_In, orb_true_iff, isin_In. unfold username_isin.
    destruct (Protection.username r) as [name|].
    + rewrite isin_In. split.
      * intros [Hr [Hq|Hn]]; [by auto|]. split; [done|]. right. by exists name.
      * intros [Hr [Hq|(name' & [= <-] & Hn)]]; by auto.
    + split.
      * intros [Hr [Hq|[=]]]. by auto.
      * intros [Hr [Hq|(name & [=] & _)]]. by auto.
Qed.

Lemma join_rows_row (left : list Protection.row) (top : list Usage.row) m :
  In m (join_rows left top) →
  ∃ r, In r left
       ∧ Merged.qid m = Protection.qid r
       ∧ Merged.username m = Protection.username r
       ∧ match Merged.entityUsageCount m with
         | Some u => In (Usage.mk (Protection.qid r) u) top
         | None => ¬ In (Protection.qid r) (map Usage.qid top)
         end.
Proof.
  unfold join_rows. intros Hm. apply in_flat_map in Hm as (r & Hr & Hm).
  exists r. split; [done|]. unfold merge_row in Hm.
  destruct (List.filter _ top) as [|u us] eqn:Hf.
  - destruct Hm as [<-|[]]. simpl. repeat split.
    intros Hin. apply in_map_iff in Hin as (u & Hq & Hu).
    assert (In u (List.filter (λ u, bool_decide (Usage.qid u = Protection.qid r)) top))
      as Hin.
    { apply filter_In. split; [done|]. by apply bool_decide_eq_true. }
    by rewrite Hf in Hin.
  - apply in_map_iff in Hm as (u' & <- & Hu'). simpl. repeat split.
    rewrite <- Hf in Hu'. apply filter_In in Hu' as [Hu' Hq].
    apply bool_decide_eq_true in Hq. rewrite <- Hq. by destruct u'.
Qed.

(** A row of the merged frame: its count is absent when the toplist has
    no row of its qid, and otherwise is the count of such a row, exactly or
    as a float. *)
Lemma merge_left_row (left : list Protection.row) (top : list Usage.row) m :
  In m (merge_left left top) →
  ∃ r, In r left
       ∧ Merged.qid m = Protection.qid r
       ∧ Merged.username m = Protection.username r
       ∧ match Merged.entityUsageCount m with
         | Some v => ∃ u, In (Usage.mk (Protection.qid r) u) top
                          ∧ (v = u ∨ v = float64_of_int u)
         | None => ¬ In (Protection.qid r) (map Usage.qid top)
         end.
Proof.
  intros Hm. apply merge_left_rows in Hm as (m0 & Hm0 & Hq & Hu & Hc).
  apply join_rows_row in Hm0 as (r & Hr & Hq0 & Hu0 & Hc0).
  exists r. rewrite Hq, Hu. do 3 (split; [done|]).
  destruct (Merged.entityUsageCount m0) as [u|];
    destruct Hc as [-> | ->]; simpl; try done; exists u; by auto.
Qed.

Lemma desc_nan_last_usage_desc (a b : option Z) :
  desc_nan_last a b = true → usage_desc a b.
Proof. destruct a, b; simpl; try done. apply Z.leb_le. Qed.

Lemma sort_by_usage_desc_Sorted (rows : list Merged.row) :
  Sorted (λ a b, usage_desc (Merged.entityUsageCount a) (Merged.entityUsageCount b))
         (sort_by_usage_desc rows).
Proof.
  unfold sort_by_usage_desc.
  eapply Sorted_weaken; [|apply sort_values_Sorted].
  - intros a b. apply desc_nan_last_usage_desc.
  - intros x y. destruct (Merged.entityUsageCount x), (Merged.entityUsageCount y);
      simpl; try done.
    intros Hxy. apply Z.leb_le. apply Z.leb_gt in Hxy. lia.
Qed.

Example float64_of_int_ties_to_even :
  float64_of_int 9007199254740993 = 9007199254740992
  ∧ float64_of_int (-9007199254740993) = -9007199254740992
  ∧ float64_of_int 9007199254740995 = 9007199254740996
  ∧ float64_of_int 600 = 600.
Proof. repeat split. Qed.

(** Integers below 2^53 in magnitude are floats as they are. *)
Lemma float64_of_int_exact (n : Z) :
  Z.abs n < 2 ^ 53 → float64_of_int n = n.
Proof.
  intros Hn. unfold float64_of_int.
  destruct (Z.leb_spec (Z.log2 (Z.abs n) - 52) 0) as [|Hbig]; [reflexivity|].
  exfalso.
  destruct (Z.eq_dec (Z.abs n) 0) as [Hz|Hz].
  { rewrite Hz in Hbig. simpl in Hbig. lia. }
  assert (Z.log2 (Z.abs n) < 53); [|lia].
  apply Z.log2_lt_pow2; lia.
Qed.

Lemma float64_of_int_magnitude (n : Z) :
  2 ^ 53 ≤ Z.abs n → 2 ^ 53 ≤ Z.abs (float64_of_int n).
Proof.
  intros Hn. unfold float64_of_int.
  destruct (Z.leb_spec (Z.log2 (Z.abs n) - 52) 0) as [|Hbig]; [done|].
  set (a := Z.abs n) in *. set (e := Z.log2 a - 52) in *.
  assert (0 < a) as Ha by lia.
  assert (2 ^ (52 + e) ≤ a) as Hlow.
  { replace (52 + e) with (Z.log2 a) by (subst e; lia).
    apply Z.log2_spec. lia. }
  rewrite Z.pow_add_r in Hlow by lia.
  assert (2 ≤ 2 ^ e) as Hunit.
  { change 2 with (2 ^ 1) at 1. apply Z.pow_le_mono_r; lia. }
  assert (2 ^ 52 ≤ a / 2 ^ e) as Hq.
  { apply Z.div_le_lower_bound; lia. }
  set (q := a / 2 ^ e) in *.
  rewrite Z.abs_mul.
  assert (Z.abs (Z.sgn n) = 1) as -> by lia.
  change (2 ^ 53) with (2 ^ 52 * 2).
  match goal with |- context [if ?b then _ else _] => destruct b end;
    rewrite Z.abs_eq by nia; nia.
Qed.

Lemma float64_of_int_sign (n : Z) : n < 0 → float64_of_int n ≤ 0.
Proof.
  intros Hn. unfold float64_of_int.
  destruct (Z.leb_spec (Z.log2 (Z.abs n) - 52) 0) as [|Hbig]; [lia|].
  set (e := Z.log2 (Z.abs n) - 52) in *.
  set (q := Z.abs n / 2 ^ e).
  assert (0 ≤ q) by (apply Z.div_pos; [lia|apply Z.pow_pos_nonneg; lia]).
  assert (0 < 2 ^ e) by (apply Z.pow_pos_nonneg; lia).
  assert (Z.sgn n = -1) as -> by lia.
  match goal with |- context [if ?b then _ else _] => destruct b end; nia.
Qed.

Lemma float64_of_int_below (u c : Z) :
  - 2 ^ 53 < c ≤ 2 ^ 53 → u < c → float64_of_int u < c.
Proof.
  intros Hc Hu.
  destruct (Z.lt_ge_cases (Z.abs u) (2 ^ 53)) as [Hsmall|Hbig].
  { by rewrite float64_of_int_exact. }
  assert (u < 0) as Hneg by lia.
  pose proof (float64_of_int_magnitude u Hbig).
  pose proof (float64_of_int_sign u Hneg). lia.
Qed.

Lemma protection_to_lift_rows (cfg : Config)
    (top : list Usage.row) (protected : list Protection.row) m :
  In m (protection_to_lift cfg top protected) →
  ∃ r, In r protected
       ∧ Merged.qid m = Protection.qid r
       ∧ Merged.username m = Protection.username r
       ∧ is_Some (Protection.qid r)
       ∧ ¬ In (Protection.qid r)
             (qids_with (λ u, COOLDOWNUSAGELIMIT cfg <=? Usage.entityUsageCount u) top)
       ∧ match Merged.entityUsageCount m with
         | Some v => ∃ u, In (Usage.mk (Protection.qid r) u) top
                          ∧ (v = u ∨ v = float64_of_int u)
         | None => ¬ In (Protection.qid r) (map Usage.qid top)
         end.
Proof.
  unfold protection_to_lift, sort_by_usage_desc, dropna_protection. intros Hm.
  apply sort_values_In, merge_left_row in Hm as (r & Hr & Hq & Hu & Hc).
  apply filter_In in Hr as [Hr Hna]. apply filter_In in Hr as [Hr Hlow].
  apply andb_true_iff in Hna as [Hna _]. apply bool_decide_eq_true in Hna.
  apply negb_true_iff, isin_false_In in Hlow.
  exists r. done.
Qed.



(** Every left row of the cooldown frame has a toplist row, so the merge
    leaves its counts integers. *)
Lemma protection_in_cooldown_rows (cfg : Config)
    (top : list Usage.row) (protected : list Protection.row) m :
  In m (protection_in_cooldown cfg top protected) →
  ∃ r, In r protected
       ∧ Merged.qid m = Protection.qid r
       ∧ is_Some (Protection.qid r)
       ∧ In (Protection.qid r)
            (qids_with (λ u, Usage.entityUsageCount u <? ENTITYUSAGELIMIT cfg) top)
       ∧ In (Protection.qid r)
            (qids_with (λ u, COOLDOWNUSAGELIMIT cfg <=? Usage.entityUsageCount u) top)
       ∧ match Merged.entityUsageCount m with
         | Some u => In (Usage.mk (Protection.qid r) u) top
         | None => ¬ In (Protection.qid r) (map Usage.qid top)
         end.
Proof.
  unfold protection_in_cooldown, sort_by_usage_desc, dropna_protection. intros Hm.
  apply sort_values_In in Hm. rewrite merge_left_all_matched in Hm.
  - apply join_rows_row in Hm as (r & Hr & Hq & Hu & Hc).
    apply filter_In in Hr as [Hr Hna]. apply filter_In in Hr as [Hr Hband].
    apply andb_true_iff in Hna as [Hna _]. apply bool_decide_eq_true in Hna.
    apply andb_true_iff in Hband as [Hlt Hge]. apply isin_In in Hlt, Hge.
    exists r. done.
  - intros m' Hm'. apply join_rows_row in Hm' as (r & Hr & _ & _ & Hc).
    destruct (Merged.entityUsageCount m'); [done|]. exfalso. apply Hc.
    apply filter_In in Hr as [Hr _]. apply filter_In in Hr as [_ Hband].
    apply andb_true_iff in Hband as [Hlt _]. apply isin_In in Hlt.
    unfold qids_with in Hlt. apply in_map_iff in Hlt as (u & <- & Hu).
    apply filter_In in Hu as [Hu _]. by apply in_map.
Qed.


(** Two toplist rows of one qid are the same row when no qid occurs twice. *)
Lemma toplist_row_unique (top : list Usage.row) (q : string) (u v : Z) :
  NoDup (omap Usage.qid top) →
  In (Usage.mk (Some q) u) top → In (Usage.mk (Some q) v) top → u = v.
Proof.
  intros Hnd Hu Hv.
  pose proof (filter_key_NoDup Usage.qid (Some q) (dropna_usage top)
                (dropna_usage_NoDup top Hnd)) as Hone.
  assert (∀ w, In (Usage.mk (Some q) w) top →
               In (Usage.mk (Some q) w)
                  (List.filter (λ r, bool_decide (Usage.qid r = Some q))
                               (dropna_usage top))) as Hin.
  { intros w Hw. apply filter_In. split.
    - apply filter_In. split; [done|]. by apply bool_decide_eq_true.
    - by apply bool_decide_eq_true. }
  apply Hin in Hu, Hv.
  destruct Hone as [Hnil|[r Hr]].
  - by rewrite Hnil in Hu.
  - rewrite Hr in Hu, Hv. destruct Hu as [Hu|[]], Hv as [Hv|[]]. congruence.
Qed.

(** X3: the cooldown frame shares no qid with the to-lift frame built
    from the same tables, and every qid in it is the qid of a protection
    row handed in; when no qid occurs twice in the toplist, every cooldown
    row carries a usage count of at least the cooldown limit and below
    the usage limit. *)
Theorem cooldown_rows_in_band (cfg : Config)
    (top : list Usage.row) (protected : list Protection.row) :
  let cooldown := protection_in_cooldown cfg top protected in
  Forall (λ q, In q (map Protection.qid protected)
               ∧ ¬ In q (map Merged.qid (protection_to_lift cfg top protected)))
         (map Merged.qid cooldown)
  ∧ (NoDup (omap Usage.qid top) →
     Forall (λ m, ∃ u, Merged.entityUsageCount m = Some u
                       ∧ COOLDOWNUSAGELIMIT cfg ≤ u < ENTITYUSAGELIMIT cfg)
            cooldown).
Proof.
  intros cooldown. subst cooldown. split.
  - apply Forall_forall. intros q Hq.
    apply list_elem_of_In, in_map_iff in Hq as (m & <- & Hm).
    apply protection_in_cooldown_rows in Hm as (r & Hr & Hq & _ & _ & Hge & _).
    rewrite Hq. split; [by apply in_map|].
    intros Hl. apply in_map_iff in Hl as (m' & Hq' & Hm').
    apply protection_to_lift_rows in Hm' as (r' & _ & Hq'' & _ & _ & Hlow & _).
    apply Hlow. by rewrite <- Hq'', Hq'.
  - intros Hnd. apply Forall_forall. intros m Hm.
    apply list_elem_of_In, protection_in_cooldown_rows in Hm
      as (r & Hr & Hq & [q Hsome] & Hlt & Hge & Hc).
    rewrite Hsome in Hlt, Hge, Hc.
    unfold qids_with in Hlt, Hge.
    apply in_map_iff in Hlt as ([q1 u1] & Hq1 & Hu1).
    apply in_map_iff in Hge as ([q2 u2] & Hq2 & Hu2).
    apply filter_In in Hu1 as [Hin1 Hlt]. apply filter_In in Hu2 as [Hin2 Hge].
    simpl in Hq1, Hq2, Hlt, Hge. subst q1 q2.
    apply Z.ltb_lt in Hlt. apply Z.leb_le in Hge.
    pose proof (toplist_row_unique top q u1 u2 Hnd Hin1 Hin2) as ->.
    destruct (Merged.entityUsageCount m) as [u|].
    + exists u. split; [done|].
      by rewrite (toplist_row_unique top q u u2 Hnd Hc Hin2).
    + exfalso. apply Hc. apply in_map_iff. by exists (Usage.mk (Some q) u2).
Qed.

(** The bands of the shipped configuration on the worked toplist. *)
Lemma cooldown_rows_in_band_witness :
  Forall (λ m, ∃ u, Merged.entityUsageCount m = Some u
                    ∧ COOLDOWNUSAGELIMIT shipped_config ≤ u
                      < ENTITYUSAGELIMIT shipped_config)
         (protection_in_cooldown shipped_config policy_toplist policy_protections).
Proof.
  apply (proj2 (cooldown_rows_in_band shipped_config policy_toplist policy_protections)).
  by apply (bool_decide_unpack _).
Defined.

(** A qid listed twice, once low and once high, puts its protection into
    the cooldown frame twice, and neither row is in the band. *)
Example cooldown_with_repeated_qid :
  protection_in_cooldown shipped_config twofold_toplist twofold_protections
  = [ Merged.mk (Some "Q1") 1 (Some "MsynABot") (Some 900);
      Merged.mk (Some "Q1") 1 (Some "MsynABot") (Some 100) ].
Proof. reflexivity. Qed.

(** * Whole runs *)

(** Unfolds the state operations and the projections of a state, and
    nothing of the counters. *)
Ltac expose :=
  cbn [exec fst snd print counter stdout sleeps protect_calls site replica_queries
       count_added count_removed sleep access_replica_database ret raise bind negb].

(** Case analysis of one loop iteration of the add pass along the paths of
    [add_protection]. *)
Ltac add_paths :=
  unfold exec, try_print, add_step;
  rewrite add_protection_guarded;
  destruct (first_failing _) as [?k|] eqn:?Hguard;
    [|destruct (SIMULATE _) eqn:?Hsim;
      [|unfold after_protect, exec, protect;
        destruct (protect_raises _ (add_call _)) eqn:?Hraise]];
  expose.

(** Case analysis of [remove_authorized]. *)
Ltac authorized_paths :=
  unfold remove_authorized;
  destruct (protection <$> site _ !! qid _) as [?cur|] eqn:?Hpage;
    [destruct (bool_decide (_ = SEMIPROTECTED)) eqn:?Hshape;
      [destruct (SIMULATE _) eqn:?Hsim;
        [|unfold after_protect, exec, protect;
          destruct (protect_raises _ (remove_call _)) eqn:?Hraise]
      |]
    |];
  expose.

(** Case analysis of one loop iteration of the lift pass along the paths
    of [remove_protection]. *)
Ltac remove_paths :=
  unfold exec, try_print, remove_step;
  rewrite remove_protection_guarded;
  destruct (nan_ge _ _) eqn:?Hover;
    [expose
    |rewrite not_whitelisted_cases;
     destruct (username_isin _ _) eqn:?Hadmin;
       [authorized_paths
       |match goal with
        | |- context [match ?l with [] => _ | _ :: _ => _ end] =>
            destruct l as [|?grant [|?grant' ?rest]] eqn:?Hearly
        end;
          [expose
          |destruct (latest_protect_action _ _) as [?row|] eqn:?Hlog;
             [destruct (bool_decide (log_matches_grant _ _)) eqn:?Hmatch;
                [expose; authorized_paths | expose]
             |expose]
          |expose]]].

Section run_invariant.
Context (I : State → Prop).

Lemma process_in_order_invariant (step : Case → M Message) (cases : list Case) :
  (∀ case, In case cases → ∀ st, I st → I (exec (try_print (step case)) st)) →
  ∀ st, I st → I (exec (process_in_order step cases) st).
Proof.
  induction cases as [|case rest IH]; intros Hstep st Hst; [done|].
  cbn [process_in_order foldr]. unfold exec, bind.
  pose proof (Hstep case (or_introl eq_refl) st Hst) as Hp. unfold exec in Hp.
  destruct (try_print (step case) st) as [[[]|e] st1]; simpl in *; [|done].
  apply IH; [|done]. intros c Hc. apply Hstep. by right.
Qed.

Lemma capped_incl (hardlimit : option Z) (cases : list Case) case :
  In case (capped hardlimit cases) → In case cases.
Proof.
  destruct hardlimit as [limit|]; simpl; [|done].
  intros Hin. rewrite <- (firstn_skipn (Z.to_nat (Z.max 1 limit)) cases).
  apply in_or_app. by left.
Qed.

Context (cfg : Config) (env : Env)
        (indef : list Protection.row) (early : list Early.row)
        (top : list Usage.row) (blacklist : list string).

Hypothesis skipped_lift_keeps :
  ∀ entries limit st, I st → I (print (DoNotLift entries limit) st).
Hypothesis skipped_add_keeps :
  ∀ entries limit st, I st → I (print (DoNotAdd entries limit) st).
Hypothesis lift_case_keeps :
  ∀ case, In case (lift_cases_of cfg indef early top) →
    ∀ st, I st → I (exec (try_print (remove_step cfg env early case)) st).
Hypothesis add_case_keeps :
  ∀ case, In case (add_cases_of cfg indef top) →
    ∀ st, I st → I (exec (try_print (add_step cfg env blacklist case)) st).

Lemma run_passes_invariant (st : State) :
  I st → I (exec (run_passes cfg env indef early top blacklist) st).
Proof.
  intros Hst. unfold run_passes, exec, bind.
  fold (to_lift_of cfg indef early top).
  assert (I (exec (lift_pass cfg env early (to_lift_of cfg indef early top)) st))
    as Hl.
  { unfold lift_pass. destruct (exceeded_limit _ _) as [limit|].
    - by apply skipped_lift_keeps.
    - rewrite for_cases_capped. apply process_in_order_invariant; [|done].
      intros case Hc. apply lift_case_keeps. by apply capped_incl in Hc. }
  unfold exec in Hl.
  destruct (lift_pass cfg env early _ st) as [[[]|e] st1]; simpl in *; [|done].
  unfold add_pass. destruct (exceeded_limit _ _) as [limit|].
  - by apply skipped_add_keeps.
  - rewrite for_cases_capped. apply process_in_order_invariant; [|done].
    intros case Hc. apply add_case_keeps. by apply capped_incl in Hc.
Qed.
End run_invariant.

(** The cases of the add pass carry a usage count of at least the usage
    limit and a qid that is in the toplist and in no protection row. *)
Lemma add_cases_of_spec (cfg : Config) (indef : list Protection.row)
    (top : list Usage.row) (case : Case) :
  In case (add_cases_of cfg indef top) →
  ∃ u, entityUsageCount case = Some u
       ∧ ENTITYUSAGELIMIT cfg ≤ u
       ∧ In (Usage.mk (Some (qid case)) u) top
       ∧ ¬ In (Some (qid case)) (map Protection.qid indef).
Proof.
  unfold add_cases_of, itertuples_add. intros Hc.
  apply list_elem_of_In, list_elem_of_omap in Hc as (r & Hr & Hc).
  apply list_elem_of_In, protection_missing_In in Hr as (Hr & _ & Hu & Hp).
  destruct r as [[q|] u]; simpl in *; [|done].
  injection Hc as <-. simpl. exists u. done.
Qed.

(** The cases of the lift pass carry the qid of a trusted protection row
    none of whose toplist rows reaches the cooldown limit, and a usage
    count that is absent or that of a toplist row, exactly or as a float. *)
Lemma lift_cases_of_spec (cfg : Config) (indef : list Protection.row)
    (early : list Early.row) (top : list Usage.row) (case : Case) :
  In case (lift_cases_of cfg indef early top) →
  (∃ r, In r (protected_highly_used_items cfg indef early)
        ∧ Protection.qid r = Some (qid case)
        ∧ Protection.username r = username case)
  ∧ (∀ u, In (Usage.mk (Some (qid case)) u) top → u < COOLDOWNUSAGELIMIT cfg)
  ∧ (∀ v, entityUsageCount case = Some v →
          ∃ u, In (Usage.mk (Some (qid case)) u) top
               ∧ (v = u ∨ v = float64_of_int u)).
Proof.
  unfold lift_cases_of, to_lift_of, itertuples_lift. intros Hc.
  apply list_elem_of_In, list_elem_of_omap in Hc as (m & Hm & Hc).
  apply list_elem_of_In, protection_to_lift_rows in Hm
    as (r & Hr & Hq & Hu & _ & Hlow & Hcount).
  destruct (Merged.qid m) as [q|] eqn:Hmq; simpl in Hc; [|done].
  injection Hc as <-. simpl.
  assert (∀ u, In (Usage.mk (Some q) u) top → u < COOLDOWNUSAGELIMIT cfg) as Hbelow.
  { intros u Hin.
    destruct (Z.ltb_spec u (COOLDOWNUSAGELIMIT cfg)) as [|Hge]; [done|].
    exfalso. apply Hlow. rewrite <- Hq. unfold qids_with. apply in_map_iff.
    exists (Usage.mk (Some q) u). split; [done|].
    apply filter_In. split; [done|]. simpl. by apply Z.leb_le. }
  split; [|split].
  - exists r. by rewrite <- Hq, <- Hu.
  - done.
  - intros v Hv. rewrite Hv in Hcount. by rewrite <- Hq in Hcount.
Qed.

Lemma guard_key_cases (usage_ok : bool) (cfg : Config) (env : Env) (case : Case)
    (blacklist : list string) (st : State) (k : Counter.Added.key) :
  first_failing (add_guards_from usage_ok cfg env case blacklist st) = Some k →
  (k = Counter.Added.belowlimit ∧ usage_ok = false)
  ∨ (k = Counter.Added.blacklisted ∧ isin (qid case) blacklist = true)
  ∨ k = Counter.Added.belowsubscribedprojects
  ∨ k = Counter.Added.itemnotexists
  ∨ k = Counter.Added.itemisredirect
  ∨ k = Counter.Added.itemhassomeprotection.
Proof.
  intros Hk. apply first_failing_In in Hk. simpl in Hk.
  destruct Hk as [[= <- <-]|[[= <- Hb]|[[= <- _]|[[= <- _]|[[= <- _]|[[= <- _]|[]]]]]]];
    try by auto 10.
  right. left. split; [done|]. by apply negb_false_iff.
Qed.

Lemma guards_all_hold (usage_ok : bool) (cfg : Config) (env : Env) (case : Case)
    (blacklist : list string) (st : State) :
  first_failing (add_guards_from usage_ok cfg env case blacklist st) = None →
  usage_ok = true
  ∧ isin (qid case) blacklist = false
  ∧ ∃ page, site st !! qid case = Some page
            ∧ isRedirectPage page = false
            ∧ protection page = UNPROTECTED.
Proof.
  unfold first_failing, add_guards_from. simpl.
  destruct usage_ok; simpl; [|done].
  destruct (isin (qid case) blacklist); simpl; [done|].
  destruct (match MINSUBSCRIBEDPROJECTS cfg with Some _ => _ | None => _ end);
    simpl; [|done].
  destruct (site st !! qid case) as [[redirect prot]|]; simpl; [|done].
  destruct redirect; simpl; [done|].
  destruct (decide (prot = UNPROTECTED)) as [->|Hne].
  - intros _. split; [done|]. split; [done|]. by eexists.
  - rewrite bool_decide_eq_false_2 by congruence. done.
Qed.

Lemma counts_total_make_table {K : Type} (dct : list (K * nat)) :
  counts_total (make_table dct) = counts_total dct.
Proof.
  unfold counts_total, make_table.
  induction dct as [|[k n] t IH]; simpl; [done|].
  destruct n as [|n]; simpl; lia.
Qed.

Lemma case_lines_snoc (out : list Message) (msg : Message) :
  length (List.filter is_case_line (out ++ [msg]))
  = (length (List.filter is_case_line out) + if is_case_line msg then 1 else 0)%nat.
Proof.
  rewrite List.filter_app, length_app. simpl. by destruct (is_case_line msg).
Qed.

Lemma calls_snoc (env : Env) (calls : list ProtectCall) (call : ProtectCall) :
  length (calls_done env (calls ++ [call]))
  = (length (calls_done env calls) + if protect_raises env call then 0 else 1)%nat
  ∧ length (calls_failed env (calls ++ [call]))
    = (length (calls_failed env calls) + if protect_raises env call then 1 else 0)%nat.
Proof.
  unfold calls_done, calls_failed. rewrite !List.filter_app, !length_app. simpl.
  by destruct (protect_raises env call).
Qed.

Lemma totals_after_add_protection (k : Counter.Added.key) (c : Counter.t) :
  counts_total (added_items (Counter.add_protection k c))
  = S (counts_total (added_items c))
  ∧ counts_total (removed_items (Counter.add_protection k c))
    = counts_total (removed_items c).
Proof.
  destruct c as [[a1 a2 a3 a4 a5 a6 a7 a8 a9] [r1 r2 r3 r4 r5 r6 r7 r8]].
  unfold counts_total, added_items, removed_items.
  destruct k; simpl; lia.
Qed.

Lemma totals_after_remove_protection (k : Counter.Removed.key) (c : Counter.t) :
  counts_total (removed_items (Counter.remove_protection k c))
  = S (counts_total (removed_items c))
  ∧ counts_total (added_items (Counter.remove_protection k c))
    = counts_total (added_items c).
Proof.
  destruct c as [[a1 a2 a3 a4 a5 a6 a7 a8 a9] [r1 r2 r3 r4 r5 r6 r7 r8]].
  unfold counts_total, added_items, removed_items.
  destruct k; simpl; lia.
Qed.

(** Rewrites the counts after one increment. *)
Ltac count_up :=
  repeat match goal with
         | |- context [counts_total (added_items (Counter.add_protection ?k ?c))] =>
             rewrite (proj1 (totals_after_add_protection k c))
         | |- context [counts_total (removed_items (Counter.add_protection ?k ?c))] =>
             rewrite (proj2 (totals_after_add_protection k c))
         | |- context [counts_total (removed_items (Counter.remove_protection ?k ?c))] =>
             rewrite (proj1 (totals_after_remove_protection k c))
         | |- context [counts_total (added_items (Counter.remove_protection ?k ?c))] =>
             rewrite (proj2 (totals_after_remove_protection k c))
         end;
  rewrite ?added_after_add_protection, ?removed_after_add_protection,
          ?removed_after_remove_protection, ?added_after_remove_protection;
  expose.

(** Closes a bookkeeping goal by arithmetic on the counts. *)
Ltac tally :=
  unfold Counter.added, Counter.removed in *; simpl in *;
  repeat match goal with
         | H : SIMULATE ?cfg = _ |- _ => rewrite H in *
         | H : protect_raises _ _ = _ |- _ => rewrite H in *
         | H : _ ∧ _ |- _ => destruct H
         | |- context [SIMULATE ?cfg] => destruct (SIMULATE cfg)
         end;
  simpl in *; repeat split; try done; lia.

Lemma add_case_balances (cfg : Config) (env : Env) (blacklist : list string)
    (case : Case) (st : State) :
  accounts_balance cfg env st →
  accounts_balance cfg env (exec (try_print (add_step cfg env blacklist case)) st).
Proof.
  unfold accounts_balance. intros (Hlines & Hsleeps & Hcalls).
  add_paths; rewrite case_lines_snoc; count_up.
  - apply guard_key_cases in Hguard.
    destruct Hguard as [[-> _] | [[-> _] | [-> | [-> | [-> | ->]]]]]; tally.
  - tally.
  - destruct (calls_snoc env (protect_calls st) (add_call case)) as [-> ->]. tally.
  - destruct (calls_snoc env (protect_calls st) (add_call case)) as [-> ->]. tally.
Qed.

Lemma remove_case_balances (cfg : Config) (env : Env) (early : list Early.row)
    (case : Case) (st : State) :
  accounts_balance cfg env st →
  accounts_balance cfg env (exec (try_print (remove_step cfg env early case)) st).
Proof.
  unfold accounts_balance. intros (Hlines & Hsleeps & Hcalls).
  remove_paths;
    rewrite ?case_lines_snoc; count_up;
    try (destruct (calls_snoc env (protect_calls st) (remove_call case)) as [-> ->]);
    tally.
Qed.

Lemma initial_state_balances (cfg : Config) (env : Env) (wiki : gmap string Page) :
  accounts_balance cfg env (initial_state wiki).
Proof. unfold accounts_balance. simpl. by destruct (SIMULATE cfg). Qed.

Lemma run_passes_balances (cfg : Config) (env : Env)
    (indef : list Protection.row) (early : list Early.row)
    (top : list Usage.row) (blacklist : list string) (st : State) :
  accounts_balance cfg env st →
  accounts_balance cfg env (exec (run_passes cfg env indef early top blacklist) st).
Proof.
  apply run_passes_invariant.
  - intros entries limit st'. unfold accounts_balance. simpl.
    by rewrite case_lines_snoc, Nat.add_0_r.
  - intros entries limit st'. unfold accounts_balance. simpl.
    by rewrite case_lines_snoc, Nat.add_0_r.
  - intros case _. apply remove_case_balances.
  - intros case _. apply add_case_balances.
Qed.

(** The statistics and the report change nothing but the printed lines
    and the reports, and print no case line. *)
Lemma report_leaves (cfg : Config) (env : Env)
    (indef : list Protection.row) (early : list Early.row)
    (top : list Usage.row) (blacklist : list string) (st : State) :
  left_by_report st (exec (report cfg env indef early top blacklist) st).
Proof.
  unfold left_by_report, exec, report, bind, print_statistics, make_report.
  destruct (get_number_of_items env =? 0); cbn [fst snd].
  - simpl. do 5 (split; [done|]). rewrite !List.filter_app. simpl.
    by rewrite !app_nil_r.
  - destruct (cooldown_qids cfg indef early top);
      [destruct (report_page_saved _ _ _)|]; simpl; do 5 (split; [done|]);
      rewrite !List.filter_app; simpl; by rewrite !app_nil_r.
Qed.

(** A property that the passes keep and that the report cannot tell
    apart holds after [main]. *)
Lemma main_invariant (I : State → Prop) (cfg : Config) (env : Env)
    (query_result : list Protection.row) (file_rows : list Early.row)
    (lines : list CsvLine) (blacklist : list string) (st : State) :
  (∀ st1 st2, left_by_report st1 st2 → I st1 → I st2) →
  (∀ indef top, I st →
     I (exec (run_passes cfg env indef (get_early_item_protections file_rows)
                top blacklist) st)) →
  I st → I (exec (main cfg env query_result file_rows lines blacklist) st).
Proof.
  intros Hframe Hrun Hst. unfold main, exec, bind, load.
  destruct (get_indefinitely_semiprotected_items query_result) as [indef|];
    [|done].
  destruct (get_list_of_highly_used_items_from_wdcm env lines) as [top|]; [|done].
  specialize (Hrun indef top Hst). unfold exec in Hrun.
  destruct (run_passes cfg env indef _ top blacklist st) as [[[]|e] st1];
    cbn [fst snd] in *; [|done].
  apply (Hframe st1); [|done]. apply report_leaves.
Qed.

Lemma main_balances (cfg : Config) (env : Env)
    (query_result : list Protection.row) (file_rows : list Early.row)
    (lines : list CsvLine) (blacklist : list string) (wiki : gmap string Page) :
  accounts_balance cfg env
    (exec (main cfg env query_result file_rows lines blacklist) (initial_state wiki)).
Proof.
  apply (main_invariant (accounts_balance cfg env)).
  - intros st1 st2 (Hsite & Hcounter & Hcalls & _ & Hsleeps & Hlines).
    unfold accounts_balance. by rewrite Hcounter, Hcalls, Hsleeps, Hlines.
  - intros indef top. apply run_passes_balances.
  - apply initial_state_balances.
Qed.

(** X4: the books of a run balance.  After [main], started with zeroed
    counters, every printed case line stands for exactly one count: the
    counts that [make_table] shows in the two tables add up to the number
    of case lines printed, and a table shows a key exactly when its count
    is positive. *)
Theorem tables_account_for_every_case (cfg : Config) (env : Env)
    (query_result : list Protection.row) (file_rows : list Early.row)
    (lines : list CsvLine) (blacklist : list string) (wiki : gmap string Page) :
  let final :=
    exec (main cfg env query_result file_rows lines blacklist) (initial_state wiki) in
  length (List.filter is_case_line (stdout final))
  = (counts_total (make_table (added_items (counter final)))
     + counts_total (make_table (removed_items (counter final))))%nat
  ∧ (∀ k n, In (k, n) (make_table (added_items (counter final)))
            ↔ n = Counter.added k (counter final) ∧ (0 < n)%nat)
  ∧ (∀ k n, In (k, n) (make_table (removed_items (counter final)))
            ↔ n = Counter.removed k (counter final) ∧ (0 < n)%nat).
Proof.
  intros final.
  destruct (main_balances cfg env query_result file_rows lines blacklist wiki)
    as (Hlines & _).
  fold final in Hlines. rewrite !counts_total_make_table.
  split; [done|]. split.
  - intros k n. unfold make_table, added_items. rewrite filter_In, in_map_iff. simpl.
    rewrite Nat.ltb_lt. split.
    + intros [(k' & [= <- <-] & _) Hn]. done.
    + intros [-> Hn]. split; [|done]. exists k. split; [done|]. by destruct k; simpl; auto 10.
  - intros k n. unfold make_table, removed_items. rewrite filter_In, in_map_iff. simpl.
    rewrite Nat.ltb_lt. split.
    + intros [(k' & [= <- <-] & _) Hn]. done.
    + intros [-> Hn]. split; [|done]. exists k. split; [done|]. by destruct k; simpl; auto 10.
Qed.

(** X5: a run sleeps once for every case it counts as successful,
    simulated or not, and never after a refused case or a failed call; in
    a run that is not simulated that is once per protection call that did
    not raise, and every call that raised is counted as a failed save. *)
Theorem one_sleep_per_success (cfg : Config) (env : Env)
    (query_result : list Protection.row) (file_rows : list Early.row)
    (lines : list CsvLine) (blacklist : list string) (wiki : gmap string Page) :
  let final :=
    exec (main cfg env query_result file_rows lines blacklist) (initial_state wiki) in
  sleeps final
  = (Counter.added Counter.Added.successful (counter final)
     + Counter.removed Counter.Removed.successful (counter final))%nat
  ∧ (SIMULATE cfg = false →
       sleeps final = length (calls_done env (protect_calls final))
       ∧ length (calls_failed env (protect_calls final))
         = (Counter.added Counter.Added.savefailed (counter final)
            + Counter.removed Counter.Removed.savefailed (counter final))%nat).
Proof.
  intros final.
  destruct (main_balances cfg env query_result file_rows lines blacklist wiki)
    as (_ & Hsleeps & Hcalls).
  fold final in Hsleeps, Hcalls. split; [done|].
  intros Hsim. rewrite Hsim in Hcalls. destruct Hcalls as [Hdone Hfailed].
  split; [lia|done].
Qed.

Lemma one_sleep_per_success_witness :
  let final :=
    exec (main shipped_config quiet_env protected_by_bot [] toplist_file [])
         (initial_state small_wiki) in
  sleeps final = length (calls_done quiet_env (protect_calls final))
  ∧ length (calls_failed quiet_env (protect_calls final))
    = (Counter.added Counter.Added.savefailed (counter final)
       + Counter.removed Counter.Removed.savefailed (counter final))%nat.
Proof.
  apply (proj2 (one_sleep_per_success shipped_config quiet_env protected_by_bot []
                  toplist_file [] small_wiki)).
  reflexivity.
Defined.

Lemma remove_authorized_reports (cfg : Config) (env : Env) (case : Case)
    (st : State) :
  reports (snd (remove_authorized cfg env case st)) = reports st.
Proof.
  unfold remove_authorized.
  destruct (protection <$> site st !! qid case) as [cur|]; simpl; [|done].
  destruct (bool_decide (cur = SEMIPROTECTED)); simpl; [|done].
  destruct (SIMULATE cfg); simpl; [done|].
  unfold after_protect, exec, protect.
  by destruct (protect_raises env (remove_call case)).
Qed.

Lemma remove_protection_reports (cfg : Config) (env : Env) (case : Case)
    (early_protection : list Early.row) (st : State) :
  reports (exec (remove_protection cfg env case early_protection) st) = reports st.
Proof.
  unfold exec. rewrite remove_protection_guarded.
  destruct (nan_ge _ _); simpl; [done|].
  rewrite not_whitelisted_cases.
  destruct (username_isin _ _); [apply remove_authorized_reports|].
  destruct early_protection as [|grant [|grant' rest]]; [done| |done].
  destruct (latest_protect_action env (qid case)) as [row|]; [|done].
  destruct (negb _); [done|]. by rewrite remove_authorized_reports.
Qed.

Lemma add_protection_reports (cfg : Config) (env : Env) (case : Case)
    (blacklist : list string) (st : State) :
  reports (exec (add_protection cfg env case blacklist) st) = reports st.
Proof.
  unfold exec. rewrite add_protection_guarded.
  destruct (first_failing _) as [k|]; simpl; [done|].
  destruct (SIMULATE cfg); simpl; [done|].
  unfold after_protect, exec, protect.
  by destruct (protect_raises env (add_call case)).
Qed.

(** The passes write no report. *)
Lemma run_passes_reports (cfg : Config) (env : Env)
    (indef : list Protection.row) (early : list Early.row)
    (top : list Usage.row) (blacklist : list string) (st : State) :
  reports (exec (run_passes cfg env indef early top blacklist) st) = reports st.
Proof.
  apply (run_passes_preserves (λ st', reports st' = reports st)); [done| | |done].
  - intros case bl st' Hst'. by rewrite add_protection_reports.
  - intros case ep st' Hst'. by rewrite remove_protection_reports.
Qed.

(** What a run has written when it ends: nothing when it is left by an
    exception, and otherwise the report file, followed by the report page
    when the test of [make_report] holds for the final counts. *)
Lemma main_reports (cfg : Config) (env : Env)
    (query_result : list Protection.row) (file_rows : list Early.row)
    (lines : list CsvLine) (blacklist : list string) (wiki : gmap string Page) :
  let run :=
    main cfg env query_result file_rows lines blacklist (initial_state wiki) in
  match fst run with
  | Return _ =>
      ∃ vars,
        reports (snd run)
        = ReportFile vars
          :: (if report_page_saved cfg
                   (Counter.added Counter.Added.successful (counter (snd run)))
                   (Counter.removed Counter.Removed.successful (counter (snd run)))
              then [ReportPage vars] else [])
  | Raise _ => reports (snd run) = []
  end.
Proof.
  unfold main, bind, load.
  destruct (get_indefinitely_semiprotected_items query_result) as [indef|];
    [|done].
  destruct (get_list_of_highly_used_items_from_wdcm env lines) as [top|]; [|done].
  cbn [fst snd].
  pose proof (run_passes_reports cfg env indef (get_early_item_protections file_rows)
                top blacklist (initial_state wiki)) as Hrep.
  unfold exec in Hrep.
  destruct (run_passes cfg env indef _ top blacklist _) as [[[]|e] st1];
    cbn [fst snd] in *; [|done].
  unfold report, bind, print_statistics, make_report.
  destruct (get_number_of_items env =? 0); cbn [fst snd]; [done|].
  destruct (cooldown_qids cfg indef _ top); cbn [fst snd]; [|done].
  eexists. destruct (report_page_saved _ _ _) eqn:Hsaved; simpl;
    simpl in Hsaved; rewrite Hsaved, Hrep; done.
Qed.

(** X6: a run writes its report file exactly when [main] returns, and
    saves the report to the wiki page exactly when [main] returns, the run
    was not simulated and it made at least one protection call that did
    not raise.  A run that an exception ends, in a pass or in the
    statistics, writes neither. *)
Theorem report_saved_iff_wiki_call_succeeded (cfg : Config) (env : Env)
    (query_result : list Protection.row) (file_rows : list Early.row)
    (lines : list CsvLine) (blacklist : list string) (wiki : gmap string Page) :
  let run :=
    main cfg env query_result file_rows lines blacklist (initial_state wiki) in
  let final := snd run in
  ((∃ vars, In (ReportFile vars) (reports final)) ↔ fst run = Return ())
  ∧ ((∃ vars, In (ReportPage vars) (reports final))
     ↔ fst run = Return ()
       ∧ SIMULATE cfg = false
       ∧ ∃ call, In call (protect_calls final) ∧ protect_raises env call = false).
Proof.
  intros run final.
  destruct (main_balances cfg env query_result file_rows lines blacklist wiki)
    as (_ & _ & Hcalls).
  pose proof (main_reports cfg env query_result file_rows lines blacklist wiki)
    as Hrep.
  unfold exec in Hcalls. fold run in Hcalls, Hrep. cbv zeta in Hrep.
  fold final in Hcalls, Hrep.
  destruct (fst run) as [[]|e].
  2:{ rewrite Hrep. split; (split; [by intros [? []]|]); [done|by intros [? _]]. }
  destruct Hrep as [vars Hrep]. rewrite Hrep. split.
  { split; [done|]. intros _. exists vars. by left. }
  unfold report_page_saved. destruct (SIMULATE cfg); simpl.
  { split; [|by intros (_ & ? & _)]. by intros [v [|[]]]. }
  destruct Hcalls as [Hdone _].
  destruct ((0 <? _)%nat || (0 <? _)%nat) eqn:Hpos.
  - split; [|intros _; exists vars; right; by left]. intros _.
    split; [done|]. split; [done|].
    apply orb_true_iff in Hpos. rewrite !Nat.ltb_lt in Hpos.
    destruct (calls_done env (protect_calls final)) as [|call rest] eqn:Hc.
    { simpl in Hdone. lia. }
    assert (In call (calls_done env (protect_calls final))) as Hin
      by (rewrite Hc; by left).
    apply filter_In in Hin as [Hin Hok]. exists call. split; [done|].
    by apply negb_true_iff.
  - split; [by intros [v [|[]]]|]. intros (_ & _ & call & Hin & Hok).
    apply orb_false_iff in Hpos. rewrite !Nat.ltb_ge in Hpos.
    assert (In call (calls_done env (protect_calls final))) as Hc.
    { apply filter_In. split; [done|]. by rewrite Hok. }
    destruct (calls_done env (protect_calls final)); [done|]. simpl in Hdone. lia.
Qed.

(** X7: no run counts a case of the add pass as below the usage limit:
    the cases come from [protection_missing], which keeps only rows whose
    count reaches the limit, so the first guard of [add_protection] never
    fires and the belowlimit counter is zero after every run. *)
Theorem belowlimit_never_counted (cfg : Config) (env : Env)
    (query_result : list Protection.row) (file_rows : list Early.row)
    (lines : list CsvLine) (blacklist : list string) (wiki : gmap string Page) :
  Counter.added Counter.Added.belowlimit
    (counter (exec (main cfg env query_result file_rows lines blacklist)
                   (initial_state wiki))) = 0%nat.
Proof.
  set (I := λ st : State,
              Counter.added Counter.Added.belowlimit (counter st) = 0%nat).
  apply (main_invariant I); [| |done].
  { intros st1 st2 (_ & Hcounter & _). subst I. cbv beta. by rewrite Hcounter. }
  intros indef top. apply (run_passes_invariant I); subst I; cbv beta.
  - by intros entries limit st.
  - by intros entries limit st.
  - intros case _ st Hst. remove_paths; count_up; done.
  - intros case Hcase st Hst.
    apply add_cases_of_spec in Hcase as (u & Hu & Hle & _).
    add_paths; count_up; try by rewrite Hst.
    apply guard_key_cases in Hguard.
    destruct Hguard as [[-> Hlow] | [[-> _] | [-> | [-> | [-> | ->]]]]];
      try by rewrite Hst.
    rewrite Hu in Hlow. simpl in Hlow. apply negb_false_iff, Z.ltb_lt in Hlow. lia.
Qed.

(** X8: when the cooldown limit does not exceed the usage limit and lies
    above -2^53 and at most at 2^53, no run counts a case of the lift pass
    as over the usage limit: the cases come from [protection_to_lift],
    whose rows have no count or the count, possibly rounded to a float, of
    a toplist row below the cooldown limit. *)
Theorem overlimit_never_counted (cfg : Config) (env : Env)
    (query_result : list Protection.row) (file_rows : list Early.row)
    (lines : list CsvLine) (blacklist : list string) (wiki : gmap string Page) :
  COOLDOWNUSAGELIMIT cfg ≤ ENTITYUSAGELIMIT cfg →
  - 2 ^ 53 < COOLDOWNUSAGELIMIT cfg ≤ 2 ^ 53 →
  Counter.removed Counter.Removed.overlimit
    (counter (exec (main cfg env query_result file_rows lines blacklist)
                   (initial_state wiki))) = 0%nat.
Proof.
  intros Hlimits Hrange.
  set (I := λ st : State,
              Counter.removed Counter.Removed.overlimit (counter st) = 0%nat).
  apply (main_invariant I); [| |done].
  { intros st1 st2 (_ & Hcounter & _). subst I. cbv beta. by rewrite Hcounter. }
  intros indef top. apply (run_passes_invariant I); subst I; cbv beta.
  - by intros entries limit st.
  - by intros entries limit st.
  - intros case Hcase st Hst.
    apply lift_cases_of_spec in Hcase as (_ & Hbelow & Hcount).
    remove_paths; count_up; try by rewrite ?Hst.
    exfalso. unfold nan_ge in Hover.
    destruct (entityUsageCount case) as [v|]; [|done].
    apply Z.leb_le in Hover.
    destruct (Hcount v eq_refl) as (u & Hin & Hv). specialize (Hbelow u Hin).
    destruct Hv as [->| ->]; [lia|].
    pose proof (float64_of_int_below u (COOLDOWNUSAGELIMIT cfg) Hrange Hbelow). lia.
  - intros case _ st Hst. add_paths; count_up; by rewrite ?Hst.
Qed.

Lemma overlimit_never_counted_witness :
  Counter.removed Counter.Removed.overlimit
    (counter (exec (main shipped_config quiet_env protected_by_bot [] toplist_file [])
                   (initial_state small_wiki))) = 0%nat.
Proof.
  apply (overlimit_never_counted shipped_config quiet_env protected_by_bot []
           toplist_file [] small_wiki).
  - simpl. lia.
  - simpl. lia.
Defined.

(** With both limits beyond 2^53 a count one below them is queued for
    lifting, becomes a float equal to the limit once another row of the
    merge has no count, and is refused as over the limit. *)
Example overlimit_counted_beyond_float_precision :
  itertuples_lift (protection_to_lift beyond_float_config beyond_float_toplist
                     beyond_float_protections)
  = [ mkCase "Q9" (Some 9007199254740996) (Some "MsynABot");
      mkCase "Q8" None (Some "MsynABot") ]
  ∧ Counter.removed Counter.Removed.overlimit
      (counter (exec (run_passes beyond_float_config quiet_env
                        beyond_float_protections [] beyond_float_toplist [])
                     (initial_state small_wiki))) = 1%nat.
Proof. split; reflexivity. Qed.

(** With the cooldown limit above the usage limit an item between the two
    is queued for lifting and then refused as over the limit. *)
Example overlimit_counted_when_limits_inverted :
  Counter.removed Counter.Removed.overlimit
    (counter (exec (run_passes inverted_config quiet_env protected_by_bot []
                      [Usage.mk (Some "Q9") 550] [])
                   (initial_state small_wiki))) = 1%nat.
Proof. reflexivity. Qed.

(** One iteration of the lift loop keeps the calls issued so far within
    the policy. *)
Lemma remove_step_calls_policy (cfg : Config) (env : Env)
    (indef : list Protection.row) (early : list Early.row)
    (top : list Usage.row) (blacklist : list string) (case : Case) (st : State) :
  In case (lift_cases_of cfg indef early top) →
  Forall (call_within_policy cfg indef early top blacklist) (protect_calls st) →
  Forall (call_within_policy cfg indef early top blacklist)
         (protect_calls (exec (try_print (remove_step cfg env early case)) st)).
Proof.
  intros Hcase Hst.
  apply lift_cases_of_spec in Hcase as ((r & Hr & Hq & _) & Hbelow & _).
  assert (call_within_policy cfg indef early top blacklist (remove_call case))
    as Hcall.
  { unfold call_within_policy. simpl. split; [done|]. split; [|done]. by exists r. }
  remove_paths; try done; apply Forall_app; split; try done; by constructor.
Qed.

(** One iteration of the add loop keeps them within the policy. *)
Lemma add_step_calls_policy (cfg : Config) (env : Env)
    (indef : list Protection.row) (early : list Early.row)
    (top : list Usage.row) (blacklist : list string) (case : Case) (st : State) :
  In case (add_cases_of cfg indef top) →
  Forall (call_within_policy cfg indef early top blacklist) (protect_calls st) →
  Forall (call_within_policy cfg indef early top blacklist)
         (protect_calls (exec (try_print (add_step cfg env blacklist case)) st)).
Proof.
  intros Hcase Hst.
  apply add_cases_of_spec in Hcase as (u & Hu & Hle & Hin & Hfree).
  add_paths; try done.
  - apply guards_all_hold in Hguard as (_ & Hdeny & _).
    apply isin_false_In in Hdeny.
    apply Forall_app. split; [done|]. constructor; [|done].
    unfold call_within_policy. simpl. repeat split; try done. by exists u.
  - apply guards_all_hold in Hguard as (_ & Hdeny & _).
    apply isin_false_In in Hdeny.
    apply Forall_app. split; [done|]. constructor; [|done].
    unfold call_within_policy. simpl. repeat split; try done. by exists u.
Qed.

(** X9: every protection call a run issues is within the policy.  A
    protecting call names an item that is not deny-listed, that has a
    toplist row with a count of at least the usage limit and that has no
    row in the protection table; an unprotecting call names an item whose
    protection row is trusted (early protection or whitelisted
    administrator) and none of whose toplist rows reaches the cooldown
    limit. *)
Theorem calls_within_policy (cfg : Config) (env : Env)
    (indef : list Protection.row) (early : list Early.row)
    (top : list Usage.row) (blacklist : list string) (st : State) :
  Forall (call_within_policy cfg indef early top blacklist) (protect_calls st) →
  Forall (call_within_policy cfg indef early top blacklist)
         (protect_calls (exec (run_passes cfg env indef early top blacklist) st)).
Proof.
  apply (run_passes_invariant
           (λ st, Forall (call_within_policy cfg indef early top blacklist)
                         (protect_calls st))); try done.
  - intros case Hcase st'. by apply remove_step_calls_policy.
  - intros case Hcase st'. by apply add_step_calls_policy.
Qed.

Lemma calls_within_policy_witness :
  Forall (call_within_policy shipped_config policy_protections [] policy_toplist ["W"])
         (protect_calls
            (exec (run_passes shipped_config quiet_env policy_protections []
                     policy_toplist ["W"])
                  (initial_state policy_wiki))).
Proof.
  apply (calls_within_policy shipped_config quiet_env policy_protections []
           policy_toplist ["W"] (initial_state policy_wiki)).
  constructor.
Defined.

Lemma process_in_order_calls_bound (step : Case → M Message) (cases : list Case) :
  (∀ case st, length (protect_calls (exec (try_print (step case)) st))
              ≤ S (length (protect_calls st)))%nat →
  ∀ st, (length (protect_calls (exec (process_in_order step cases) st))
         ≤ length (protect_calls st) + length cases)%nat.
Proof.
  intros Hstep. induction cases as [|case rest IH]; intros st.
  { unfold exec. simpl. lia. }
  cbn [process_in_order foldr]. unfold exec, bind.
  pose proof (Hstep case st) as Hone. unfold exec in Hone.
  destruct (try_print (step case) st) as [[[]|e] st1]; simpl in *; [|lia].
  specialize (IH st1). unfold exec, process_in_order, bind in IH. lia.
Qed.

Lemma add_step_one_call (cfg : Config) (env : Env) (blacklist : list string)
    (case : Case) (st : State) :
  (length (protect_calls (exec (try_print (add_step cfg env blacklist case)) st))
   ≤ S (length (protect_calls st)))%nat.
Proof. add_paths; rewrite ?length_app; simpl; lia. Qed.

Lemma remove_step_one_call (cfg : Config) (env : Env) (early : list Early.row)
    (case : Case) (st : State) :
  (length (protect_calls (exec (try_print (remove_step cfg env early case)) st))
   ≤ S (length (protect_calls st)))%nat.
Proof. remove_paths; rewrite ?length_app; simpl; lia. Qed.

Lemma capped_length (hardlimit : option Z) (cases : list Case) :
  (length (capped hardlimit cases) ≤ length cases)%nat
  ∧ (∀ limit, hardlimit = Some limit →
       (length (capped hardlimit cases) ≤ Z.to_nat (Z.max 1 limit))%nat).
Proof.
  destruct hardlimit as [limit|]; simpl.
  - rewrite length_firstn. split; [lia|]. intros ? [= <-]. lia.
  - split; [lia|done].
Qed.

Lemma omap_length_le {A B : Type} (f : A → option B) (l : list A) :
  (length (omap f l) ≤ length l)%nat.
Proof.
  induction l as [|x t IH]; csimpl; [lia|]. destruct (f x); csimpl; lia.
Qed.

(** The calls one pass adds: none when the pass is skipped, else at most
    one per handled case. *)
Lemma pass_calls_bound (step : Case → M Message) (limit hardlimit : option Z)
    (entries : nat) (skipped : Z → Message) (cases : list Case) (st : State) :
  (∀ case st, length (protect_calls (exec (try_print (step case)) st))
              ≤ S (length (protect_calls st)))%nat →
  (length cases ≤ entries)%nat →
  let pass : M unit :=
    match exceeded_limit limit entries with
    | None => for_cases step hardlimit 1 cases
    | Some l => λ st, (Return (), print (skipped l) st)
    end in
  (∀ h, hardlimit = Some h →
     (length (protect_calls (exec pass st))
      ≤ length (protect_calls st) + Z.to_nat (Z.max 1 h))%nat)
  ∧ (∀ l, limit = Some l →
       (length (protect_calls (exec pass st))
        ≤ length (protect_calls st) + Z.to_nat l)%nat).
Proof.
  intros Hstep Hentries pass. subst pass.
  destruct (exceeded_limit limit entries) as [l|] eqn:Hex.
  { unfold exec. simpl. split; intros; lia. }
  rewrite for_cases_capped.
  pose proof (process_in_order_calls_bound step (capped hardlimit cases) Hstep st)
    as Hbound.
  destruct (capped_length hardlimit cases) as [Hlen Hcap].
  split.
  - intros h Hh. specialize (Hcap h Hh). lia.
  - intros l Hl. apply exceeded_limit_None in Hex. specialize (Hex l Hl). lia.
Qed.

Lemma lift_pass_calls_bound (cfg : Config) (env : Env) (early : list Early.row)
    (to_lift : list Merged.row) (st : State) :
  let final := exec (lift_pass cfg env early to_lift) st in
  (∀ h, HARDLIMIT cfg = Some h →
     (length (protect_calls final)
      ≤ length (protect_calls st) + Z.to_nat (Z.max 1 h))%nat)
  ∧ (∀ l, LIFTLIMIT cfg = Some l →
       (length (protect_calls final) ≤ length (protect_calls st) + Z.to_nat l)%nat).
Proof.
  exact (pass_calls_bound (remove_step cfg env early) (LIFTLIMIT cfg) (HARDLIMIT cfg)
           (length to_lift) (DoNotLift (length to_lift)) (itertuples_lift to_lift) st
           (remove_step_one_call cfg env early) (omap_length_le _ _)).
Qed.

Lemma add_pass_calls_bound (cfg : Config) (env : Env) (blacklist : list string)
    (to_add : list Usage.row) (st : State) :
  let final := exec (add_pass cfg env blacklist to_add) st in
  (∀ h, HARDLIMIT cfg = Some h →
     (length (protect_calls final)
      ≤ length (protect_calls st) + Z.to_nat (Z.max 1 h))%nat)
  ∧ (∀ l, ADDLIMIT cfg = Some l →
       (length (protect_calls final) ≤ length (protect_calls st) + Z.to_nat l)%nat).
Proof.
  exact (pass_calls_bound (add_step cfg env blacklist) (ADDLIMIT cfg) (HARDLIMIT cfg)
           (length to_add) (DoNotAdd (length to_add)) (itertuples_add to_add) st
           (add_step_one_call cfg env blacklist) (omap_length_le _ _)).
Qed.

(** X10: the limits bound the protection calls of each pass.  With a hard
    limit [h] the lift pass issues at most [max 1 h] calls and the add
    pass of the same run at most [max 1 h] more; with a lift limit the
    lift pass issues at most that many calls, with an add limit the add
    pass at most that many.  The bounds of the two passes add up to the
    bound of the run. *)
Theorem limits_bound_calls (cfg : Config) (env : Env)
    (indef : list Protection.row) (early : list Early.row)
    (top : list Usage.row) (blacklist : list string) (st : State) :
  let to_lift :=
    protection_to_lift cfg top (protected_highly_used_items cfg indef early) in
  let to_add := protection_missing cfg top indef in
  let lifted := exec (lift_pass cfg env early to_lift) st in
  let final := exec (run_passes cfg env indef early top blacklist) st in
  (final = exec (add_pass cfg env blacklist to_add) lifted ∨ final = lifted)
  ∧ (∀ h, HARDLIMIT cfg = Some h →
       (length (protect_calls lifted)
        ≤ length (protect_calls st) + Z.to_nat (Z.max 1 h))%nat
       ∧ (length (protect_calls final)
          ≤ length (protect_calls lifted) + Z.to_nat (Z.max 1 h))%nat
       ∧ (length (protect_calls final)
          ≤ length (protect_calls st) + 2 * Z.to_nat (Z.max 1 h))%nat)
  ∧ (∀ l, LIFTLIMIT cfg = Some l →
       (length (protect_calls lifted) ≤ length (protect_calls st) + Z.to_nat l)%nat)
  ∧ (∀ a, ADDLIMIT cfg = Some a →
       (length (protect_calls final) ≤ length (protect_calls lifted) + Z.to_nat a)%nat)
  ∧ (∀ l a, LIFTLIMIT cfg = Some l → ADDLIMIT cfg = Some a →
       (length (protect_calls final)
        ≤ length (protect_calls st) + Z.to_nat l + Z.to_nat a)%nat).
Proof.
  intros to_lift to_add lifted final.
  destruct (lift_pass_calls_bound cfg env early to_lift st) as [Hlift_h Hlift_l].
  fold lifted in Hlift_h, Hlift_l.
  destruct (add_pass_calls_bound cfg env blacklist to_add lifted) as [Hadd_h Hadd_l].
  assert (final = exec (add_pass cfg env blacklist to_add) lifted ∨ final = lifted)
    as Hfinal.
  { subst final lifted. unfold run_passes, exec, bind. fold to_lift to_add.
    destruct (lift_pass cfg env early to_lift st) as [[[]|e] st1]; cbn [fst snd];
      by auto. }
  split; [done|].
  destruct Hfinal as [-> | ->].
  - split; [|split; [|split]].
    + intros h Hh. specialize (Hlift_h h Hh). specialize (Hadd_h h Hh). lia.
    + done.
    + done.
    + intros l a Hl Ha. specialize (Hlift_l l Hl). specialize (Hadd_l a Ha). lia.
  - split; [|split; [|split]].
    + intros h Hh. specialize (Hlift_h h Hh). lia.
    + done.
    + intros a _. lia.
    + intros l a Hl Ha. specialize (Hlift_l l Hl). lia.
Qed.

(** The bounds of the two passes and of the run at a hard limit of two. *)
Lemma limits_bound_calls_witness :
  let lifted :=
    exec (lift_pass tight_config quiet_env []
            (protection_to_lift tight_config policy_toplist
               (protected_highly_used_items tight_config policy_protections [])))
         (initial_state policy_wiki) in
  let final :=
    exec (run_passes tight_config quiet_env policy_protections [] policy_toplist [])
         (initial_state policy_wiki) in
  (length (protect_calls lifted)
   ≤ length (protect_calls (initial_state policy_wiki)) + Z.to_nat (Z.max 1 2))%nat
  ∧ (length (protect_calls final)
     ≤ length (protect_calls lifted) + Z.to_nat (Z.max 1 2))%nat
  ∧ (length (protect_calls final)
     ≤ length (protect_calls (initial_state policy_wiki))
       + 2 * Z.to_nat (Z.max 1 2))%nat.
Proof.
  apply (proj1 (proj2 (limits_bound_calls tight_config quiet_env policy_protections []
                         policy_toplist [] (initial_state policy_wiki)))).
  reflexivity.
Defined.

(** * How a run ends *)

Lemma remove_step_crash (cfg : Config) (env : Env) (early : list Early.row)
    (case : Case) (st : State) :
  index_error_case cfg env early case = true →
  try_print (remove_step cfg env early case) st
  = (Raise IndexError, exec (access_replica_database env (qid case)) st).
Proof.
  unfold index_error_case. rewrite !andb_true_iff, !negb_true_iff.
  intros [[[Hover Hadmin] Hone] Hlog].
  apply bool_decide_eq_true in Hone, Hlog.
  unfold try_print, remove_step. rewrite remove_protection_guarded, Hover.
  rewrite not_whitelisted_cases, Hadmin.
  destruct (early_protection_of early case) as [|grant [|grant' rest]]; [done| |done].
  by rewrite Hlog.
Qed.

Lemma remove_step_returns (cfg : Config) (env : Env) (early : list Early.row)
    (case : Case) (st : State) :
  index_error_case cfg env early case = false →
  fst (try_print (remove_step cfg env early case) st) = Return ().
Proof.
  unfold index_error_case. intros Hcrash.
  remove_paths; done.
Qed.

Lemma process_in_order_cons (step : Case → M Message) (case : Case)
    (rest : list Case) (st : State) :
  process_in_order step (case :: rest) st
  = match try_print (step case) st with
    | (Return _, st1) => process_in_order step rest st1
    | (Raise e, st1) => (Raise e, st1)
    end.
Proof. reflexivity. Qed.

Lemma process_lift_result (cfg : Config) (env : Env) (early : list Early.row)
    (cases : list Case) (st : State) :
  fst (process_in_order (remove_step cfg env early) cases st)
  = if existsb (index_error_case cfg env early) cases
    then Raise IndexError else Return ().
Proof.
  revert st. induction cases as [|case rest IH]; intros st; [done|].
  rewrite process_in_order_cons. cbn [existsb].
  destruct (index_error_case cfg env early case) eqn:Hcrash.
  - by rewrite remove_step_crash.
  - pose proof (remove_step_returns cfg env early case st Hcrash) as Hret.
    destruct (try_print (remove_step cfg env early case) st) as [[[]|e] st1];
      [|done].
    apply IH.
Qed.

Lemma process_add_result (cfg : Config) (env : Env) (blacklist : list string)
    (cases : list Case) (st : State) :
  fst (process_in_order (add_step cfg env blacklist) cases st) = Return ().
Proof. apply process_add_in_order_prints. Qed.

Lemma lift_pass_as_process (cfg : Config) (env : Env)
    (indef : list Protection.row) (early : list Early.row)
    (top : list Usage.row) (st : State) :
  lift_pass cfg env early (to_lift_of cfg indef early top) st
  = process_in_order (remove_step cfg env early) (lift_handled cfg indef early top)
      (lift_note cfg indef early top st).
Proof.
  unfold lift_pass, lift_handled, lift_note.
  destruct (exceeded_limit _ _); [done|]. by rewrite for_cases_capped.
Qed.

Lemma add_pass_as_process (cfg : Config) (env : Env)
    (indef : list Protection.row) (top : list Usage.row)
    (blacklist : list string) (st : State) :
  add_pass cfg env blacklist (protection_missing cfg top indef) st
  = process_in_order (add_step cfg env blacklist) (add_handled cfg indef top)
      (add_note cfg indef top st).
Proof.
  unfold add_pass, add_handled, add_note.
  destruct (exceeded_limit _ _); [done|]. by rewrite for_cases_capped.
Qed.

(** A run is the lift loop over its handled cases and, when that loop
    ends normally, the add loop over its handled cases. *)
Lemma run_passes_as_process (cfg : Config) (env : Env)
    (indef : list Protection.row) (early : list Early.row)
    (top : list Usage.row) (blacklist : list string) (st : State) :
  let lifted :=
    exec (process_in_order (remove_step cfg env early)
            (lift_handled cfg indef early top))
         (lift_note cfg indef early top st) in
  run_passes cfg env indef early top blacklist st
  = if existsb (index_error_case cfg env early) (lift_handled cfg indef early top)
    then (Raise IndexError, lifted)
    else (Return (),
          exec (process_in_order (add_step cfg env blacklist)
                  (add_handled cfg indef top))
               (add_note cfg indef top lifted)).
Proof.
  intros lifted. subst lifted. unfold run_passes, bind.
  fold (to_lift_of cfg indef early top).
  rewrite lift_pass_as_process.
  pose proof (process_lift_result cfg env early (lift_handled cfg indef early top)
                (lift_note cfg indef early top st)) as Hres.
  unfold exec.
  destruct (process_in_order (remove_step cfg env early) _ _) as [r st1].
  simpl in Hres. subst r.
  destruct (existsb _ _); [done|].
  rewrite add_pass_as_process.
  pose proof (process_add_result cfg env blacklist (add_handled cfg indef top)
                (add_note cfg indef top st1)) as Hres.
  destruct (process_in_order (add_step cfg env blacklist) _ _) as [r st2].
  simpl in *. by subst r.
Qed.




(** With no protect action in the log, the one grant row for Q9 ends the
    run in the lift pass; Q5, highly used and unprotected, is not handled. *)
Example empty_log_ends_the_run :
  main_exit shipped_config quiet_env protected_by_admin [early_grant] toplist_file []
            small_wiki = Raise IndexError
  ∧ protect_calls (exec (main shipped_config quiet_env protected_by_admin [early_grant]
                           toplist_file [])
                        (initial_state small_wiki)) = [].
Proof. split; reflexivity. Qed.

(** The protection of Q9 is lifted, then the log query for Q11 returns no
    row: the run ends there, with the call made and counted and no report
    written. *)
Example lifted_then_left_without_report :
  let run :=
    main shipped_config quiet_env crash_after_lift_protections crash_after_lift_grants
         crash_after_lift_file [] (initial_state small_wiki) in
  fst run = Raise IndexError
  ∧ protect_calls (snd run) = [remove_call (mkCase "Q9" (Some 120) (Some "MsynABot"))]
  ∧ Counter.removed Counter.Removed.successful (counter (snd run)) = 1%nat
  ∧ reports (snd run) = [].
Proof. repeat split; reflexivity. Qed.

(** A wiki that reports no item: the passes run, two statistics lines are
    printed, the division ends the run and no report is written. *)
Example no_items_end_the_run :
  let run :=
    main shipped_config no_items_env protected_by_bot [] toplist_file []
         (initial_state small_wiki) in
  fst run = Raise ZeroDivisionError
  ∧ length (protect_calls (snd run)) = 2%nat
  ∧ reports (snd run) = [].
Proof. repeat split; reflexivity. Qed.

(** An empty toplist file loads as an empty table: no item is highly used,
    so the run lifts the bot's protection of Q9 and reports. *)
Example empty_toplist_file_lifts :
  let run :=
    main shipped_config quiet_env protected_by_bot [] [] [] (initial_state small_wiki) in
  fst run = Return ()
  ∧ protect_calls (snd run) = [remove_call (mkCase "Q9" None (Some "MsynABot"))]
  ∧ length (reports (snd run)) = 2%nat.
Proof. repeat split; reflexivity. Qed.

(** * Repeated runs *)

Lemma same_outcome_refl (st : State) : same_outcome st st.
Proof. by unfold same_outcome. Qed.

Lemma same_outcome_trans (st1 st2 st3 : State) :
  same_outcome st1 st2 → same_outcome st2 st3 → same_outcome st1 st3.
Proof.
  unfold same_outcome. intros (-> & -> & -> & ->) (-> & -> & -> & ->). done.
Qed.

Lemma same_outcome_print (msg : Message) (st : State) :
  same_outcome st (print msg st).
Proof. by unfold same_outcome. Qed.

(** The guards of [add_protection] all pass exactly on an item that is
    not deny-listed, has enough subscribed projects and is unprotected. *)
Lemma add_guards_pass (usage_ok : bool) (cfg : Config) (env : Env) (case : Case)
    (blacklist : list string) (st : State) :
  first_failing (add_guards_from usage_ok cfg env case blacklist st) = None
  ↔ usage_ok && negb (isin (qid case) blacklist)
    && negb (below_subscribed_projects cfg env case)
    && unprotected_item (site st) (qid case) = true.
Proof.
  unfold first_failing, add_guards_from, below_subscribed_projects, unprotected_item.
  simpl.
  destruct usage_ok; simpl; [|done].
  destruct (isin (qid case) blacklist); simpl; [done|].
  assert (match MINSUBSCRIBEDPROJECTS cfg with
          | Some minimum => minimum <=? get_number_of_subscribed_projects env (qid case)
          | None => true
          end
          = negb match MINSUBSCRIBEDPROJECTS cfg with
                 | Some minimum =>
                     get_number_of_subscribed_projects env (qid case) <? minimum
                 | None => false
                 end) as ->.
  { destruct (MINSUBSCRIBEDPROJECTS cfg) as [minimum|]; [|done]. apply Z.leb_antisym. }
  destruct (match MINSUBSCRIBEDPROJECTS cfg with Some _ => _ | None => _ end);
    simpl; [done|].
  destruct (site st !! qid case) as [[redirect prot]|]; simpl; [|done].
  destruct redirect; simpl; [done|].
  destruct (decide (prot = UNPROTECTED)) as [->|Hne].
  - by rewrite !bool_decide_eq_true_2.
  - rewrite (bool_decide_eq_false_2 (Some prot = Some UNPROTECTED)) by congruence.
    by rewrite (bool_decide_eq_false_2 (prot = UNPROTECTED)).
Qed.

(** A successful protecting call leaves its item semiprotected and every
    other item as it was. *)
Lemma after_add_call (wiki : gmap string Page) (case : Case) (q : string) :
  unprotected_item wiki (qid case) = true →
  let wiki' := alter (protect_page (add_call case)) (qid case) wiki in
  unprotected_item wiki' (qid case) = false
  ∧ (q ≠ qid case → wiki' !! q = wiki !! q).
Proof.
  unfold unprotected_item. intros Hopen. cbv zeta. split.
  - rewrite lookup_alter_eq.
    destruct (wiki !! qid case) as [[redirect prot]|]; [|done].
    simpl in *. apply andb_true_iff in Hopen as [-> Hprot].
    apply bool_decide_eq_true in Hprot as ->. simpl.
    apply bool_decide_eq_false. rewrite set_edit_on_unprotected.
    unfold SEMIPROTECTED, UNPROTECTED. intros Heq.
    apply (f_equal (λ m : ProtectionDict, m !! "edit")) in Heq.
    by rewrite lookup_singleton_eq, lookup_empty in Heq.
  - intros Hne. by rewrite lookup_alter_ne.
Qed.

(** A successful unprotecting call leaves its item without the
    semiprotected shape and every other item as it was. *)
Lemma after_remove_call (wiki : gmap string Page) (case : Case) (q : string) :
  semiprotected_item wiki (qid case) = true →
  let wiki' := alter (protect_page (remove_call case)) (qid case) wiki in
  semiprotected_item wiki' (qid case) = false
  ∧ (q ≠ qid case → wiki' !! q = wiki !! q).
Proof.
  unfold semiprotected_item. intros Hopen. cbv zeta. split.
  - apply bool_decide_eq_true in Hopen. rewrite lookup_alter_eq.
    destruct (wiki !! qid case) as [[redirect prot]|]; [|done].
    simpl in *. injection Hopen as ->.
    apply bool_decide_eq_false. destruct pop_edit_on_semiprotected as [_ ->].
    unfold SEMIPROTECTED, UNPROTECTED. intros Heq. apply (inj Some) in Heq.
    apply (f_equal (λ m : ProtectionDict, m !! "edit")) in Heq.
    by rewrite lookup_singleton_eq, lookup_empty in Heq.
  - intros Hne. by rewrite lookup_alter_ne.
Qed.

(** Closes the bookkeeping part of a step that counted one key. *)
Ltac unchanged :=
  rewrite ?added_after_add_protection, ?removed_after_add_protection,
          ?removed_after_remove_protection, ?added_after_remove_protection;
  simpl; repeat split; try done; lia.

(** One iteration of the add loop, not simulated: either the case can be
    added and its item is protected, or nothing that counts as an outcome
    changes. *)
Lemma add_step_outcome (cfg : Config) (env : Env) (blacklist : list string)
    (case : Case) (st : State) :
  SIMULATE cfg = false →
  let st' := exec (try_print (add_step cfg env blacklist case)) st in
  (can_add cfg env blacklist case (site st) = true
   ∧ site st' = alter (protect_page (add_call case)) (qid case) (site st))
  ∨ (can_add cfg env blacklist case (site st) = false ∧ same_outcome st st').
Proof.
  intros Hsimulate. cbv zeta.
  pose proof (add_guards_pass
                (negb (nan_lt (entityUsageCount case) (ENTITYUSAGELIMIT cfg)))
                cfg env case blacklist st) as Hpass.
  unfold can_add, same_outcome.
  add_paths.
  - right. split.
    + apply andb_false_iff. left. apply not_true_is_false.
      intros Hall. by apply Hpass in Hall.
    + apply guard_key_cases in Hguard.
      destruct Hguard as [[-> _] | [[-> _] | [-> | [-> | [-> | ->]]]]]; unchanged.
  - congruence.
  - right. split; [by rewrite andb_false_r|]. unchanged.
  - left. split; [|done]. rewrite andb_true_r. by apply Hpass.
Qed.

(** One iteration of the lift loop, not simulated. *)
Lemma remove_step_outcome (cfg : Config) (env : Env) (early : list Early.row)
    (case : Case) (st : State) :
  SIMULATE cfg = false →
  let st' := exec (try_print (remove_step cfg env early case)) st in
  (can_lift cfg env early case (site st) = true
   ∧ site st' = alter (protect_page (remove_call case)) (qid case) (site st))
  ∨ (can_lift cfg env early case (site st) = false ∧ same_outcome st st').
Proof.
  intros Hsimulate. cbv zeta.
  unfold can_lift, same_outcome, lift_authorized, semiprotected_item.
  remove_paths; try congruence.
  all: try (apply bool_decide_eq_true in Hshape as ->;
            rewrite (bool_decide_eq_true_2 (Some SEMIPROTECTED = Some SEMIPROTECTED))
              by done).
  all: try (apply bool_decide_eq_false in Hshape;
            rewrite (bool_decide_eq_false_2 (Some cur = Some SEMIPROTECTED))
              by congruence).
  all: rewrite ?added_after_remove_protection, ?removed_after_remove_protection.
  all: simpl.
  all: try (left; split; [done|done]).
  all: try (right; split; [done|unchanged]).
Qed.

Lemma before_crash_incl (crash : Case → bool) (cases : list Case) (case : Case) :
  In case (before_crash crash cases) → In case cases.
Proof.
  induction cases as [|head rest IH]; simpl; [done|].
  destruct (crash head); [done|]. intros [<-|Hin]; [by left|right; by apply IH].
Qed.

Lemma before_crash_none (cases : list Case) :
  before_crash (λ _, false) cases = cases.
Proof. induction cases as [|head rest IH]; simpl; [done|]. by rewrite IH. Qed.

Lemma before_crash_all (crash : Case → bool) (cases : list Case) :
  existsb crash cases = false → before_crash crash cases = cases.
Proof.
  induction cases as [|head rest IH]; simpl; [done|].
  destruct (crash head); simpl; [done|]. intros Hrest. by rewrite IH.
Qed.

Section settling.
Context (step : Case → M Message) (crash : Case → bool)
        (open : Case → gmap string Page → bool).

Hypothesis crash_raises :
  ∀ case st, crash case = true → fst (try_print (step case) st) ≠ Return ().
Hypothesis others_return :
  ∀ case st, crash case = false → fst (try_print (step case) st) = Return ().
Hypothesis crash_closed : ∀ case wiki, crash case = true → open case wiki = false.
Hypothesis step_settles :
  ∀ case st, open case (site (exec (try_print (step case)) st)) = false.
Hypothesis step_monotone :
  ∀ case case' st, open case' (site st) = false →
                   open case' (site (exec (try_print (step case)) st)) = false.
Hypothesis step_idle :
  ∀ case st, open case (site st) = false →
             same_outcome st (exec (try_print (step case)) st).

(** After the loop no case it handled is open. *)
Lemma settled_after (cases : list Case) (st : State) (case : Case) :
  In case (before_crash crash cases) →
  open case (site (exec (process_in_order step cases) st)) = false.
Proof.
  revert st. induction cases as [|head rest IH]; intros st; cbn [before_crash];
    [done|].
  destruct (crash head) eqn:Hcrash; [done|]. intros Hin.
  unfold exec. rewrite process_in_order_cons.
  pose proof (others_return head st Hcrash) as Hret.
  pose proof (step_settles head st) as Hclosed. unfold exec in Hclosed.
  destruct (try_print (step head) st) as [[[]|e] st1]; [|done].
  simpl in Hclosed. destruct Hin as [<-|Hin]; [|by apply IH].
  apply (process_in_order_invariant (λ s, open head (site s) = false)); [|done].
  intros c _ s Hs. by apply step_monotone.
Qed.

(** A loop none of whose handled cases is open changes no outcome. *)
Lemma idle_when_settled (cases : list Case) (st : State) :
  (∀ case, In case (before_crash crash cases) → open case (site st) = false) →
  same_outcome st (exec (process_in_order step cases) st).
Proof.
  revert st. induction cases as [|head rest IH]; intros st Hclosed.
  { apply same_outcome_refl. }
  unfold exec. rewrite process_in_order_cons.
  cbn [before_crash] in Hclosed. destruct (crash head) eqn:Hcrash.
  - pose proof (crash_raises head st Hcrash) as Hraise.
    pose proof (step_idle head st) as Hidle. unfold exec in Hidle.
    destruct (try_print (step head) st) as [[[]|e] st1]; [done|].
    simpl in *. apply Hidle. by apply crash_closed.
  - pose proof (step_idle head st (Hclosed head (or_introl eq_refl))) as Hidle.
    unfold exec in Hidle.
    pose proof (others_return head st Hcrash) as Hret.
    destruct (try_print (step head) st) as [[[]|e] st1]; [|done].
    simpl in *. apply (same_outcome_trans st st1); [done|].
    apply IH. intros c Hc. destruct Hidle as [-> _]. apply Hclosed. by right.
Qed.
End settling.

Section rerun.
Context (cfg : Config) (env : Env) (early : list Early.row) (blacklist : list string).
Hypothesis not_simulated : SIMULATE cfg = false.

Lemma index_error_case_closed (case : Case) (wiki : gmap string Page) :
  index_error_case cfg env early case = true → can_lift cfg env early case wiki = false.
Proof.
  unfold index_error_case, can_lift, lift_authorized.
  rewrite !andb_true_iff, !negb_true_iff. intros [[[_ ->] Hone] Hlog].
  apply bool_decide_eq_true in Hone, Hlog. rewrite Hlog.
  destruct (early_protection_of early case) as [|grant [|grant' rest]]; simpl;
    by rewrite ?andb_false_r.
Qed.

Lemma remove_step_settles (case : Case) (st : State) :
  can_lift cfg env early case
    (site (exec (try_print (remove_step cfg env early case)) st)) = false.
Proof.
  destruct (remove_step_outcome cfg env early case st not_simulated)
    as [[Hopen ->]|[Hclosed (-> & _)]]; [|done].
  unfold can_lift in *. apply andb_true_iff in Hopen as [Hopen _].
  apply andb_true_iff in Hopen as [_ Hsemi].
  destruct (after_remove_call (site st) case (qid case) Hsemi) as [-> _].
  by rewrite andb_false_r.
Qed.

Lemma remove_step_monotone (case case' : Case) (st : State) :
  can_lift cfg env early case' (site st) = false →
  can_lift cfg env early case'
    (site (exec (try_print (remove_step cfg env early case)) st)) = false.
Proof.
  intros Hclosed'.
  destruct (remove_step_outcome cfg env early case st not_simulated)
    as [[Hopen ->]|[Hclosed (-> & _)]]; [|done].
  unfold can_lift in Hopen. apply andb_true_iff in Hopen as [Hopen _].
  apply andb_true_iff in Hopen as [_ Hsemi].
  destruct (after_remove_call (site st) case (qid case') Hsemi) as [Hsame Hother].
  destruct (decide (qid case' = qid case)) as [Heq|Hne].
  - unfold can_lift. rewrite Heq, Hsame. by rewrite andb_false_r.
  - unfold can_lift, semiprotected_item in *. by rewrite (Hother Hne).
Qed.

Lemma remove_step_idle (case : Case) (st : State) :
  can_lift cfg env early case (site st) = false →
  same_outcome st (exec (try_print (remove_step cfg env early case)) st).
Proof.
  intros Hclosed.
  destruct (remove_step_outcome cfg env early case st not_simulated)
    as [[Hopen _]|[_ Hsame]]; [congruence|done].
Qed.

Lemma add_step_settles (case : Case) (st : State) :
  can_add cfg env blacklist case
    (site (exec (try_print (add_step cfg env blacklist case)) st)) = false.
Proof.
  destruct (add_step_outcome cfg env blacklist case st not_simulated)
    as [[Hopen ->]|[Hclosed (-> & _)]]; [|done].
  unfold can_add in *. apply andb_true_iff in Hopen as [Hopen _].
  apply andb_true_iff in Hopen as [_ Hfree].
  destruct (after_add_call (site st) case (qid case) Hfree) as [-> _].
  by rewrite andb_false_r.
Qed.

Lemma add_step_monotone (case case' : Case) (st : State) :
  can_add cfg env blacklist case' (site st) = false →
  can_add cfg env blacklist case'
    (site (exec (try_print (add_step cfg env blacklist case)) st)) = false.
Proof.
  intros Hclosed'.
  destruct (add_step_outcome cfg env blacklist case st not_simulated)
    as [[Hopen ->]|[Hclosed (-> & _)]]; [|done].
  unfold can_add in Hopen. apply andb_true_iff in Hopen as [Hopen _].
  apply andb_true_iff in Hopen as [_ Hfree].
  destruct (after_add_call (site st) case (qid case') Hfree) as [Hsame Hother].
  destruct (decide (qid case' = qid case)) as [Heq|Hne].
  - unfold can_add. rewrite Heq, Hsame. by rewrite andb_false_r.
  - unfold can_add, unprotected_item in *. by rewrite (Hother Hne).
Qed.

Lemma add_step_idle (case : Case) (st : State) :
  can_add cfg env blacklist case (site st) = false →
  same_outcome st (exec (try_print (add_step cfg env blacklist case)) st).
Proof.
  intros Hclosed.
  destruct (add_step_outcome cfg env blacklist case st not_simulated)
    as [[Hopen _]|[_ Hsame]]; [congruence|done].
Qed.

(** An add step leaves the lift cases of other items as they were. *)
Lemma add_step_keeps_can_lift (case case' : Case) (st : State) :
  qid case ≠ qid case' →
  can_lift cfg env early case'
    (site (exec (try_print (add_step cfg env blacklist case)) st))
  = can_lift cfg env early case' (site st).
Proof.
  intros Hne.
  destruct (add_step_outcome cfg env blacklist case st not_simulated)
    as [[Hopen ->]|[Hclosed (-> & _)]]; [|done].
  unfold can_lift, semiprotected_item. rewrite lookup_alter_ne; done.
Qed.
End rerun.

Lemma add_step_returns (cfg : Config) (env : Env) (blacklist : list string)
    (case : Case) (st : State) :
  fst (try_print (add_step cfg env blacklist case) st) = Return ().
Proof.
  destruct (try_print_add_returns cfg env case blacklist st) as [msg Hmsg].
  unfold add_step. by rewrite Hmsg.
Qed.

(** No handled case of the add pass names the item of a handled case of
    the lift pass. *)
Lemma handled_cases_disjoint (cfg : Config) (indef : list Protection.row)
    (early : list Early.row) (top : list Usage.row) (to_add to_lift : Case) :
  In to_add (add_handled cfg indef top) →
  In to_lift (lift_handled cfg indef early top) →
  qid to_add ≠ qid to_lift.
Proof.
  unfold add_handled, lift_handled. intros Ha Hl Heq.
  destruct (exceeded_limit (ADDLIMIT cfg) _); [done|].
  destruct (exceeded_limit (LIFTLIMIT cfg) _); [done|].
  apply capped_incl, add_cases_of_spec in Ha as (u & _ & _ & _ & Hfree).
  apply capped_incl, lift_cases_of_spec in Hl as ((r & Hr & Hq & _) & _).
  apply Hfree. rewrite Heq, <- Hq. apply in_map.
  by apply protected_highly_used_items_subset in Hr.
Qed.

Lemma site_lift_note (cfg : Config) (indef : list Protection.row)
    (early : list Early.row) (top : list Usage.row) (st : State) :
  same_outcome st (lift_note cfg indef early top st).
Proof.
  unfold lift_note.
  destruct (exceeded_limit _ _); [apply same_outcome_print|apply same_outcome_refl].
Qed.

Lemma site_add_note (cfg : Config) (indef : list Protection.row)
    (top : list Usage.row) (st : State) :
  same_outcome st (add_note cfg indef top st).
Proof.
  unfold add_note.
  destruct (exceeded_limit _ _); [apply same_outcome_print|apply same_outcome_refl].
Qed.

(** After a run that is not simulated, no lift case it handled can be
    lifted and, when the run reached the add pass, no add case it handled
    can be added. *)
Lemma run_passes_settles (cfg : Config) (env : Env)
    (indef : list Protection.row) (early : list Early.row)
    (top : list Usage.row) (blacklist : list string) (st : State) :
  SIMULATE cfg = false →
  let first := exec (run_passes cfg env indef early top blacklist) st in
  (∀ case, In case (before_crash (index_error_case cfg env early)
                      (lift_handled cfg indef early top)) →
           can_lift cfg env early case (site first) = false)
  ∧ (existsb (index_error_case cfg env early) (lift_handled cfg indef early top)
     = false →
     ∀ case, In case (add_handled cfg indef top) →
             can_add cfg env blacklist case (site first) = false).
Proof.
  intros Hsim first. subst first. unfold exec.
  rewrite run_passes_as_process. cbv zeta.
  set (lifted := exec (process_in_order (remove_step cfg env early)
                         (lift_handled cfg indef early top))
                      (lift_note cfg indef early top st)).
  assert (∀ case, In case (before_crash (index_error_case cfg env early)
                             (lift_handled cfg indef early top)) →
                  can_lift cfg env early case (site lifted) = false) as Hlift.
  { intros case Hin.
    apply (settled_after (remove_step cfg env early) (index_error_case cfg env early)
             (can_lift cfg env early)); try done.
    - intros c s Hc. by apply remove_step_returns.
    - intros c s. by apply remove_step_settles.
    - intros c c' s Hc. by apply remove_step_monotone. }
  destruct (existsb _ _) eqn:Hcrash; cbn [snd]; [done|].
  split.
  - intros case Hin.
    apply (process_in_order_invariant
             (λ s, can_lift cfg env early case (site s) = false)).
    + intros c Hc s Hs. cbv beta in *.
      rewrite (add_step_keeps_can_lift cfg env early blacklist Hsim); [done|].
      apply (handled_cases_disjoint cfg indef early top); [done|].
      by apply before_crash_incl in Hin.
    + destruct (site_add_note cfg indef top lifted) as [-> _]. by apply Hlift.
  - intros _ case Hin.
    apply (settled_after (add_step cfg env blacklist) (λ _, false)
             (can_add cfg env blacklist)); try done.
    + intros c s _. apply add_step_returns.
    + intros c s. by apply add_step_settles.
    + intros c c' s Hc. by apply add_step_monotone.
    + by rewrite before_crash_none.
Qed.

(** A run that is not simulated and starts from a wiki on which none of
    its handled cases can be lifted or added changes no outcome. *)
Lemma run_passes_idle (cfg : Config) (env : Env)
    (indef : list Protection.row) (early : list Early.row)
    (top : list Usage.row) (blacklist : list string) (st : State) :
  SIMULATE cfg = false →
  (∀ case, In case (before_crash (index_error_case cfg env early)
                      (lift_handled cfg indef early top)) →
           can_lift cfg env early case (site st) = false) →
  (existsb (index_error_case cfg env early) (lift_handled cfg indef early top)
   = false →
   ∀ case, In case (add_handled cfg indef top) →
           can_add cfg env blacklist case (site st) = false) →
  same_outcome st (exec (run_passes cfg env indef early top blacklist) st).
Proof.
  intros Hsim Hl Ha. unfold exec. rewrite run_passes_as_process. cbv zeta.
  set (lifted := exec (process_in_order (remove_step cfg env early)
                         (lift_handled cfg indef early top))
                      (lift_note cfg indef early top st)).
  assert (same_outcome st lifted) as Hlifted.
  { apply (same_outcome_trans st (lift_note cfg indef early top st));
      [apply site_lift_note|].
    apply (idle_when_settled (remove_step cfg env early)
             (index_error_case cfg env early) (can_lift cfg env early)).
    - intros c s Hc. by rewrite remove_step_crash.
    - intros c s Hc. by apply remove_step_returns.
    - intros c w Hc. by apply index_error_case_closed.
    - intros c s Hc. by apply remove_step_idle.
    - intros c Hc. destruct (site_lift_note cfg indef early top st) as [-> _].
      by apply Hl. }
  destruct (existsb _ _) eqn:Hcrash; cbn [snd]; [done|].
  apply (same_outcome_trans st lifted); [done|].
  apply (same_outcome_trans lifted (add_note cfg indef top lifted));
    [apply site_add_note|].
  apply (idle_when_settled (add_step cfg env blacklist) (λ _, false)
           (can_add cfg env blacklist)); try done.
  - intros c s _. apply add_step_returns.
  - intros c s Hc. by apply add_step_idle.
  - intros c Hc. rewrite before_crash_none in Hc.
    destruct (site_add_note cfg indef top lifted) as [-> _].
    destruct Hlifted as [-> _]. by apply Ha.
Qed.

(** X12: a run that is not simulated is idempotent on unchanged tables.
    Run again with the same tables, environment and deny list on the wiki
    the first run left, the passes change no page, count no further
    success and do not sleep: whatever the first run could lift or protect
    it has lifted or protected, and what it could not, the second cannot
    either. *)
Theorem rerun_changes_nothing (cfg : Config) (env : Env)
    (indef : list Protection.row) (early : list Early.row)
    (top : list Usage.row) (blacklist : list string) (st : State) :
  SIMULATE cfg = false →
  let first := exec (run_passes cfg env indef early top blacklist) st in
  let second := exec (run_passes cfg env indef early top blacklist) first in
  site second = site first
  ∧ Counter.added Counter.Added.successful (counter second)
    = Counter.added Counter.Added.successful (counter first)
  ∧ Counter.removed Counter.Removed.successful (counter second)
    = Counter.removed Counter.Removed.successful (counter first)
  ∧ sleeps second = sleeps first.
Proof.
  intros Hsim first second.
  destruct (run_passes_settles cfg env indef early top blacklist st Hsim)
    as [Hlift Hadd].
  exact (run_passes_idle cfg env indef early top blacklist first Hsim Hlift Hadd).
Qed.

Lemma rerun_changes_nothing_witness :
  let first :=
    exec (run_passes shipped_config quiet_env policy_protections []
            policy_toplist ["W"])
         (initial_state policy_wiki) in
  let second :=
    exec (run_passes shipped_config quiet_env policy_protections []
            policy_toplist ["W"])
         first in
  site second = site first
  ∧ Counter.added Counter.Added.successful (counter second)
    = Counter.added Counter.Added.successful (counter first)
  ∧ Counter.removed Counter.Removed.successful (counter second)
    = Counter.removed Counter.Removed.successful (counter first)
  ∧ sleeps second = sleeps first.
Proof.
  apply (rerun_changes_nothing shipped_config quiet_env policy_protections []
           policy_toplist ["W"] (initial_state policy_wiki)).
  reflexivity.
Defined.

(** A simulated run changes no page, so run again it counts its
    successes a second time. *)
Example simulated_rerun_counts_again :
  let cfg := with_simulate true shipped_config in
  let first :=
    exec (run_passes cfg quiet_env policy_protections [] policy_toplist ["W"])
         (initial_state policy_wiki) in
  let second :=
    exec (run_passes cfg quiet_env policy_protections [] policy_toplist ["W"])
         first in
  Counter.added Counter.Added.successful (counter first) = 1%nat
  ∧ Counter.added Counter.Added.successful (counter second) = 2%nat
  ∧ Counter.removed Counter.Removed.successful (counter first) = 2%nat
  ∧ Counter.removed Counter.Removed.successful (counter second) = 4%nat.
Proof. vm_compute. repeat split. Qed.

(** * Completeness of the derived frames *)

Lemma merge_left_complete (left : list Protection.row) (top : list Usage.row)
    (r : Protection.row) :
  In r left → In (Protection.qid r) (map Merged.qid (merge_left left top)).
Proof.
  intros Hr. rewrite merge_left_map_qid. unfold join_rows. apply in_map_iff.
  assert (∃ m, In m (merge_row r top) ∧ Merged.qid m = Protection.qid r)
    as (m & Hm & Hq).
  { unfold merge_row. destruct (List.filter _ top) as [|u us].
    - eexists. split; [by left|done].
    - eexists. split; [by left|done]. }
  exists m. split; [done|]. apply in_flat_map. by exists r.
Qed.

Lemma qids_with_In (p : Usage.row → bool) (top : list Usage.row) (q : option string) :
  In q (qids_with p top) ↔ ∃ u, In (Usage.mk q u) top ∧ p (Usage.mk q u) = true.
Proof.
  unfold qids_with. rewrite in_map_iff. split.
  - intros ([q' u] & Hq & Hin). simpl in Hq. subst q'.
    apply filter_In in Hin as [Hin Hp]. by exists u.
  - intros (u & Hin & Hp). exists (Usage.mk q u). split; [done|].
    by apply filter_In.
Qed.

(** The rows of a frame that survive the filter [keep] and [dropna] are
    those whose qid shows in the merged and sorted frame. *)
Lemma merged_frame_qids (keep : Protection.row → bool)
    (top : list Usage.row) (protected : list Protection.row) (q : option string) :
  In q (map Merged.qid
          (sort_by_usage_desc
             (merge_left (dropna_protection (List.filter keep protected)) top)))
  ↔ ∃ r, In r protected ∧ Protection.qid r = q ∧ keep r = true
         ∧ is_Some (Protection.qid r) ∧ is_Some (Protection.username r).
Proof.
  split.
  - intros Hq. apply in_map_iff in Hq as (m & <- & Hm).
    unfold sort_by_usage_desc in Hm.
    apply sort_values_In, merge_left_row in Hm as (r & Hr & Hq & _).
    unfold dropna_protection in Hr.
    apply filter_In in Hr as [Hr Hna]. apply filter_In in Hr as [Hr Hkeep].
    apply andb_true_iff in Hna as [Hq' Hu].
    apply bool_decide_eq_true in Hq', Hu. by exists r.
  - intros (r & Hr & <- & Hkeep & Hq & Hu).
    assert (In r (dropna_protection (List.filter keep protected))) as Hin.
    { unfold dropna_protection. apply filter_In. split; [by apply filter_In|].
      apply andb_true_iff. split; by apply bool_decide_eq_true. }
    apply (merge_left_complete _ top) in Hin.
    apply in_map_iff in Hin as (m & Hq' & Hm). apply in_map_iff.
    exists m. split; [done|]. unfold sort_by_usage_desc. by apply sort_values_In.
Qed.

(** X13: the to-lift and the cooldown frame are complete.  An item is in
    the to-lift frame exactly when the protection frame handed in has a
    row for it with a user name and no toplist row of the item reaches the
    cooldown limit; it is in the cooldown frame exactly when such a
    protection row exists, some toplist row of the item lies below the
    usage limit and some toplist row of it reaches the cooldown limit. *)
Theorem to_lift_and_cooldown_complete (cfg : Config)
    (top : list Usage.row) (protected : list Protection.row) (q : string) :
  let with_user :=
    ∃ r, In r protected ∧ Protection.qid r = Some q
         ∧ is_Some (Protection.username r) in
  (In (Some q) (map Merged.qid (protection_to_lift cfg top protected))
   ↔ with_user
     ∧ ∀ u, In (Usage.mk (Some q) u) top → u < COOLDOWNUSAGELIMIT cfg)
  ∧ (In (Some q) (map Merged.qid (protection_in_cooldown cfg top protected))
     ↔ with_user
       ∧ (∃ u, In (Usage.mk (Some q) u) top ∧ u < ENTITYUSAGELIMIT cfg)
       ∧ (∃ u, In (Usage.mk (Some q) u) top ∧ COOLDOWNUSAGELIMIT cfg ≤ u)).
Proof.
  intros with_user. subst with_user.
  unfold protection_to_lift, protection_in_cooldown. rewrite !merged_frame_qids.
  split.
  - split.
    + intros (r & Hr & Hq & Hkeep & _ & Hu). split; [by exists r|].
      intros u Hin. apply negb_true_iff, isin_false_In in Hkeep.
      destruct (Z.ltb_spec u (COOLDOWNUSAGELIMIT cfg)) as [|Hge]; [done|].
      exfalso. apply Hkeep. rewrite Hq. apply qids_with_In. exists u.
      split; [done|]. simpl. by apply Z.leb_le.
    + intros [(r & Hr & Hq & Hu) Hlow]. exists r. repeat split; try done.
      apply negb_true_iff, isin_false_In. rewrite Hq. intros Hin.
      apply qids_with_In in Hin as (u & Hin & Hge). simpl in Hge.
      apply Z.leb_le in Hge. specialize (Hlow u Hin). lia.
  - split.
    + intros (r & Hr & Hq & Hkeep & _ & Hu). split; [by exists r|].
      apply andb_true_iff in Hkeep as [Hlt Hge].
      apply isin_In, qids_with_In in Hlt as (u & Hin & Hlt).
      apply isin_In, qids_with_In in Hge as (v & Hin' & Hge).
      rewrite Hq in Hin, Hin'. simpl in Hlt, Hge.
      apply Z.ltb_lt in Hlt. apply Z.leb_le in Hge.
      split; [by exists u|by exists v].
    + intros [(r & Hr & Hq & Hu) [(u & Hin & Hlt) (v & Hin' & Hge)]].
      exists r. repeat split; try done.
      apply andb_true_iff. split; apply isin_In, qids_with_In; rewrite Hq.
      * exists u. split; [done|]. simpl. by apply Z.ltb_lt.
      * exists v. split; [done|]. simpl. by apply Z.leb_le.
Qed.

(** * Protections the bot does not own *)

Lemma NoDup_map_key_inj {A K : Type} (key : A → K) (l : list A) (x y : A) :
  NoDup (map key l) → In x l → In y l → key x = key y → x = y.
Proof.
  induction l as [|z t IH]; simpl; [done|].
  rewrite NoDup_cons. intros [Hz Ht] [->|Hx] [->|Hy] Heq; try done.
  - exfalso. apply Hz. apply list_elem_of_In, in_map_iff. by exists y.
  - exfalso. apply Hz. apply list_elem_of_In, in_map_iff. by exists x.
  - by apply IH.
Qed.

Lemma loaded_protections_NoDup (query_result indef : list Protection.row) :
  get_indefinitely_semiprotected_items query_result = Return indef →
  NoDup (map Protection.qid indef).
Proof.
  destruct query_result as [|row rows]; [done|]. intros [= <-].
  apply drop_duplicates_last_NoDup.
Qed.

(** X14: a run leaves alone every protection it does not own.  An item
    whose latest protection row is neither an early protection nor the
    work of a whitelisted administrator is named by no protection call of
    the run, protecting or unprotecting; this covers the highly used items
    that [protection_already_set] lists. *)
Theorem untrusted_protections_untouched (cfg : Config) (env : Env)
    (query_result : list Protection.row) (file_rows : list Early.row)
    (lines : list CsvLine) (blacklist : list string) (wiki : gmap string Page)
    (indef : list Protection.row) :
  get_indefinitely_semiprotected_items query_result = Return indef →
  let early := get_early_item_protections file_rows in
  let final :=
    exec (main cfg env query_result file_rows lines blacklist) (initial_state wiki) in
  (∀ top r, In r (protection_already_set cfg top
                    (protected_not_highly_used_items cfg indef early)) →
            In r (protected_not_highly_used_items cfg indef early))
  ∧ ∀ r call,
      In r (protected_not_highly_used_items cfg indef early) →
      In call (protect_calls final) →
      Protection.qid r ≠ Some (call_title call).
Proof.
  intros Hindef early final. split.
  { intros top r Hr. unfold protection_already_set in Hr.
    by apply filter_In in Hr as [Hr _]. }
  intros r call Hr Hcall Hq.
  pose proof (loaded_protections_NoDup query_result indef Hindef) as Hnd.
  subst final. unfold main, exec, bind, load in Hcall. rewrite Hindef in Hcall.
  destruct (get_list_of_highly_used_items_from_wdcm env lines) as [top|e]; [|done].
  fold early in Hcall.
  assert (Forall (call_within_policy cfg indef early top blacklist)
            (protect_calls
               (exec (run_passes cfg env indef early top blacklist)
                     (initial_state wiki)))) as Hpolicy.
  { apply (run_passes_invariant
             (λ st, Forall (call_within_policy cfg indef early top blacklist)
                           (protect_calls st))); try done.
    - intros case Hcase st'. by apply remove_step_calls_policy.
    - intros case Hcase st'. by apply add_step_calls_policy. }
  assert (In call (protect_calls
                     (exec (run_passes cfg env indef early top blacklist)
                           (initial_state wiki)))) as Hpass.
  { unfold exec.
    destruct (run_passes cfg env indef early top blacklist (initial_state wiki))
      as [[[]|e] st1]; cbn [fst snd] in *; [|done].
    destruct (report_leaves cfg env indef early top blacklist st1)
      as (_ & _ & Hcalls & _).
    unfold exec in Hcalls. by rewrite <- Hcalls. }
  apply (proj1 (List.Forall_forall _ _)) with (x := call) in Hpolicy; [|done].
  unfold protected_not_highly_used_items in Hr.
  apply filter_In in Hr as [Hr Huntrusted].
  unfold call_within_policy in Hpolicy. destruct (call_reason call).
  - destruct Hpolicy as (_ & _ & _ & _ & Hfree). apply Hfree.
    rewrite <- Hq. by apply in_map.
  - destruct Hpolicy as (_ & (r' & Hr' & Hq') & _).
    unfold protected_highly_used_items in Hr'.
    apply filter_In in Hr' as [Hr' Htrusted].
    assert (r = r') as <-.
    { apply (NoDup_map_key_inj Protection.qid indef); try done. congruence. }
    rewrite <- negb_orb in Huntrusted. apply negb_true_iff in Huntrusted. congruence.
Qed.

Lemma untrusted_protections_untouched_witness :
  Protection.qid (Protection.mk (Some "Q9") 20230914120000 (Some "Admin"))
  ≠ Some (call_title (add_call (mkCase "Q5" (Some 600) None))).
Proof.
  apply (proj2 (untrusted_protections_untouched shipped_config quiet_env
                  protected_by_admin [] toplist_file [] small_wiki
                  protected_by_admin eq_refl)).
  - left. reflexivity.
  - left. reflexivity.
Defined.

(** In that run Q9, protected by an administrator who is not whitelisted,
    is untrusted and Q5 is the one item the run touches. *)
Example untrusted_item_and_call :
  protected_not_highly_used_items shipped_config protected_by_admin
    (get_early_item_protections [])
  = protected_by_admin
  ∧ protect_calls (exec (main shipped_config quiet_env protected_by_admin []
                           toplist_file [])
                        (initial_state small_wiki))
    = [add_call (mkCase "Q5" (Some 600) None)].
Proof. split; reflexivity. Qed.

(** * Order of handling *)

Lemma usage_desc_trans (a b c : option Z) :
  usage_desc a b → usage_desc b c → usage_desc a c.
Proof. destruct a, b, c; simpl; try done. lia. Qed.

Lemma StronglySorted_omap {A B : Type} (R : A → A → Prop) (R' : B → B → Prop)
    (f : A → option B) (l : list A) :
  (∀ a b a' b', f a = Some a' → f b = Some b' → R a b → R' a' b') →
  StronglySorted R l → StronglySorted R' (omap f l).
Proof.
  intros Hf Hs. induction Hs as [|a t Hs IH Hall]; csimpl; [constructor|].
  destruct (f a) as [a'|] eqn:Ha; [|done].
  constructor; [done|]. apply List.Forall_forall. intros b' Hb'.
  apply list_elem_of_In, list_elem_of_omap in Hb' as (b & Hb & Hfb).
  apply list_elem_of_In in Hb.
  apply (Hf a b); try done.
  by apply (proj1 (List.Forall_forall _ _) Hall).
Qed.

Lemma StronglySorted_app_cross {A : Type} (R : A → A → Prop) (l1 l2 : list A) :
  StronglySorted R (l1 ++ l2) → ∀ a b, In a l1 → In b l2 → R a b.
Proof.
  induction l1 as [|x t IH]; simpl; [done|].
  intros Hs a b [<-|Ha] Hb.
  - apply StronglySorted_inv in Hs as [_ Hall].
    apply (proj1 (List.Forall_forall _ _) Hall). apply in_or_app. by right.
  - apply StronglySorted_inv in Hs as [Hs _]. by apply IH.
Qed.

Lemma StronglySorted_app_l {A : Type} (R : A → A → Prop) (l1 l2 : list A) :
  StronglySorted R (l1 ++ l2) → StronglySorted R l1.
Proof.
  induction l1 as [|x t IH]; simpl; [constructor|].
  intros Hs. apply StronglySorted_inv in Hs as [Hs Hall]. constructor; [by apply IH|].
  apply List.Forall_forall. intros y Hy.
  apply (proj1 (List.Forall_forall _ _) Hall). apply in_or_app. by left.
Qed.

Lemma capped_split (hardlimit : option Z) (cases : list Case) :
  ∃ rest, cases = (capped hardlimit cases ++ rest)%list.
Proof.
  destruct hardlimit as [limit|]; simpl.
  - exists (skipn (Z.to_nat (Z.max 1 limit)) cases). by rewrite firstn_skipn.
  - exists []. by rewrite app_nil_r.
Qed.

Lemma add_cases_of_sorted (cfg : Config) (indef : list Protection.row)
    (top : list Usage.row) :
  StronglySorted (λ a b, usage_desc (entityUsageCount a) (entityUsageCount b))
                 (add_cases_of cfg indef top).
Proof.
  unfold add_cases_of, itertuples_add.
  apply (StronglySorted_omap
           (λ a b, (Usage.entityUsageCount b <=? Usage.entityUsageCount a) = true)).
  - intros a b a' b' Ha Hb Hab.
    destruct (Usage.qid a), (Usage.qid b); simpl in *; try done.
    injection Ha as <-. injection Hb as <-. simpl. by apply Z.leb_le.
  - unfold protection_missing. apply sort_values_StronglySorted.
    + intros x y Hxy. apply Z.leb_gt in Hxy. apply Z.leb_le. lia.
    + intros x y z Hxy Hyz. apply Z.leb_le in Hxy, Hyz. apply Z.leb_le. lia.
Qed.

Lemma lift_cases_of_sorted (cfg : Config) (indef : list Protection.row)
    (early : list Early.row) (top : list Usage.row) :
  StronglySorted (λ a b, usage_desc (entityUsageCount a) (entityUsageCount b))
                 (lift_cases_of cfg indef early top).
Proof.
  unfold lift_cases_of, itertuples_lift.
  apply (StronglySorted_omap
           (λ a b, usage_desc (Merged.entityUsageCount a) (Merged.entityUsageCount b))).
  - intros a b a' b' Ha Hb Hab.
    destruct (Merged.qid a), (Merged.qid b); simpl in *; try done.
    injection Ha as <-. injection Hb as <-. done.
  - apply Sorted_StronglySorted.
    + intros x y z. apply usage_desc_trans.
    + apply sort_by_usage_desc_Sorted.
Qed.

(** * Handled cases *)


(** One iteration of the add loop: the operation is called, one outcome is
    counted and one line that reports the case is printed. *)
Lemma add_step_handled (cfg : Config) (env : Env) (blacklist : list string)
    (case : Case) (st : State) :
  let st' := exec (try_print (add_step cfg env blacklist case)) st in
  ∃ msg k,
    add_line case msg
    ∧ stdout st' = (stdout st ++ [msg])%list
    ∧ counter st' = Counter.add_protection k (counter st).
Proof.
  unfold add_line. add_paths; eexists _, _; (split; [|split; reflexivity]); eauto.
Qed.

(** One iteration of the lift loop on a case that does not end the pass. *)
Lemma remove_step_handled (cfg : Config) (env : Env) (early : list Early.row)
    (case : Case) (st : State) :
  index_error_case cfg env early case = false →
  let st' := exec (try_print (remove_step cfg env early case)) st in
  ∃ msg k,
    lift_line case msg
    ∧ stdout st' = (stdout st ++ [msg])%list
    ∧ counter st' = Counter.remove_protection k (counter st).
Proof.
  unfold index_error_case, lift_line. intros Hcrash.
  remove_paths; try done;
    eexists _, _; (split; [|split; reflexivity]); eauto.
Qed.

(** The case that ends the lift pass leaves no line and no count. *)
Lemma remove_step_crash_leaves (cfg : Config) (env : Env) (early : list Early.row)
    (case : Case) (st : State) :
  index_error_case cfg env early case = true →
  let st' := exec (try_print (remove_step cfg env early case)) st in
  stdout st' = stdout st ∧ counter st' = counter st.
Proof.
  intros Hcrash. unfold exec. by rewrite remove_step_crash.
Qed.

Lemma process_add_lines (cfg : Config) (env : Env) (blacklist : list string)
    (cases : list Case) (st : State) :
  let st' := exec (process_in_order (add_step cfg env blacklist) cases) st in
  (∃ lines, stdout st' = (stdout st ++ lines)%list ∧ Forall2 add_line cases lines)
  ∧ counts_total (added_items (counter st'))
    = (counts_total (added_items (counter st)) + length cases)%nat.
Proof.
  revert st. induction cases as [|case rest IH]; intros st.
  { unfold exec. simpl. split; [|lia]. exists []. by rewrite app_nil_r. }
  unfold exec. rewrite process_in_order_cons.
  destruct (add_step_handled cfg env blacklist case st) as (msg & k & Hline & Hout & Hcnt).
  pose proof (add_step_returns cfg env blacklist case st) as Hret.
  unfold exec in Hout, Hcnt.
  destruct (try_print (add_step cfg env blacklist case) st) as [[[]|e] st1];
    cbn [fst snd] in *; [|done].
  destruct (IH st1) as [(lines & Hlines & Hall) Htotal]. unfold exec in Hlines, Htotal.
  split.
  - exists (msg :: lines). rewrite Hlines, Hout, <- app_assoc. split; [done|].
    by constructor.
  - rewrite Htotal, Hcnt, (proj1 (totals_after_add_protection k (counter st))).
    simpl. lia.
Qed.

Lemma process_lift_lines (cfg : Config) (env : Env) (early : list Early.row)
    (cases : list Case) (st : State) :
  let st' := exec (process_in_order (remove_step cfg env early) cases) st in
  let reached := before_crash (index_error_case cfg env early) cases in
  (∃ lines, stdout st' = (stdout st ++ lines)%list ∧ Forall2 lift_line reached lines)
  ∧ counts_total (removed_items (counter st'))
    = (counts_total (removed_items (counter st)) + length reached)%nat.
Proof.
  revert st. induction cases as [|case rest IH]; intros st.
  { unfold exec. simpl. split; [|lia]. exists []. by rewrite app_nil_r. }
  unfold exec. rewrite process_in_order_cons. cbn [before_crash].
  destruct (index_error_case cfg env early case) eqn:Hcrash.
  { rewrite remove_step_crash by done. cbn [snd]. split; [|simpl; lia].
    exists []. by rewrite app_nil_r. }
  destruct (remove_step_handled cfg env early case st Hcrash)
    as (msg & k & Hline & Hout & Hcnt).
  pose proof (remove_step_returns cfg env early case st Hcrash) as Hret.
  unfold exec in Hout, Hcnt.
  destruct (try_print (remove_step cfg env early case) st) as [[[]|e] st1];
    cbn [fst snd] in *; [|done].
  destruct (IH st1) as [(lines & Hlines & Hall) Htotal]. unfold exec in Hlines, Htotal.
  split.
  - exists (msg :: lines). rewrite Hlines, Hout, <- app_assoc. split; [done|].
    by constructor.
  - rewrite Htotal, Hcnt, (proj1 (totals_after_remove_protection k (counter st))).
    simpl. lia.
Qed.

Lemma before_crash_split (crash : Case → bool) (cases : list Case) :
  ∃ rest, cases = (before_crash crash cases ++ rest)%list.
Proof.
  induction cases as [|case rest IH]; simpl; [by exists []|].
  destruct (crash case); [by eexists|].
  destruct IH as [rest' Hrest]. exists rest'. simpl. by rewrite <- Hrest.
Qed.

(** A prefix of candidates in descending order of usage holds the most
    used of them. *)
Lemma prefix_most_used_first (reported rest candidates : list Case) :
  candidates = (reported ++ rest)%list →
  StronglySorted usage_order candidates →
  most_used_first reported candidates.
Proof.
  intros -> Hsorted. split.
  - by apply StronglySorted_app_l in Hsorted.
  - exists rest. split; [done|]. by apply StronglySorted_app_cross.
Qed.



(** With room under the add limit and a hard limit of two, the add pass
    handles the two most used of the three candidates, in that order, and
    leaves the third alone. *)
Example add_pass_handles_two_of_three :
  let added :=
    add_pass roomy_config quiet_env []
      (protection_missing roomy_config three_candidates []) (initial_state small_wiki) in
  fst added = Return ()
  ∧ stdout (snd added)
    = [ AddWarning Counter.Added.itemisredirect (mkCase "Q7" (Some 900) None);
        AddWarning Counter.Added.itemnotexists (mkCase "Q8" (Some 700) None) ]
  ∧ counts_total (added_items (counter (snd added))) = 2%nat.
Proof. repeat split; reflexivity. Qed.

(** X15: the most used candidates are handled first.  The lines a pass
    prints after the line of a skipped pass, if any, report cases in
    descending order of usage count, cases without a count last: for the
    add pass the cases it handles, for the lift pass the handled cases
    before one that ends the pass.  These are the first of the candidates
    of the pass, and no candidate left out, by the hard limit, by a
    skipped pass or by the end of the pass, has a higher count than a
    reported one. *)
Theorem most_used_handled_first (cfg : Config) (env : Env)
    (indef : list Protection.row) (early : list Early.row)
    (top : list Usage.row) (blacklist : list string) (st : State) :
  let lifted := exec (lift_pass cfg env early (to_lift_of cfg indef early top)) st in
  let added := exec (add_pass cfg env blacklist (protection_missing cfg top indef)) st in
  let lift_reported :=
    before_crash (index_error_case cfg env early) (lift_handled cfg indef early top) in
  let add_reported := add_handled cfg indef top in
  (∃ lines,
     stdout lifted = (stdout (lift_note cfg indef early top st) ++ lines)%list
     ∧ Forall2 lift_line lift_reported lines)
  ∧ most_used_first lift_reported (lift_cases_of cfg indef early top)
  ∧ (∃ lines,
       stdout added = (stdout (add_note cfg indef top st) ++ lines)%list
       ∧ Forall2 add_line add_reported lines)
  ∧ most_used_first add_reported (add_cases_of cfg indef top).
Proof.
  intros lifted added lift_reported add_reported.
  split; [|split; [|split]].
  - subst lifted. unfold exec. rewrite lift_pass_as_process.
    apply process_lift_lines.
  - destruct (before_crash_split (index_error_case cfg env early)
                (lift_handled cfg indef early top)) as [rest1 Hrest1].
    fold lift_reported in Hrest1.
    assert (∃ rest2, lift_cases_of cfg indef early top
                     = (lift_handled cfg indef early top ++ rest2)%list)
      as [rest2 Hrest2].
    { unfold lift_handled. destruct (exceeded_limit _ _); [by eexists|].
      apply capped_split. }
    apply (prefix_most_used_first _ (rest1 ++ rest2)).
    + by rewrite app_assoc, <- Hrest1.
    + apply lift_cases_of_sorted.
  - subst added. unfold exec. rewrite add_pass_as_process.
    apply process_add_lines.
  - assert (∃ rest, add_cases_of cfg indef top = (add_reported ++ rest)%list)
      as [rest Hrest].
    { subst add_reported. unfold add_handled.
      destruct (exceeded_limit _ _); [by eexists|]. apply capped_split. }
    apply (prefix_most_used_first _ rest); [done|]. apply add_cases_of_sorted.
Qed.
